(** * Maplify: title normalisation, similarity voting, extraction, mapping

    A shallow embedding of the core of the [maplify] package
    (src/core/similarity.ts and src/core/mapper.ts) together with the
    properties of its specification.

    Conventions of the embedding.
    - An ECMAScript string is the list of its UTF-16 code units.
    - A function that can throw returns a [result]; the constructors of
      [error] name the exceptions the code can raise.
    - Similarity ratings are quotients of small integers, kept as reduced
      rationals; comparing them as rationals agrees with comparing the
      correctly rounded doubles the program computes, because two distinct
      quotients with denominators below 200 are never rounded together.
    - The built-in string operations the code calls ([toLowerCase],
      [replace] with a regular expression, [trim], [substring], [split],
      [encodeURIComponent]) are embedded by their ECMAScript definitions.
    - Console output ([console.warn], [console.error]) is not modelled. *)

From Stdlib Require Import List Bool Arith NArith ZArith QArith Qreduction Lia.
From Stdlib Require Import Ascii String.
Import ListNotations.

Close Scope Q_scope.
Open Scope nat_scope.
Open Scope list_scope.

Set Implicit Arguments.
Set Warnings "-register-all".

(* ================================================================== *)
(** ** Errors and the exception monad *)
(* ================================================================== *)

Inductive error : Type :=
| ErrTwoWebsites   (* Error("At least two websites are required to map") *)
| ErrNoArray       (* Error("REST API or GraphQL response should contain an array property") *)
| ErrNoTitle       (* Error("Each item in the array should contain a title property of type string") *)
| ErrNeedsVariables (* Error("GraphQL needs variables.") *)
| ErrNeedsQuery    (* Error("GraphQL needs a query.") *)
| ErrBadArguments  (* string-similarity: Error("Bad arguments: ...") *)
| TypeError        (* property read on undefined/null, call of a non-function *)
| RangeError       (* Maximum call stack size exceeded *)
| URIError.        (* encodeURIComponent: URI malformed *)

Inductive result (A : Type) : Type :=
| Ok (a : A)
| Throw (e : error).

Arguments Ok {A} a.
Arguments Throw {A} e.

Definition bind {A B : Type} (m : result A) (f : A -> result B) : result B :=
  match m with
  | Ok a => f a
  | Throw e => Throw e
  end.

Notation "x <- m ;; k" := (bind m (fun x => k))
  (at level 61, m at next level, right associativity).

(** [Array.prototype.map] with a callback that may throw: the callback runs
    on the elements in order and the first exception aborts the map. *)
Fixpoint mapM {A B : Type} (f : A -> result B) (l : list A) : result (list B) :=
  match l with
  | [] => Ok []
  | a :: l' => b <- f a ;; bs <- mapM f l' ;; Ok (b :: bs)
  end.

(* ================================================================== *)
(** ** ECMAScript strings *)
(* ================================================================== *)

Module Js.

(** A string is its sequence of UTF-16 code units. *)
Definition str : Type := list N.

(** An ASCII literal as a string. *)
Definition lit (s : string) : str :=
  List.map N_of_ascii (list_ascii_of_string s).

Fixpoint eqb (a b : str) : bool :=
  match a, b with
  | [], [] => true
  | x :: a', y :: b' => N.eqb x y && eqb a' b'
  | _, _ => false
  end.

(** *** Code points

    [toLowerCase] and [encodeURIComponent] read a string as code points: a
    high surrogate followed by a low surrogate is one code point, and
    every other code unit, a lone surrogate too, is a code point on its
    own. *)
Inductive point : Type :=
| Single (c : N)
| Pair (h l : N).

Definition isHighSurrogate (c : N) : bool :=
  ((0xD800 <=? c) && (c <=? 0xDBFF))%N.

Definition isLowSurrogate (c : N) : bool :=
  ((0xDC00 <=? c) && (c <=? 0xDFFF))%N.

Fixpoint points (s : str) : list point :=
  match s with
  | [] => []
  | h :: s' =>
      match s' with
      | l :: s'' =>
          if isHighSurrogate h && isLowSurrogate l
          then Pair h l :: points s''
          else Single h :: points s'
      | [] => [Single h]
      end
  end.

Definition codePoint (p : point) : N :=
  match p with
  | Single c => c
  | Pair h l => (0x10000 + (h - 0xD800) * 0x400 + (l - 0xDC00))%N
  end.

(** The UTF-16 encoding of a code point. *)
Definition codeUnits (c : N) : str :=
  if (c <? 0x10000)%N then [c]
  else [(0xD800 + (c - 0x10000) / 0x400)%N;
        (0xDC00 + (c - 0x10000) mod 0x400)%N].

(** The code units a code point was read from. *)
Definition unitsOf (p : point) : str :=
  match p with
  | Single c => [c]
  | Pair h l => [h; l]
  end.

(** *** [String.prototype.toLowerCase]

    The result is the Unicode default lower-case conversion of the code
    points (ECMAScript 22.1.3.28): the simple lower-case mapping of
    UnicodeData.txt, and the two language-independent entries of
    SpecialCasing.txt, U+0130 and the final sigma.  The tables are those
    of Unicode 14.0; an engine built on a later version also converts the
    cased letters added since.

    Each entry [(first, last, step, lower)] of [lowerCaseTable] maps the
    code points [first], [first + step], ..., [last] to [lower],
    [lower + step], ...; code points above U+007F only. *)
Definition lowerCaseTable : list (N * N * N * N) :=
  [
   (0x00C0, 0x00D6, 1, 0x00E0); (0x00D8, 0x00DE, 1, 0x00F8); (0x0100, 0x012E, 2, 0x0101);
   (0x0132, 0x0136, 2, 0x0133); (0x0139, 0x0147, 2, 0x013A); (0x014A, 0x0176, 2, 0x014B);
   (0x0178, 0x0178, 1, 0x00FF); (0x0179, 0x017D, 2, 0x017A); (0x0181, 0x0181, 1, 0x0253);
   (0x0182, 0x0184, 2, 0x0183); (0x0186, 0x0186, 1, 0x0254); (0x0187, 0x0187, 1, 0x0188);
   (0x0189, 0x018A, 1, 0x0256); (0x018B, 0x018B, 1, 0x018C); (0x018E, 0x018E, 1, 0x01DD);
   (0x018F, 0x018F, 1, 0x0259); (0x0190, 0x0190, 1, 0x025B); (0x0191, 0x0191, 1, 0x0192);
   (0x0193, 0x0193, 1, 0x0260); (0x0194, 0x0194, 1, 0x0263); (0x0196, 0x0196, 1, 0x0269);
   (0x0197, 0x0197, 1, 0x0268); (0x0198, 0x0198, 1, 0x0199); (0x019C, 0x019C, 1, 0x026F);
   (0x019D, 0x019D, 1, 0x0272); (0x019F, 0x019F, 1, 0x0275); (0x01A0, 0x01A4, 2, 0x01A1);
   (0x01A6, 0x01A6, 1, 0x0280); (0x01A7, 0x01A7, 1, 0x01A8); (0x01A9, 0x01A9, 1, 0x0283);
   (0x01AC, 0x01AC, 1, 0x01AD); (0x01AE, 0x01AE, 1, 0x0288); (0x01AF, 0x01AF, 1, 0x01B0);
   (0x01B1, 0x01B2, 1, 0x028A); (0x01B3, 0x01B5, 2, 0x01B4); (0x01B7, 0x01B7, 1, 0x0292);
   (0x01B8, 0x01B8, 1, 0x01B9); (0x01BC, 0x01BC, 1, 0x01BD); (0x01C4, 0x01C4, 1, 0x01C6);
   (0x01C5, 0x01C5, 1, 0x01C6); (0x01C7, 0x01C7, 1, 0x01C9); (0x01C8, 0x01C8, 1, 0x01C9);
   (0x01CA, 0x01CA, 1, 0x01CC); (0x01CB, 0x01DB, 2, 0x01CC); (0x01DE, 0x01EE, 2, 0x01DF);
   (0x01F1, 0x01F1, 1, 0x01F3); (0x01F2, 0x01F4, 2, 0x01F3); (0x01F6, 0x01F6, 1, 0x0195);
   (0x01F7, 0x01F7, 1, 0x01BF); (0x01F8, 0x021E, 2, 0x01F9); (0x0220, 0x0220, 1, 0x019E);
   (0x0222, 0x0232, 2, 0x0223); (0x023A, 0x023A, 1, 0x2C65); (0x023B, 0x023B, 1, 0x023C);
   (0x023D, 0x023D, 1, 0x019A); (0x023E, 0x023E, 1, 0x2C66); (0x0241, 0x0241, 1, 0x0242);
   (0x0243, 0x0243, 1, 0x0180); (0x0244, 0x0244, 1, 0x0289); (0x0245, 0x0245, 1, 0x028C);
   (0x0246, 0x024E, 2, 0x0247); (0x0370, 0x0372, 2, 0x0371); (0x0376, 0x0376, 1, 0x0377);
   (0x037F, 0x037F, 1, 0x03F3); (0x0386, 0x0386, 1, 0x03AC); (0x0388, 0x038A, 1, 0x03AD);
   (0x038C, 0x038C, 1, 0x03CC); (0x038E, 0x038F, 1, 0x03CD); (0x0391, 0x03A1, 1, 0x03B1);
   (0x03A3, 0x03AB, 1, 0x03C3); (0x03CF, 0x03CF, 1, 0x03D7); (0x03D8, 0x03EE, 2, 0x03D9);
   (0x03F4, 0x03F4, 1, 0x03B8); (0x03F7, 0x03F7, 1, 0x03F8); (0x03F9, 0x03F9, 1, 0x03F2);
   (0x03FA, 0x03FA, 1, 0x03FB); (0x03FD, 0x03FF, 1, 0x037B); (0x0400, 0x040F, 1, 0x0450);
   (0x0410, 0x042F, 1, 0x0430); (0x0460, 0x0480, 2, 0x0461); (0x048A, 0x04BE, 2, 0x048B);
   (0x04C0, 0x04C0, 1, 0x04CF); (0x04C1, 0x04CD, 2, 0x04C2); (0x04D0, 0x052E, 2, 0x04D1);
   (0x0531, 0x0556, 1, 0x0561); (0x10A0, 0x10C5, 1, 0x2D00); (0x10C7, 0x10C7, 1, 0x2D27);
   (0x10CD, 0x10CD, 1, 0x2D2D); (0x13A0, 0x13EF, 1, 0xAB70); (0x13F0, 0x13F5, 1, 0x13F8);
   (0x1C90, 0x1CBA, 1, 0x10D0); (0x1CBD, 0x1CBF, 1, 0x10FD); (0x1E00, 0x1E94, 2, 0x1E01);
   (0x1E9E, 0x1E9E, 1, 0x00DF); (0x1EA0, 0x1EFE, 2, 0x1EA1); (0x1F08, 0x1F0F, 1, 0x1F00);
   (0x1F18, 0x1F1D, 1, 0x1F10); (0x1F28, 0x1F2F, 1, 0x1F20); (0x1F38, 0x1F3F, 1, 0x1F30);
   (0x1F48, 0x1F4D, 1, 0x1F40); (0x1F59, 0x1F5F, 2, 0x1F51); (0x1F68, 0x1F6F, 1, 0x1F60);
   (0x1F88, 0x1F8F, 1, 0x1F80); (0x1F98, 0x1F9F, 1, 0x1F90); (0x1FA8, 0x1FAF, 1, 0x1FA0);
   (0x1FB8, 0x1FB9, 1, 0x1FB0); (0x1FBA, 0x1FBB, 1, 0x1F70); (0x1FBC, 0x1FBC, 1, 0x1FB3);
   (0x1FC8, 0x1FCB, 1, 0x1F72); (0x1FCC, 0x1FCC, 1, 0x1FC3); (0x1FD8, 0x1FD9, 1, 0x1FD0);
   (0x1FDA, 0x1FDB, 1, 0x1F76); (0x1FE8, 0x1FE9, 1, 0x1FE0); (0x1FEA, 0x1FEB, 1, 0x1F7A);
   (0x1FEC, 0x1FEC, 1, 0x1FE5); (0x1FF8, 0x1FF9, 1, 0x1F78); (0x1FFA, 0x1FFB, 1, 0x1F7C);
   (0x1FFC, 0x1FFC, 1, 0x1FF3); (0x2126, 0x2126, 1, 0x03C9); (0x212A, 0x212A, 1, 0x006B);
   (0x212B, 0x212B, 1, 0x00E5); (0x2132, 0x2132, 1, 0x214E); (0x2160, 0x216F, 1, 0x2170);
   (0x2183, 0x2183, 1, 0x2184); (0x24B6, 0x24CF, 1, 0x24D0); (0x2C00, 0x2C2F, 1, 0x2C30);
   (0x2C60, 0x2C60, 1, 0x2C61); (0x2C62, 0x2C62, 1, 0x026B); (0x2C63, 0x2C63, 1, 0x1D7D);
   (0x2C64, 0x2C64, 1, 0x027D); (0x2C67, 0x2C6B, 2, 0x2C68); (0x2C6D, 0x2C6D, 1, 0x0251);
   (0x2C6E, 0x2C6E, 1, 0x0271); (0x2C6F, 0x2C6F, 1, 0x0250); (0x2C70, 0x2C70, 1, 0x0252);
   (0x2C72, 0x2C72, 1, 0x2C73); (0x2C75, 0x2C75, 1, 0x2C76); (0x2C7E, 0x2C7F, 1, 0x023F);
   (0x2C80, 0x2CE2, 2, 0x2C81); (0x2CEB, 0x2CED, 2, 0x2CEC); (0x2CF2, 0x2CF2, 1, 0x2CF3);
   (0xA640, 0xA66C, 2, 0xA641); (0xA680, 0xA69A, 2, 0xA681); (0xA722, 0xA72E, 2, 0xA723);
   (0xA732, 0xA76E, 2, 0xA733); (0xA779, 0xA77B, 2, 0xA77A); (0xA77D, 0xA77D, 1, 0x1D79);
   (0xA77E, 0xA786, 2, 0xA77F); (0xA78B, 0xA78B, 1, 0xA78C); (0xA78D, 0xA78D, 1, 0x0265);
   (0xA790, 0xA792, 2, 0xA791); (0xA796, 0xA7A8, 2, 0xA797); (0xA7AA, 0xA7AA, 1, 0x0266);
   (0xA7AB, 0xA7AB, 1, 0x025C); (0xA7AC, 0xA7AC, 1, 0x0261); (0xA7AD, 0xA7AD, 1, 0x026C);
   (0xA7AE, 0xA7AE, 1, 0x026A); (0xA7B0, 0xA7B0, 1, 0x029E); (0xA7B1, 0xA7B1, 1, 0x0287);
   (0xA7B2, 0xA7B2, 1, 0x029D); (0xA7B3, 0xA7B3, 1, 0xAB53); (0xA7B4, 0xA7C2, 2, 0xA7B5);
   (0xA7C4, 0xA7C4, 1, 0xA794); (0xA7C5, 0xA7C5, 1, 0x0282); (0xA7C6, 0xA7C6, 1, 0x1D8E);
   (0xA7C7, 0xA7C9, 2, 0xA7C8); (0xA7D0, 0xA7D0, 1, 0xA7D1); (0xA7D6, 0xA7D8, 2, 0xA7D7);
   (0xA7F5, 0xA7F5, 1, 0xA7F6); (0xFF21, 0xFF3A, 1, 0xFF41); (0x10400, 0x10427, 1, 0x10428);
   (0x104B0, 0x104D3, 1, 0x104D8); (0x10570, 0x1057A, 1, 0x10597); (0x1057C, 0x1058A, 1, 0x105A3);
   (0x1058C, 0x10592, 1, 0x105B3); (0x10594, 0x10595, 1, 0x105BB); (0x10C80, 0x10CB2, 1, 0x10CC0);
   (0x118A0, 0x118BF, 1, 0x118C0); (0x16E40, 0x16E5F, 1, 0x16E60); (0x1E900, 0x1E921, 1, 0x1E922)
  ]%N.

(** The simple lower-case mapping of a code point above U+007F. *)
Fixpoint lowerIn (table : list (N * N * N * N)) (c : N) : N :=
  match table with
  | [] => c
  | (first, last, step, lower) :: table' =>
      if ((first <=? c) && (c <=? last))%N
      then if ((c - first) mod step =? 0)%N then (lower + (c - first))%N else c
      else lowerIn table' c
  end.

(** The code points with the property Case_Ignorable, as ranges. *)
Definition caseIgnorableTable : list (N * N) :=
  [
   (0x0027, 0x0027); (0x002E, 0x002E); (0x003A, 0x003A); (0x005E, 0x005E); (0x0060, 0x0060);
   (0x00A8, 0x00A8); (0x00AD, 0x00AD); (0x00AF, 0x00AF); (0x00B4, 0x00B4); (0x00B7, 0x00B8);
   (0x02B0, 0x036F); (0x0374, 0x0375); (0x037A, 0x037A); (0x0384, 0x0385); (0x0387, 0x0387);
   (0x0483, 0x0489); (0x0559, 0x0559); (0x055F, 0x055F); (0x0591, 0x05BD); (0x05BF, 0x05BF);
   (0x05C1, 0x05C2); (0x05C4, 0x05C5); (0x05C7, 0x05C7); (0x05F4, 0x05F4); (0x0600, 0x0605);
   (0x0610, 0x061A); (0x061C, 0x061C); (0x0640, 0x0640); (0x064B, 0x065F); (0x0670, 0x0670);
   (0x06D6, 0x06DD); (0x06DF, 0x06E8); (0x06EA, 0x06ED); (0x070F, 0x070F); (0x0711, 0x0711);
   (0x0730, 0x074A); (0x07A6, 0x07B0); (0x07EB, 0x07F5); (0x07FA, 0x07FA); (0x07FD, 0x07FD);
   (0x0816, 0x082D); (0x0859, 0x085B); (0x0888, 0x0888); (0x0890, 0x0891); (0x0898, 0x089F);
   (0x08C9, 0x0902); (0x093A, 0x093A); (0x093C, 0x093C); (0x0941, 0x0948); (0x094D, 0x094D);
   (0x0951, 0x0957); (0x0962, 0x0963); (0x0971, 0x0971); (0x0981, 0x0981); (0x09BC, 0x09BC);
   (0x09C1, 0x09C4); (0x09CD, 0x09CD); (0x09E2, 0x09E3); (0x09FE, 0x09FE); (0x0A01, 0x0A02);
   (0x0A3C, 0x0A3C); (0x0A41, 0x0A42); (0x0A47, 0x0A48); (0x0A4B, 0x0A4D); (0x0A51, 0x0A51);
   (0x0A70, 0x0A71); (0x0A75, 0x0A75); (0x0A81, 0x0A82); (0x0ABC, 0x0ABC); (0x0AC1, 0x0AC5);
   (0x0AC7, 0x0AC8); (0x0ACD, 0x0ACD); (0x0AE2, 0x0AE3); (0x0AFA, 0x0AFF); (0x0B01, 0x0B01);
   (0x0B3C, 0x0B3C); (0x0B3F, 0x0B3F); (0x0B41, 0x0B44); (0x0B4D, 0x0B4D); (0x0B55, 0x0B56);
   (0x0B62, 0x0B63); (0x0B82, 0x0B82); (0x0BC0, 0x0BC0); (0x0BCD, 0x0BCD); (0x0C00, 0x0C00);
   (0x0C04, 0x0C04); (0x0C3C, 0x0C3C); (0x0C3E, 0x0C40); (0x0C46, 0x0C48); (0x0C4A, 0x0C4D);
   (0x0C55, 0x0C56); (0x0C62, 0x0C63); (0x0C81, 0x0C81); (0x0CBC, 0x0CBC); (0x0CBF, 0x0CBF);
   (0x0CC6, 0x0CC6); (0x0CCC, 0x0CCD); (0x0CE2, 0x0CE3); (0x0D00, 0x0D01); (0x0D3B, 0x0D3C);
   (0x0D41, 0x0D44); (0x0D4D, 0x0D4D); (0x0D62, 0x0D63); (0x0D81, 0x0D81); (0x0DCA, 0x0DCA);
   (0x0DD2, 0x0DD4); (0x0DD6, 0x0DD6); (0x0E31, 0x0E31); (0x0E34, 0x0E3A); (0x0E46, 0x0E4E);
   (0x0EB1, 0x0EB1); (0x0EB4, 0x0EBC); (0x0EC6, 0x0EC6); (0x0EC8, 0x0ECD); (0x0F18, 0x0F19);
   (0x0F35, 0x0F35); (0x0F37, 0x0F37); (0x0F39, 0x0F39); (0x0F71, 0x0F7E); (0x0F80, 0x0F84);
   (0x0F86, 0x0F87); (0x0F8D, 0x0F97); (0x0F99, 0x0FBC); (0x0FC6, 0x0FC6); (0x102D, 0x1030);
   (0x1032, 0x1037); (0x1039, 0x103A); (0x103D, 0x103E); (0x1058, 0x1059); (0x105E, 0x1060);
   (0x1071, 0x1074); (0x1082, 0x1082); (0x1085, 0x1086); (0x108D, 0x108D); (0x109D, 0x109D);
   (0x10FC, 0x10FC); (0x135D, 0x135F); (0x1712, 0x1714); (0x1732, 0x1733); (0x1752, 0x1753);
   (0x1772, 0x1773); (0x17B4, 0x17B5); (0x17B7, 0x17BD); (0x17C6, 0x17C6); (0x17C9, 0x17D3);
   (0x17D7, 0x17D7); (0x17DD, 0x17DD); (0x180B, 0x180F); (0x1843, 0x1843); (0x1885, 0x1886);
   (0x18A9, 0x18A9); (0x1920, 0x1922); (0x1927, 0x1928); (0x1932, 0x1932); (0x1939, 0x193B);
   (0x1A17, 0x1A18); (0x1A1B, 0x1A1B); (0x1A56, 0x1A56); (0x1A58, 0x1A5E); (0x1A60, 0x1A60);
   (0x1A62, 0x1A62); (0x1A65, 0x1A6C); (0x1A73, 0x1A7C); (0x1A7F, 0x1A7F); (0x1AA7, 0x1AA7);
   (0x1AB0, 0x1ACE); (0x1B00, 0x1B03); (0x1B34, 0x1B34); (0x1B36, 0x1B3A); (0x1B3C, 0x1B3C);
   (0x1B42, 0x1B42); (0x1B6B, 0x1B73); (0x1B80, 0x1B81); (0x1BA2, 0x1BA5); (0x1BA8, 0x1BA9);
   (0x1BAB, 0x1BAD); (0x1BE6, 0x1BE6); (0x1BE8, 0x1BE9); (0x1BED, 0x1BED); (0x1BEF, 0x1BF1);
   (0x1C2C, 0x1C33); (0x1C36, 0x1C37); (0x1C78, 0x1C7D); (0x1CD0, 0x1CD2); (0x1CD4, 0x1CE0);
   (0x1CE2, 0x1CE8); (0x1CED, 0x1CED); (0x1CF4, 0x1CF4); (0x1CF8, 0x1CF9); (0x1D2C, 0x1D6A);
   (0x1D78, 0x1D78); (0x1D9B, 0x1DFF); (0x1FBD, 0x1FBD); (0x1FBF, 0x1FC1); (0x1FCD, 0x1FCF);
   (0x1FDD, 0x1FDF); (0x1FED, 0x1FEF); (0x1FFD, 0x1FFE); (0x200B, 0x200F); (0x2018, 0x2019);
   (0x2024, 0x2024); (0x2027, 0x2027); (0x202A, 0x202E); (0x2060, 0x2064); (0x2066, 0x206F);
   (0x2071, 0x2071); (0x207F, 0x207F); (0x2090, 0x209C); (0x20D0, 0x20F0); (0x2C7C, 0x2C7D);
   (0x2CEF, 0x2CF1); (0x2D6F, 0x2D6F); (0x2D7F, 0x2D7F); (0x2DE0, 0x2DFF); (0x2E2F, 0x2E2F);
   (0x3005, 0x3005); (0x302A, 0x302D); (0x3031, 0x3035); (0x303B, 0x303B); (0x3099, 0x309E);
   (0x30FC, 0x30FE); (0xA015, 0xA015); (0xA4F8, 0xA4FD); (0xA60C, 0xA60C); (0xA66F, 0xA672);
   (0xA674, 0xA67D); (0xA67F, 0xA67F); (0xA69C, 0xA69F); (0xA6F0, 0xA6F1); (0xA700, 0xA721);
   (0xA770, 0xA770); (0xA788, 0xA78A); (0xA7F2, 0xA7F4); (0xA7F8, 0xA7F9); (0xA802, 0xA802);
   (0xA806, 0xA806); (0xA80B, 0xA80B); (0xA825, 0xA826); (0xA82C, 0xA82C); (0xA8C4, 0xA8C5);
   (0xA8E0, 0xA8F1); (0xA8FF, 0xA8FF); (0xA926, 0xA92D); (0xA947, 0xA951); (0xA980, 0xA982);
   (0xA9B3, 0xA9B3); (0xA9B6, 0xA9B9); (0xA9BC, 0xA9BD); (0xA9CF, 0xA9CF); (0xA9E5, 0xA9E6);
   (0xAA29, 0xAA2E); (0xAA31, 0xAA32); (0xAA35, 0xAA36); (0xAA43, 0xAA43); (0xAA4C, 0xAA4C);
   (0xAA70, 0xAA70); (0xAA7C, 0xAA7C); (0xAAB0, 0xAAB0); (0xAAB2, 0xAAB4); (0xAAB7, 0xAAB8);
   (0xAABE, 0xAABF); (0xAAC1, 0xAAC1); (0xAADD, 0xAADD); (0xAAEC, 0xAAED); (0xAAF3, 0xAAF4);
   (0xAAF6, 0xAAF6); (0xAB5B, 0xAB5F); (0xAB69, 0xAB6B); (0xABE5, 0xABE5); (0xABE8, 0xABE8);
   (0xABED, 0xABED); (0xFB1E, 0xFB1E); (0xFBB2, 0xFBC2); (0xFE00, 0xFE0F); (0xFE13, 0xFE13);
   (0xFE20, 0xFE2F); (0xFE52, 0xFE52); (0xFE55, 0xFE55); (0xFEFF, 0xFEFF); (0xFF07, 0xFF07);
   (0xFF0E, 0xFF0E); (0xFF1A, 0xFF1A); (0xFF3E, 0xFF3E); (0xFF40, 0xFF40); (0xFF70, 0xFF70);
   (0xFF9E, 0xFF9F); (0xFFE3, 0xFFE3); (0xFFF9, 0xFFFB); (0x101FD, 0x101FD); (0x102E0, 0x102E0);
   (0x10376, 0x1037A); (0x10780, 0x10785); (0x10787, 0x107B0); (0x107B2, 0x107BA); (0x10A01, 0x10A03);
   (0x10A05, 0x10A06); (0x10A0C, 0x10A0F); (0x10A38, 0x10A3A); (0x10A3F, 0x10A3F); (0x10AE5, 0x10AE6);
   (0x10D24, 0x10D27); (0x10EAB, 0x10EAC); (0x10F46, 0x10F50); (0x10F82, 0x10F85); (0x11001, 0x11001);
   (0x11038, 0x11046); (0x11070, 0x11070); (0x11073, 0x11074); (0x1107F, 0x11081); (0x110B3, 0x110B6);
   (0x110B9, 0x110BA); (0x110BD, 0x110BD); (0x110C2, 0x110C2); (0x110CD, 0x110CD); (0x11100, 0x11102);
   (0x11127, 0x1112B); (0x1112D, 0x11134); (0x11173, 0x11173); (0x11180, 0x11181); (0x111B6, 0x111BE);
   (0x111C9, 0x111CC); (0x111CF, 0x111CF); (0x1122F, 0x11231); (0x11234, 0x11234); (0x11236, 0x11237);
   (0x1123E, 0x1123E); (0x112DF, 0x112DF); (0x112E3, 0x112EA); (0x11300, 0x11301); (0x1133B, 0x1133C);
   (0x11340, 0x11340); (0x11366, 0x1136C); (0x11370, 0x11374); (0x11438, 0x1143F); (0x11442, 0x11444);
   (0x11446, 0x11446); (0x1145E, 0x1145E); (0x114B3, 0x114B8); (0x114BA, 0x114BA); (0x114BF, 0x114C0);
   (0x114C2, 0x114C3); (0x115B2, 0x115B5); (0x115BC, 0x115BD); (0x115BF, 0x115C0); (0x115DC, 0x115DD);
   (0x11633, 0x1163A); (0x1163D, 0x1163D); (0x1163F, 0x11640); (0x116AB, 0x116AB); (0x116AD, 0x116AD);
   (0x116B0, 0x116B5); (0x116B7, 0x116B7); (0x1171D, 0x1171F); (0x11722, 0x11725); (0x11727, 0x1172B);
   (0x1182F, 0x11837); (0x11839, 0x1183A); (0x1193B, 0x1193C); (0x1193E, 0x1193E); (0x11943, 0x11943);
   (0x119D4, 0x119D7); (0x119DA, 0x119DB); (0x119E0, 0x119E0); (0x11A01, 0x11A0A); (0x11A33, 0x11A38);
   (0x11A3B, 0x11A3E); (0x11A47, 0x11A47); (0x11A51, 0x11A56); (0x11A59, 0x11A5B); (0x11A8A, 0x11A96);
   (0x11A98, 0x11A99); (0x11C30, 0x11C36); (0x11C38, 0x11C3D); (0x11C3F, 0x11C3F); (0x11C92, 0x11CA7);
   (0x11CAA, 0x11CB0); (0x11CB2, 0x11CB3); (0x11CB5, 0x11CB6); (0x11D31, 0x11D36); (0x11D3A, 0x11D3A);
   (0x11D3C, 0x11D3D); (0x11D3F, 0x11D45); (0x11D47, 0x11D47); (0x11D90, 0x11D91); (0x11D95, 0x11D95);
   (0x11D97, 0x11D97); (0x11EF3, 0x11EF4); (0x13430, 0x13438); (0x16AF0, 0x16AF4); (0x16B30, 0x16B36);
   (0x16B40, 0x16B43); (0x16F4F, 0x16F4F); (0x16F8F, 0x16F9F); (0x16FE0, 0x16FE1); (0x16FE3, 0x16FE4);
   (0x1AFF0, 0x1AFF3); (0x1AFF5, 0x1AFFB); (0x1AFFD, 0x1AFFE); (0x1BC9D, 0x1BC9E); (0x1BCA0, 0x1BCA3);
   (0x1CF00, 0x1CF2D); (0x1CF30, 0x1CF46); (0x1D167, 0x1D169); (0x1D173, 0x1D182); (0x1D185, 0x1D18B);
   (0x1D1AA, 0x1D1AD); (0x1D242, 0x1D244); (0x1DA00, 0x1DA36); (0x1DA3B, 0x1DA6C); (0x1DA75, 0x1DA75);
   (0x1DA84, 0x1DA84); (0x1DA9B, 0x1DA9F); (0x1DAA1, 0x1DAAF); (0x1E000, 0x1E006); (0x1E008, 0x1E018);
   (0x1E01B, 0x1E021); (0x1E023, 0x1E024); (0x1E026, 0x1E02A); (0x1E130, 0x1E13D); (0x1E2AE, 0x1E2AE);
   (0x1E2EC, 0x1E2EF); (0x1E8D0, 0x1E8D6); (0x1E944, 0x1E94B); (0x1F3FB, 0x1F3FF); (0xE0001, 0xE0001);
   (0xE0020, 0xE007F); (0xE0100, 0xE01EF)
  ]%N.

(** The code points with the property Cased, as ranges. *)
Definition casedTable : list (N * N) :=
  [
   (0x0041, 0x005A); (0x0061, 0x007A); (0x00AA, 0x00AA); (0x00B5, 0x00B5); (0x00BA, 0x00BA);
   (0x00C0, 0x00D6); (0x00D8, 0x00F6); (0x00F8, 0x01BA); (0x01BC, 0x01BF); (0x01C4, 0x0293);
   (0x0295, 0x02B8); (0x02C0, 0x02C1); (0x02E0, 0x02E4); (0x0345, 0x0345); (0x0370, 0x0373);
   (0x0376, 0x0377); (0x037A, 0x037D); (0x037F, 0x037F); (0x0386, 0x0386); (0x0388, 0x038A);
   (0x038C, 0x038C); (0x038E, 0x03A1); (0x03A3, 0x03F5); (0x03F7, 0x0481); (0x048A, 0x052F);
   (0x0531, 0x0556); (0x0560, 0x0588); (0x10A0, 0x10C5); (0x10C7, 0x10C7); (0x10CD, 0x10CD);
   (0x10D0, 0x10FA); (0x10FD, 0x10FF); (0x13A0, 0x13F5); (0x13F8, 0x13FD); (0x1C80, 0x1C88);
   (0x1C90, 0x1CBA); (0x1CBD, 0x1CBF); (0x1D00, 0x1DBF); (0x1E00, 0x1F15); (0x1F18, 0x1F1D);
   (0x1F20, 0x1F45); (0x1F48, 0x1F4D); (0x1F50, 0x1F57); (0x1F59, 0x1F59); (0x1F5B, 0x1F5B);
   (0x1F5D, 0x1F5D); (0x1F5F, 0x1F7D); (0x1F80, 0x1FB4); (0x1FB6, 0x1FBC); (0x1FBE, 0x1FBE);
   (0x1FC2, 0x1FC4); (0x1FC6, 0x1FCC); (0x1FD0, 0x1FD3); (0x1FD6, 0x1FDB); (0x1FE0, 0x1FEC);
   (0x1FF2, 0x1FF4); (0x1FF6, 0x1FFC); (0x2071, 0x2071); (0x207F, 0x207F); (0x2090, 0x209C);
   (0x2102, 0x2102); (0x2107, 0x2107); (0x210A, 0x2113); (0x2115, 0x2115); (0x2119, 0x211D);
   (0x2124, 0x2124); (0x2126, 0x2126); (0x2128, 0x2128); (0x212A, 0x212D); (0x212F, 0x2134);
   (0x2139, 0x2139); (0x213C, 0x213F); (0x2145, 0x2149); (0x214E, 0x214E); (0x2160, 0x217F);
   (0x2183, 0x2184); (0x24B6, 0x24E9); (0x2C00, 0x2CE4); (0x2CEB, 0x2CEE); (0x2CF2, 0x2CF3);
   (0x2D00, 0x2D25); (0x2D27, 0x2D27); (0x2D2D, 0x2D2D); (0xA640, 0xA66D); (0xA680, 0xA69D);
   (0xA722, 0xA787); (0xA78B, 0xA78E); (0xA790, 0xA7CA); (0xA7D0, 0xA7D1); (0xA7D3, 0xA7D3);
   (0xA7D5, 0xA7D9); (0xA7F5, 0xA7F6); (0xA7F8, 0xA7FA); (0xAB30, 0xAB5A); (0xAB5C, 0xAB68);
   (0xAB70, 0xABBF); (0xFB00, 0xFB06); (0xFB13, 0xFB17); (0xFF21, 0xFF3A); (0xFF41, 0xFF5A);
   (0x10400, 0x1044F); (0x104B0, 0x104D3); (0x104D8, 0x104FB); (0x10570, 0x1057A); (0x1057C, 0x1058A);
   (0x1058C, 0x10592); (0x10594, 0x10595); (0x10597, 0x105A1); (0x105A3, 0x105B1); (0x105B3, 0x105B9);
   (0x105BB, 0x105BC); (0x10780, 0x10780); (0x10783, 0x10785); (0x10787, 0x107B0); (0x107B2, 0x107BA);
   (0x10C80, 0x10CB2); (0x10CC0, 0x10CF2); (0x118A0, 0x118DF); (0x16E40, 0x16E7F); (0x1D400, 0x1D454);
   (0x1D456, 0x1D49C); (0x1D49E, 0x1D49F); (0x1D4A2, 0x1D4A2); (0x1D4A5, 0x1D4A6); (0x1D4A9, 0x1D4AC);
   (0x1D4AE, 0x1D4B9); (0x1D4BB, 0x1D4BB); (0x1D4BD, 0x1D4C3); (0x1D4C5, 0x1D505); (0x1D507, 0x1D50A);
   (0x1D50D, 0x1D514); (0x1D516, 0x1D51C); (0x1D51E, 0x1D539); (0x1D53B, 0x1D53E); (0x1D540, 0x1D544);
   (0x1D546, 0x1D546); (0x1D54A, 0x1D550); (0x1D552, 0x1D6A5); (0x1D6A8, 0x1D6C0); (0x1D6C2, 0x1D6DA);
   (0x1D6DC, 0x1D6FA); (0x1D6FC, 0x1D714); (0x1D716, 0x1D734); (0x1D736, 0x1D74E); (0x1D750, 0x1D76E);
   (0x1D770, 0x1D788); (0x1D78A, 0x1D7A8); (0x1D7AA, 0x1D7C2); (0x1D7C4, 0x1D7CB); (0x1DF00, 0x1DF09);
   (0x1DF0B, 0x1DF1E); (0x1E900, 0x1E943); (0x1F130, 0x1F149); (0x1F150, 0x1F169); (0x1F170, 0x1F189)
  ]%N.

Fixpoint within (ranges : list (N * N)) (c : N) : bool :=
  match ranges with
  | [] => false
  | (first, last) :: ranges' =>
      ((first <=? c) && (c <=? last))%N || within ranges' c
  end.

Definition isCaseIgnorable (c : N) : bool := within caseIgnorableTable c.
Definition isCased (c : N) : bool := within casedTable c.

(** Skipping the case-ignorable code points, the next code point is
    cased. *)
Fixpoint casedNext (ps : list point) : bool :=
  match ps with
  | [] => false
  | p :: ps' =>
      if isCaseIgnorable (codePoint p) then casedNext ps'
      else isCased (codePoint p)
  end.

(** The condition Final_Sigma: the sigma is preceded by a cased letter and
    not followed by one, case-ignorable code points apart.  [before] holds
    the code points in front of it, the nearest first. *)
Definition finalSigma (before after : list point) : bool :=
  casedNext before && negb (casedNext after).

(** [A]..[Z] to [a]..[z]. *)
Definition lowerUnit (c : N) : N :=
  if (65 <=? c)%N && (c <=? 90)%N then (c + 32)%N else c.

Definition lowerPoint (before after : list point) (p : point) : str :=
  match p with
  | Single c =>
      if (c <? 0x80)%N then [lowerUnit c]
      else if (c =? 0x0130)%N then [0x0069; 0x0307]%N
      else if (c =? 0x03A3)%N
           then [if finalSigma before after then 0x03C2 else 0x03C3]%N
           else [lowerIn lowerCaseTable c]
  | Pair _ _ => codeUnits (lowerIn lowerCaseTable (codePoint p))
  end.

Fixpoint lowerPoints (before ps : list point) : str :=
  match ps with
  | [] => []
  | p :: after => lowerPoint before after p ++ lowerPoints (p :: before) after
  end.

Definition toLowerCase (s : str) : str := lowerPoints [] (points s).

(** WhiteSpace and LineTerminator code points: what [trim] strips and what
    the class [\s] matches. *)
Definition isWhiteSpace (c : N) : bool :=
  ((9 <=? c) && (c <=? 13) || (c =? 32) || (c =? 160) || (c =? 5760)
   || (8192 <=? c) && (c <=? 8202) || (c =? 8232) || (c =? 8233)
   || (c =? 8239) || (c =? 8287) || (c =? 12288) || (c =? 65279))%N.

Fixpoint trimStart (s : str) : str :=
  match s with
  | c :: s' => if isWhiteSpace c then trimStart s' else s
  | [] => []
  end.

Definition trimEnd (s : str) : str := rev (trimStart (rev s)).

Definition trim (s : str) : str := trimEnd (trimStart s).

(** [s.substring(0, n)]. *)
Definition substring0 (n : nat) (s : str) : str := firstn n s.

(** [s.replace(/\s+/g, '')]. *)
Definition stripWhiteSpace (s : str) : str :=
  List.filter (fun c => negb (isWhiteSpace c)) s.

(** *** [encodeURIComponent]

    The characters of the unreserved set are kept; every other code point
    is written as the octets of its UTF-8 encoding, each as [%] and two
    upper-case hexadecimal digits.  A surrogate that is not part of a pair
    has no UTF-8 encoding: the call throws a [URIError]. *)
Definition isUnreserved (c : N) : bool :=
  ((65 <=? c) && (c <=? 90) || (97 <=? c) && (c <=? 122)
   || (48 <=? c) && (c <=? 57)
   || (c =? 45) || (c =? 95) || (c =? 46) || (c =? 33) || (c =? 126)
   || (c =? 42) || (c =? 39) || (c =? 40) || (c =? 41))%N.

Definition utf8 (c : N) : list N :=
  (if c <? 0x80 then [c]
   else if c <? 0x800 then [0xC0 + c / 0x40; 0x80 + c mod 0x40]
   else if c <? 0x10000
        then [0xE0 + c / 0x1000; 0x80 + (c / 0x40) mod 0x40; 0x80 + c mod 0x40]
        else [0xF0 + c / 0x40000; 0x80 + (c / 0x1000) mod 0x40;
              0x80 + (c / 0x40) mod 0x40; 0x80 + c mod 0x40])%N.

Definition hexDigit (n : N) : N :=
  (if n <? 10 then 48 + n else 55 + n)%N.

Definition escape (octet : N) : str :=
  [37%N; hexDigit (octet / 16); hexDigit (octet mod 16)].

Definition encodePoint (p : point) : result str :=
  match p with
  | Single c =>
      if isUnreserved c then Ok [c]
      else if isHighSurrogate c || isLowSurrogate c then Throw URIError
      else Ok (flat_map escape (utf8 c))
  | Pair _ _ => Ok (flat_map escape (utf8 (codePoint p)))
  end.

(** The argument is converted to a string first: [undefined] is encoded as
    the text [undefined]. *)
Definition encodeURIComponent (uriComponent : option str) : result str :=
  let text := match uriComponent with
              | Some s => s
              | None => lit "undefined"
              end in
  pieces <- mapM encodePoint (points text) ;;
  Ok (List.concat pieces).

End Js.

(* ================================================================== *)
(** ** The regular expressions of [sanitizeTitle] *)
(* ================================================================== *)

Module Re.

(** One-character matchers.  All three expressions carry the [i] flag, so a
    pattern character is compared after canonicalisation.  The pattern
    characters are ASCII, and without the [u] flag a code unit above 127
    never canonicalises to an ASCII one, so upper-casing [a]..[z] is
    exact. *)
Inductive cclass : Type :=
| Is (c : N)       (* the character c *)
| IsNot (c : N).   (* the class [^c] *)

Inductive regex : Type :=
| Chr (k : cclass)
| Many (k : cclass)          (* k*, greedy *)
| Cat (r1 r2 : regex)
| Or (r1 r2 : regex)         (* r1|r2, left alternative first *)
| Empty                      (* the empty pattern *)
| AtEnd.                     (* $ without the m flag *)

Definition canonicalize (c : N) : N :=
  if (97 <=? c)%N && (c <=? 122)%N then (c - 32)%N else c.

Definition accepts (k : cclass) (x : N) : bool :=
  match k with
  | Is c => N.eqb (canonicalize x) (canonicalize c)
  | IsNot c => negb (N.eqb (canonicalize x) (canonicalize c))
  end.

(** Backtracking matcher in continuation-passing style: [run r s k] matches
    [r] at the start of [s] and hands the rest of the input to [k]; when
    [k] fails the matcher backtracks into [r], longest repetition first. *)
Fixpoint run {A : Type} (r : regex) (s : Js.str) (k : Js.str -> option A)
  : option A :=
  match r with
  | Chr c =>
      match s with
      | x :: s' => if accepts c x then k s' else None
      | [] => None
      end
  | Many c =>
      (fix many (t : Js.str) : option A :=
         match t with
         | x :: t' =>
             if accepts c x
             then match many t' with
                  | Some a => Some a
                  | None => k t
                  end
             else k t
         | [] => k t
         end) s
  | Cat r1 r2 => run r1 s (fun s' => run r2 s' k)
  | Or r1 r2 =>
      match run r1 s k with
      | Some a => Some a
      | None => run r2 s k
      end
  | Empty => k s
  | AtEnd =>
      match s with
      | [] => k s
      | _ :: _ => None
      end
  end.

(** The leftmost match: the text before it and the text after it. *)
Fixpoint search (r : regex) (before : Js.str) (s : Js.str)
  : option (Js.str * Js.str) :=
  match run r s (fun rest => Some rest) with
  | Some rest => Some (rev before, rest)
  | None =>
      match s with
      | [] => None
      | x :: s' => search r (x :: before) s'
      end
  end.

(** [r.test(s)]. *)
Definition matches (r : regex) (s : Js.str) : bool :=
  match search r [] s with
  | Some _ => true
  | None => false
  end.

(** [s.replace(r, '')] for an expression without the [g] flag: only the
    leftmost match is removed. *)
Definition remove (r : regex) (s : Js.str) : Js.str :=
  match search r [] s with
  | Some (before, rest) => before ++ rest
  | None => s
  end.

(** A literal word. *)
Fixpoint word (w : Js.str) : regex :=
  match w with
  | [] => Empty
  | c :: w' => Cat (Chr (Is c)) (word w')
  end.

Definition spaces : regex := Many (Is 32%N).

(** [/ *(\(dub\)|\(sub\)|\(uncensored\)|\(uncut\)|\(subbed\)|\(dubbed\))/i] *)
Definition qualifier : regex :=
  Cat spaces
      (Or (word (Js.lit "(dub)"))
      (Or (word (Js.lit "(sub)"))
      (Or (word (Js.lit "(uncensored)"))
      (Or (word (Js.lit "(uncut)"))
      (Or (word (Js.lit "(subbed)"))
          (word (Js.lit "(dubbed)"))))))).

(** [/ *\([^)]+audio\)/i] *)
Definition audio : regex :=
  Cat spaces
      (Cat (Chr (Is 40%N))
      (Cat (Cat (Chr (IsNot 41%N)) (Many (IsNot 41%N)))
           (word (Js.lit "audio)")))).

(** [/ BD( |$)/i] *)
Definition bd : regex :=
  Cat (word (Js.lit " BD")) (Or (Chr (Is 32%N)) AtEnd).

End Re.

(* ================================================================== *)
(** ** similarity.ts: [sanitizeTitle] *)
(* ================================================================== *)

(** [title] is [string | undefined]; [!title] holds for [undefined] and for
    the empty string. *)
Definition sanitizeTitle (title : option Js.str) : option Js.str :=
  match title with
  | None => None
  | Some [] => None
  | Some t =>
      let resTitle := Js.toLowerCase t in
      let resTitle := Re.remove Re.qualifier resTitle in
      let resTitle := Re.remove Re.audio resTitle in
      let resTitle := Re.remove Re.bd resTitle in
      let resTitle := Js.trim resTitle in
      let resTitle := Js.substring0 99 resTitle in
      Some resTitle
  end.

(* ================================================================== *)
(** ** The string-similarity dependency *)
(* ================================================================== *)

Module StringSimilarity.

(* The [string-similarity] package imported by similarity.ts is a
   dependency; its code is not part of the sources.  The specification
   describes it as the capability that, given a query string and an
   ordered candidate list, returns the best-matching candidate and a score
   in [0,1], computed by a character-bigram Dice metric on
   whitespace-normalised text.  The definitions below follow the package's
   [compareTwoStrings] and [findBestMatch].  (The specification calls the
   metric case-insensitive; every string that reaches it from
   [FindBestMatchByTitles] has been lower-cased by [sanitizeTitle].) *)

Definition bigram : Type := (N * N)%type.

Definition bigram_eqb (a b : bigram) : bool :=
  N.eqb (fst a) (fst b) && N.eqb (snd a) (snd b).

(** The [Map] from bigram to count. *)
Definition counts : Type := list (bigram * nat).

Fixpoint get (b : bigram) (m : counts) : option nat :=
  match m with
  | [] => None
  | (b', n) :: m' => if bigram_eqb b b' then Some n else get b m'
  end.

Fixpoint set (b : bigram) (n : nat) (m : counts) : counts :=
  match m with
  | [] => [(b, n)]
  | (b', n') :: m' =>
      if bigram_eqb b b' then (b', n) :: m' else (b', n') :: set b n m'
  end.

Fixpoint bigrams (s : Js.str) : list bigram :=
  match s with
  | x :: ((y :: _) as s') => (x, y) :: bigrams s'
  | _ => []
  end.

Definition firstBigrams (first : Js.str) : counts :=
  fold_left
    (fun m b => set b (match get b m with Some n => n + 1 | None => 1 end) m)
    (bigrams first) [].

Definition intersectionSize (first second : Js.str) : nat :=
  snd (fold_left
         (fun (st : counts * nat) b =>
            let (m, size) := st in
            let count := match get b m with Some n => n | None => 0 end in
            if 0 <? count then (set b (count - 1) m, size + 1) else st)
         (bigrams second) (firstBigrams first, 0)).

(** Modelled from the spec: the Dice rating of two strings.  Whitespace is
    removed; equal strings rate 1; a string of fewer than two characters
    rates 0; otherwise the rating is twice the size of the intersection of
    the two bigram multisets over the total number of bigrams. *)
Definition compareTwoStrings (first second : Js.str) : Q :=
  let first := Js.stripWhiteSpace first in
  let second := Js.stripWhiteSpace second in
  if Js.eqb first second then 1%Q
  else if (List.length first <? 2) || (List.length second <? 2) then 0%Q
  else Qred (Z.of_nat (2 * intersectionSize first second)
             # Pos.of_nat (List.length first + List.length second - 2)).

Record bestMatch : Type := { target : Js.str; rating : Q }.

(** [currentRating > ratings[bestMatchIndex].rating]. *)
Definition gt (a b : Q) : bool :=
  match Qcompare a b with
  | Gt => true
  | _ => false
  end.

(** Modelled from the spec: the loop of [findBestMatch], with [best] for
    [ratings[bestMatchIndex]]; a later candidate replaces the best one
    only with a strictly greater rating.  Rating a candidate that is
    [undefined] reads [second.replace] on [undefined]. *)
Fixpoint bestFrom (mainString : Js.str) (best : bestMatch)
         (targetStrings : list (option Js.str)) : result bestMatch :=
  match targetStrings with
  | [] => Ok best
  | None :: _ => Throw TypeError
  | Some t :: rest =>
      let currentRating := compareTwoStrings mainString t in
      bestFrom mainString
               (if gt currentRating (rating best)
                then {| target := t; rating := currentRating |}
                else best)
               rest
  end.

(** Modelled from the spec: [findBestMatch(mainString, targetStrings)
    .bestMatch], the first candidate of maximal rating.  The argument
    check rejects a main string that is not a string and an empty candidate
    list; it looks for a candidate that is not a string with
    [Array.prototype.find], which returns the candidate itself, so an
    [undefined] candidate passes the check. *)
Definition findBestMatch (mainString : option Js.str)
           (targetStrings : list (option Js.str)) : result bestMatch :=
  match mainString, targetStrings with
  | None, _ => Throw ErrBadArguments
  | Some _, [] => Throw ErrBadArguments
  | Some _, None :: _ => Throw TypeError
  | Some m, Some t :: rest =>
      bestFrom m {| target := t; rating := compareTwoStrings m t |} rest
  end.

End StringSimilarity.

(* ================================================================== *)
(** ** Plain objects used as maps *)
(* ================================================================== *)

Module Obj.

(** The three tallies of [FindBestMatchByTitles] are object literals [{}]
    indexed by arbitrary strings.  Such an object inherits from
    [Object.prototype], and [Object.entries] lists its own properties with
    the array-index keys first, in ascending numeric order, followed by
    the other keys in creation order. *)

Section WithValues.

Variable V : Type.

(** Own properties, in creation order. *)
Definition t : Type := list (Js.str * V).

Definition empty : t := [].

Fixpoint getOwn (k : Js.str) (o : t) : option V :=
  match o with
  | [] => None
  | (k', v) :: o' => if Js.eqb k k' then Some v else getOwn k o'
  end.

Fixpoint setOwn (k : Js.str) (v : V) (o : t) : t :=
  match o with
  | [] => [(k, v)]
  | (k', v') :: o' =>
      if Js.eqb k k' then (k', v) :: o' else (k', v') :: setOwn k v o'
  end.

(** The property names of [Object.prototype]. *)
Definition prototypeNames : list Js.str :=
  List.map Js.lit
    ["constructor"; "__defineGetter__"; "__defineSetter__"; "hasOwnProperty";
     "__lookupGetter__"; "__lookupSetter__"; "isPrototypeOf";
     "propertyIsEnumerable"; "toString"; "valueOf"; "__proto__";
     "toLocaleString"]%string.

Definition inherited (k : Js.str) : bool :=
  existsb (Js.eqb k) prototypeNames.

(** The value of [o[k]]: an own property, a member of [Object.prototype]
    (a function, or the prototype itself for [__proto__]: an object, never
    [undefined] and always truthy), or [undefined]. *)
Inductive lookup : Type :=
| Own (v : V)
| Inherited
| Undefined.

Definition get (k : Js.str) (o : t) : lookup :=
  match getOwn k o with
  | Some v => Own v
  | None => if inherited k then Inherited else Undefined
  end.

(** [o[k] = v] for a primitive [v]: the [__proto__] setter ignores a value
    that is not an object; any other key becomes or updates an own
    property. *)
Definition set (k : Js.str) (v : V) (o : t) : t :=
  if Js.eqb k (Js.lit "__proto__") then o else setOwn k v o.

Definition isDigit (c : N) : bool := ((48 <=? c) && (c <=? 57))%N.

Definition decimal (k : Js.str) : N :=
  fold_left (fun acc c => (10 * acc + (c - 48))%N) k 0%N.

(** An array index is the canonical decimal form of an integer below
    [2^32 - 1]. *)
Definition arrayIndex (k : Js.str) : option N :=
  match k with
  | [] => None
  | c :: k' =>
      if forallb isDigit k
         && ((negb (c =? 48)%N) || match k' with [] => true | _ => false end)
         && (decimal k <? 4294967295)%N
      then Some (decimal k)
      else None
  end.

Fixpoint insertIndex (i : N) (p : Js.str * V) (l : list (N * (Js.str * V)))
  : list (N * (Js.str * V)) :=
  match l with
  | [] => [(i, p)]
  | (j, q) :: l' =>
      if (i <? j)%N then (i, p) :: l else (j, q) :: insertIndex i p l'
  end.

Fixpoint indexed (o : t) : list (N * (Js.str * V)) :=
  match o with
  | [] => []
  | (k, v) :: o' =>
      match arrayIndex k with
      | Some i => insertIndex i (k, v) (indexed o')
      | None => indexed o'
      end
  end.

Definition named (o : t) : t :=
  List.filter
    (fun p => match arrayIndex (fst p) with Some _ => false | None => true end)
    o.

(** [Object.entries(o)]. *)
Definition entries (o : t) : list (Js.str * V) :=
  List.map snd (indexed o) ++ named o.

End WithValues.

Arguments Own {V} v.
Arguments Inherited {V}.
Arguments Undefined {V}.

End Obj.

(* ================================================================== *)
(** ** similarity.ts: [FindBestMatchByTitles] *)
(* ================================================================== *)

Record Titles : Type :=
  { romaji : option Js.str;
    english : option Js.str;
    native : option Js.str }.

Inductive Title : Type :=
| Plain (s : Js.str)
| Multi (t : Titles).

(** [Input<T>]: an entry with a title and further fields.  The declared
    type of the title is [string]; the entries [mapTitles] passes in are
    the extracted records of a source, whose title may be missing or may be
    a multi-representation object. *)
Record Input (T : Type) : Type :=
  { title : option Title;
    fields : T }.

Arguments title {T} i.
Arguments fields {T} i.

Record Match : Type := { target : Js.str; score : Q }.

Record BestMatch : Type :=
  { mostCommonMatch : option Js.str;
    mostCommonMatchIndex : Z;
    similarityScore : Q }.

(** Truthiness of a [string | undefined]. *)
Definition truthy (s : option Js.str) : bool :=
  match s with
  | Some (_ :: _) => true
  | _ => false
  end.

(** [!title] for a [Title | undefined]: an object is truthy. *)
Definition truthyTitle (t : option Title) : bool :=
  match t with
  | None => false
  | Some (Plain s) => truthy (Some s)
  | Some (Multi _) => true
  end.

(** [sanitizeTitle(t)] on a candidate title that passed the filter
    [t !== undefined]: on an object the call [title.toLowerCase()] is a call
    of [undefined]. *)
Definition sanitizeCandidate (t : Title) : result (option Js.str) :=
  match t with
  | Plain s => Ok (sanitizeTitle (Some s))
  | Multi _ => Throw TypeError
  end.

Fixpoint defined {A : Type} (l : list (option A)) : list A :=
  match l with
  | [] => []
  | Some a :: l' => a :: defined l'
  | None :: l' => defined l'
  end.

(** [results.map(r => r.title).filter(t => t !== undefined)
           .map(t => sanitizeTitle(t))] *)
Definition resultTitlesOf {T : Type} (results : list (Input T))
  : result (list (option Js.str)) :=
  mapM sanitizeCandidate (defined (List.map title results)).

(** [resultTitles.indexOf(x)], by strict equality. *)
Fixpoint indexOfFrom (x : Js.str) (l : list (option Js.str)) (i : Z) : Z :=
  match l with
  | [] => (-1)%Z
  | Some y :: l' => if Js.eqb x y then i else indexOfFrom x l' (i + 1)%Z
  | None :: l' => indexOfFrom x l' (i + 1)%Z
  end.

Definition indexOf (x : Js.str) (l : list (option Js.str)) : Z :=
  indexOfFrom x l 0%Z.

(** A value stored in [frequencyMap]: a count, or the string that results
    from adding 1 to an inherited member of [Object.prototype] (for example
    ["function Object() { [native code] }1"]), whose numeric value is NaN. *)
Inductive frequency : Type :=
| Count (n : nat)
| NotANumber.

(** [(frequencyMap[k] || 0) + 1] *)
Definition increment (v : Obj.lookup frequency) : frequency :=
  match v with
  | Obj.Own (Count n) => Count (n + 1)
  | Obj.Own NotANumber => NotANumber
  | Obj.Inherited => NotANumber
  | Obj.Undefined => Count 1
  end.

Record Tally : Type :=
  { frequencyMap : Obj.t frequency;
    scoreMap : Obj.t Q;
    indexMap : Obj.t Z }.

(** The body of [matches.forEach]. *)
Definition record (resultTitles : list (option Js.str)) (t : Tally) (m : Match)
  : Tally :=
  {| frequencyMap :=
       Obj.set (target m) (increment (Obj.get (target m) (frequencyMap t)))
               (frequencyMap t);
     scoreMap := Obj.set (target m) (score m) (scoreMap t);
     indexMap :=
       match Obj.get (target m) (indexMap t) with
       | Obj.Undefined =>
           Obj.set (target m) (indexOf (target m) resultTitles) (indexMap t)
       | _ => indexMap t
       end |}.

Definition tally (resultTitles : list (option Js.str)) (matches : list Match)
  : Tally :=
  fold_left (record resultTitles) matches
            {| frequencyMap := Obj.empty frequency;
               scoreMap := Obj.empty Q;
               indexMap := Obj.empty Z |}.

(** The state of the selection loop. *)
Record Leader : Type :=
  { leader : option Js.str;
    maxFrequency : nat;
    leaderScore : Q }.

(** [frequency > maxFrequency]; a comparison with NaN is false. *)
Definition exceeds (f : frequency) (maxFrequency : nat) : bool :=
  match f with
  | Count n => maxFrequency <? n
  | NotANumber => false
  end.

(** [scoreMap[match]] and [indexMap[mostCommonMatch]].  Both are read only
    at a key that [record] stored as an own property (lemma [elect_spec]
    below); the other branches stand for a value that never reaches the
    result. *)
Definition scoreAt (k : Js.str) (scores : Obj.t Q) : Q :=
  match Obj.get k scores with
  | Obj.Own q => q
  | _ => 0%Q
  end.

Definition indexAt (k : Js.str) (indices : Obj.t Z) : Z :=
  match Obj.get k indices with
  | Obj.Own i => i
  | _ => (-1)%Z
  end.

(** The body of the loop over [Object.entries(frequencyMap)]. *)
Definition consider (scores : Obj.t Q) (l : Leader) (e : Js.str * frequency)
  : Leader :=
  let (match_, freq) := e in
  if exceeds freq (maxFrequency l)
  then {| leader := Some match_;
          maxFrequency := match freq with Count n => n | NotANumber => 0 end;
          leaderScore := scoreAt match_ scores |}
  else l.

Definition elect (t : Tally) : Leader :=
  fold_left (consider (scoreMap t)) (Obj.entries (frequencyMap t))
            {| leader := None; maxFrequency := 0; leaderScore := 0%Q |}.

Definition decide (t : Tally) : BestMatch :=
  let l := elect t in
  {| mostCommonMatch := leader l;
     mostCommonMatchIndex :=
       (if truthy (leader l)
        then match leader l with
             | Some w => indexAt w (indexMap t)
             | None => -1
             end
        else -1)%Z;
     similarityScore := leaderScore l |}.

(** [rep && findBestMatch(sanitizeTitle(rep)!, resultTitles)] followed by
    the guarded [matches.push]. *)
Definition representation (rep : option Js.str)
           (resultTitles : list (option Js.str)) : result (list Match) :=
  if truthy rep
  then b <- StringSimilarity.findBestMatch (sanitizeTitle rep) resultTitles ;;
       Ok [{| target := StringSimilarity.target b;
              score := StringSimilarity.rating b |}]
  else Ok [].

(** The matches pushed for a truthy title, in the order of the pushes. *)
Definition matchesOf (title : Title) (resultTitles : list (option Js.str))
  : result (list Match) :=
  match title with
  | Plain s =>
      b <- StringSimilarity.findBestMatch (sanitizeTitle (Some s)) resultTitles ;;
      Ok [{| target := StringSimilarity.target b;
             score := StringSimilarity.rating b |}]
  | Multi t =>
      e <- representation (english t) resultTitles ;;
      r <- representation (romaji t) resultTitles ;;
      n <- representation (native t) resultTitles ;;
      Ok (e ++ r ++ n)
  end.

Definition FindBestMatchByTitles {T : Type} (title : option Title)
           (results : list (Input T)) : result BestMatch :=
  match title with
  | Some t =>
      if truthyTitle title
      then resultTitles <- resultTitlesOf results ;;
           matches <- matchesOf t resultTitles ;;
           Ok (decide (tally resultTitles matches))
      else Ok {| mostCommonMatch := None;
                 mostCommonMatchIndex := (-1)%Z;
                 similarityScore := 0%Q |}
  | None => Ok {| mostCommonMatch := None;
                  mostCommonMatchIndex := (-1)%Z;
                  similarityScore := 0%Q |}
  end.

(* ================================================================== *)
(** ** Decoded responses *)
(* ================================================================== *)

(** A decoded response.  The properties of an object are listed in the
    order [for ... in] enumerates them. *)
Inductive JsValue : Type :=
| JNull
| JBool (b : bool)
| JNumber (q : Q)
| JString (s : Js.str)
| JArray (items : list JsValue)
| JObject (props : list (Js.str * JsValue)).

(* ================================================================== *)
(** ** mapper.ts: configuration and construction *)
(* ================================================================== *)

Record Website : Type :=
  { url : Js.str;
    isRestAPI : option bool;
    query : option Js.str;
    variables : option Js.str;
    selectors : option (list (Js.str * Js.str)) }.

Record Maplify : Type := { websites : list Website }.

(** A request handed to the HTTP client. *)
Inductive Request : Type :=
| GET (url : Js.str)
| POST (url query variables : Js.str).

(** The network activity so far: the requests issued, oldest first.  The
    operations of the class take the log and return it, extended by the
    requests they issue. *)
Definition Network : Type := list Request.

(** [new Maplify(...websites)] *)
Definition constructor (websites : list Website) (net : Network)
  : result Maplify * Network :=
  if List.length websites <? 2
  then (Throw ErrTwoWebsites, net)
  else (Ok {| websites := websites |}, net).

Section FetchData.

(** The HTTP client ([axios]) is a parameter. *)
Variable http : Request -> result JsValue.

(** [fetchData(website, query)]: the URL is computed in front of the [try]
    block, so that an error of [encodeURIComponent] leaves the method
    before any request; the [catch] block logs and rethrows. *)
Definition fetchData (website : Website) (query_ : option Js.str)
           (net : Network) : result JsValue * Network :=
  let url_ :=
    if truthy (query website) || truthy (variables website)
    then Ok (url website)
    else encoded <- Js.encodeURIComponent query_ ;;
         Ok (url website ++ encoded) in
  match url_ with
  | Throw e => (Throw e, net)
  | Ok url_ =>
      match query website, variables website with
      | Some ((_ :: _) as q), Some ((_ :: _) as v) =>
          (http (POST url_ q v), net ++ [POST url_ q v])
      | Some (_ :: _), _ => (Throw ErrNeedsVariables, net)
      | _, Some (_ :: _) => (Throw ErrNeedsQuery, net)
      | _, _ => (http (GET url_), net ++ [GET url_])
      end
  end.

End FetchData.

(* ================================================================== *)
(** ** mapper.ts: [extractData], API mode *)
(* ================================================================== *)

(** The loop [for (const key in obj)] of [findArray] over the values
    [obj[key]], with [find] the recursive call. *)
Fixpoint forIn (find : JsValue -> result (option (list JsValue)))
         (values : list JsValue) : result (option (list JsValue)) :=
  match values with
  | [] => Ok None
  | v :: rest =>
      r <- find v ;;
      match r with
      | Some a => Ok (Some a)   (* an array is truthy, also when empty *)
      | None => forIn find rest
      end
  end.

Definition hasKey (k : Js.str) (props : list (Js.str * JsValue)) : bool :=
  existsb (fun p => Js.eqb k (fst p)) props.

(** The local function [findArray].  [stack] is the number of frames the
    call stack still has room for; a call that finds none raises the
    engine's [RangeError].
    - On an object the loop visits the own properties; [obj.hasOwnProperty]
      is the inherited method unless the payload has a property of that
      name, whose value is not callable.
    - On a string primitive [for ... in] enumerates the indices, each an
      own property, and [obj[key]] is the one-character string at that
      index.
    - On [null], a number or a boolean the loop has nothing to visit. *)
Fixpoint findArray (stack : nat) (obj : JsValue)
  : result (option (list JsValue)) :=
  match stack with
  | 0 => Throw RangeError
  | S stack' =>
      match obj with
      | JArray items => Ok (Some items)
      | JObject props =>
          if hasKey (Js.lit "hasOwnProperty") props
          then Throw TypeError
          else forIn (findArray stack') (List.map snd props)
      | JString s =>
          forIn (findArray stack') (List.map (fun c => JString [c]) s)
      | JNull | JBool _ | JNumber _ => Ok None
      end
  end.

(** [item.title]: [None] is [undefined]. *)
Fixpoint getOwnProp (k : Js.str) (props : list (Js.str * JsValue))
  : option JsValue :=
  match props with
  | [] => None
  | (k', v) :: props' => if Js.eqb k k' then Some v else getOwnProp k props'
  end.

Definition titleOf (item : JsValue) : result (option JsValue) :=
  match item with
  | JNull => Throw TypeError
  | JObject props => Ok (getOwnProp (Js.lit "title") props)
  | _ => Ok None
  end.

(** ToBoolean. *)
Definition truthyValue (v : option JsValue) : bool :=
  match v with
  | None => false
  | Some JNull => false
  | Some (JBool b) => b
  | Some (JNumber q) => negb (Qeq_bool q 0)
  | Some (JString s) => truthy (Some s)
  | Some (JArray _) => true
  | Some (JObject _) => true
  end.

(** The callback of [arrayData.map]. *)
Definition checkItem (item : JsValue) : result JsValue :=
  t <- titleOf item ;;
  if negb (truthyValue t) then Throw ErrNoTitle else Ok item.

(** [website.isRestAPI || website.query] *)
Definition apiMode (website : Website) : bool :=
  match isRestAPI website with
  | Some true => true
  | _ => truthy (query website)
  end.

Section ExtractData.

(** The HTML branch of [extractData] is written against the [cheerio]
    document-query library; it is a parameter here. *)
Variable scrape : JsValue -> Website -> result (list JsValue).

Definition extractData (stack : nat) (data : JsValue) (website : Website)
  : result (list JsValue) :=
  if apiMode website
  then arrayData <- findArray stack data ;;
       match arrayData with
       | None => Throw ErrNoArray
       | Some items => mapM checkItem items
       end
  else scrape data website.

End ExtractData.

(* ================================================================== *)
(** ** mapper.ts: [mapTitles] *)
(* ================================================================== *)

(** A number that may be the initial [Infinity] of the running minimum. *)
Inductive JsNumber : Type :=
| Infinity
| Num (q : Q).

(** [Math.min(lowestScore, x)] *)
Definition Math_min (lowestScore : JsNumber) (x : Q) : JsNumber :=
  match lowestScore with
  | Infinity => Num x
  | Num q => if StringSimilarity.gt q x then Num x else Num q
  end.

(** The keys of [matches]: ["base"] and ["website" + (i + 1)]. *)
Inductive Key : Type :=
| base
| website (n : nat).

(** [matches]: the own properties in creation order.  A value read past
    the end of an array is [undefined]. *)
Definition Matches (T : Type) : Type := list (Key * option (Input T)).

(** An element of [mappedTitles]: [{ data: matches, score: lowestScore }]. *)
Module MatchGroup.

Record t (T : Type) : Type :=
  { data : Matches T;
    score : JsNumber }.

Arguments data {T} t.
Arguments score {T} t.

End MatchGroup.

Section MapTitles.

Variable T : Type.

(** The loop [for (let i = 1; i < extractedData.length; i++)], from index
    [i] on; [others] are [extractedData[i]], [extractedData[i + 1]], ... *)
Fixpoint eachSource (baseTitle : option Title) (i : nat)
         (others : list (list (Input T)))
         (matches : Matches T) (lowestScore : JsNumber)
  : result (Matches T * JsNumber) :=
  match others with
  | [] => Ok (matches, lowestScore)
  | otherData :: rest =>
      bestMatch <- FindBestMatchByTitles baseTitle otherData ;;
      if negb (mostCommonMatchIndex bestMatch =? -1)%Z
      then eachSource baseTitle (i + 1) rest
             (matches ++
                [(website (i + 1),
                  nth_error otherData (Z.to_nat (mostCommonMatchIndex bestMatch)))])
             (Math_min lowestScore (similarityScore bestMatch))
      else eachSource baseTitle (i + 1) rest matches lowestScore
  end.

(** The callback of [baseData.forEach]; [mappedTitles] is the array built
    so far. *)
Definition eachBase (others : list (list (Input T)))
           (mappedTitles : list (MatchGroup.t T)) (baseItem : Input T)
  : result (list (MatchGroup.t T)) :=
  if truthyTitle (title baseItem)
  then st <- eachSource (title baseItem) 1 others
                        [(base, Some baseItem)] Infinity ;;
       let (matches, lowestScore) := st in
       if 1 <? List.length matches
       then Ok (mappedTitles ++
                  [{| MatchGroup.data := matches;
                      MatchGroup.score := lowestScore |}])
       else Ok mappedTitles
  else Ok mappedTitles.

Fixpoint forEach {A S : Type} (f : S -> A -> result S) (l : list A) (s : S)
  : result S :=
  match l with
  | [] => Ok s
  | a :: l' => s' <- f s a ;; forEach f l' s'
  end.

(** [extractedData[0]] of an empty array is [undefined], on which
    [forEach] cannot be read. *)
Definition mapTitles (extractedData : list (list (Input T)))
  : result (list (MatchGroup.t T)) :=
  match extractedData with
  | [] => Throw TypeError
  | baseData :: others => forEach (eachBase others) baseData []
  end.

End MapTitles.

(* ================================================================== *)
(** ** Vocabulary of the properties and inputs of the examples *)
(* ================================================================== *)

(** No code unit of [s] is an upper-case ASCII letter. *)
Definition lowered (s : Js.str) : Prop :=
  Forall (fun c => Js.lowerUnit c = c) s.

(** What the facts on [toLowerCase] use of an entry of the table: it is for
    code points above U+007F, the lower-case forms lie above [b] and miss
    U+0130, and they are in the Basic Multilingual Plane exactly when the
    code points of the entry are. *)
Definition entryOk (e : N * N * N * N) : bool :=
  let '(first, last, step, lower) := e in
  ((0x80 <=? first) && (first <=? last) && (98 <? lower)
   && ((lower + (last - first) <? 0x0130) || (0x0130 <? lower))
   && ((last <? 0x10000) && (lower + (last - first) <? 0x10000)
       || (0x10000 <=? first) && (0x10000 <=? lower)))%N.

(** How often U+0130, the one code point whose lower-case form is longer
    than itself, occurs in [s]. *)
Definition dottedCapitals (s : Js.str) : nat :=
  List.length (List.filter (N.eqb 0x0130) s).

(** The least number of characters a match consumes. *)
Fixpoint minlen (r : Re.regex) : nat :=
  match r with
  | Re.Chr _ => 1
  | Re.Many _ => 0
  | Re.Cat r1 r2 => minlen r1 + minlen r2
  | Re.Or r1 r2 => Nat.min (minlen r1) (minlen r2)
  | Re.Empty => 0
  | Re.AtEnd => 0
  end.

(** What makes a string a fixed point of the pipeline. *)
Definition clean (s : Js.str) : Prop :=
  s <> [] /\
  Js.toLowerCase s = s /\
  Re.matches Re.qualifier s = false /\
  Re.matches Re.audio s = false /\
  Re.matches Re.bd s = false /\
  Js.trim s = s.

(** The score of the last match whose target is [k]. *)
Definition lastScore (k : Js.str) (ms : list Match) : option Q :=
  fold_left (fun acc m => if Js.eqb k (target m) then Some (score m) else acc)
            ms None.

(** How often [k] is the target of a match. *)
Definition count (k : Js.str) (ms : list Match) : nat :=
  List.length (List.filter (fun m => Js.eqb k (target m)) ms).

(** The distinct targets in the order of their first occurrence. *)
Definition firsts (ms : list Match) : list Js.str :=
  fold_left
    (fun acc m =>
       if existsb (Js.eqb (target m)) acc then acc else acc ++ [target m])
    ms [].

(** A key that is neither a member of [Object.prototype] nor an array
    index. *)
Definition ordinary (k : Js.str) : bool :=
  negb (Obj.inherited k) &&
  match Obj.arrayIndex k with Some _ => false | None => true end.

(** What the three maps hold after [matches.forEach]. *)
Record tallied (rt : list (option Js.str)) (ms : list Match) (t : Tally)
  : Prop :=
  { freq_keys : NoDup (List.map fst (frequencyMap t));
    freq_own : forall k f,
        Obj.getOwn k (frequencyMap t) = Some f ->
        In k (List.map target ms) /\
        (Obj.inherited k = true -> f = NotANumber);
    score_proto : Obj.getOwn (Js.lit "__proto__") (scoreMap t) = None;
    score_last : forall k,
        k <> Js.lit "__proto__" ->
        Obj.getOwn k (scoreMap t) = lastScore k ms;
    index_value : forall k i,
        Obj.getOwn k (indexMap t) = Some i -> i = indexOf k rt;
    index_first : forall k,
        Obj.inherited k = false -> In k (List.map target ms) ->
        Obj.getOwn k (indexMap t) <> None }.

(** The candidate title an entry contributes to [resultTitles]. *)
Definition sanitizedTitleOf {T : Type} (e : Input T) : option Js.str :=
  match title e with
  | Some (Plain s) => sanitizeTitle (Some s)
  | _ => None
  end.

(** An entry whose title is the ASCII text [s], and one without title. *)
Definition titled (s : string) : Input unit :=
  {| title := Some (Plain (Js.lit s)); fields := tt |}.

Definition untitled : Input unit := {| title := None; fields := tt |}.

(** ["スパイファミリー"] *)
Definition supaiFamiri : Js.str :=
  [12473; 12497; 12452; 12501; 12449; 12511; 12522; 12540]%N.

Definition spyTitle : Title :=
  Multi {| english := Some (Js.lit "Spy x Family");
           romaji := Some (Js.lit "Spy Family");
           native := Some supaiFamiri |}.

Definition onePiece : Titles :=
  {| english := Some (Js.lit "One Piece");
     romaji := Some (Js.lit "Wan Pisu");
     native := None |}.

Definition narutoOr86 : Title :=
  Multi {| english := Some (Js.lit "Naruto");
           romaji := Some (Js.lit "86");
           native := None |}.

(** The [frequencyMap] a call of [FindBestMatchByTitles] builds. *)
Definition votes {T : Type} (sourceTitle : Title) (results : list (Input T))
  : result (Obj.t frequency) :=
  resultTitles <- resultTitlesOf results ;;
  matches <- matchesOf sourceTitle resultTitles ;;
  Ok (frequencyMap (tally resultTitles matches)).

(** The per-source matches recorded in a group, with their scores: for
    the sources [others] (numbered from [i]) and the results [rs] of
    matching the base title against each of them, the sources whose index
    is not -1. *)
Fixpoint recordedFrom {T : Type} (i : nat) (others : list (list (Input T)))
         (rs : list BestMatch) : list ((Key * option (Input T)) * Q) :=
  match others, rs with
  | otherData :: others', r :: rs' =>
      if (mostCommonMatchIndex r =? -1)%Z
      then recordedFrom (i + 1) others' rs'
      else ((website (i + 1),
             nth_error otherData (Z.to_nat (mostCommonMatchIndex r))),
            similarityScore r)
           :: recordedFrom (i + 1) others' rs'
  | _, _ => []
  end.

(** [q] is the least element of [l]. *)
Definition minimumOf (q : Q) (l : list Q) : Prop :=
  In q l /\ forall x, In x l -> (q <= x)%Q.

(** The group emitted for [baseItem]. *)
Definition groupOf {T : Type} (others : list (list (Input T))) (baseItem : Input T)
           (g : MatchGroup.t T) : Prop :=
  truthyTitle (title baseItem) = true /\
  exists rs,
    Forall2 (fun otherData r =>
               FindBestMatchByTitles (title baseItem) otherData = Ok r)
            others rs /\
    recordedFrom 1 others rs <> [] /\
    MatchGroup.data g =
      (base, Some baseItem) :: List.map fst (recordedFrom 1 others rs) /\
    MatchGroup.score g =
      fold_left Math_min (List.map snd (recordedFrom 1 others rs)) Infinity /\
    exists q,
      MatchGroup.score g = Num q /\
      minimumOf q (List.map snd (recordedFrom 1 others rs)).

(** Three sources with one entry each; the base title rates 19/20 against
    the second source and 7/10 against the third. *)
Definition threeSources : list (list (Input unit)) :=
  [ [titled "abcdefghijklmnopqrstu"];
    [titled "abcdefghijklmnopqrstx"];
    [titled "abcdefghijklmno123456"] ].

Definition threeSourcesGroup : MatchGroup.t unit :=
  {| MatchGroup.data :=
       [ (base, Some (titled "abcdefghijklmnopqrstu"));
         (website 2, Some (titled "abcdefghijklmnopqrstx"));
         (website 3, Some (titled "abcdefghijklmno123456")) ];
     MatchGroup.score := Num (7 # 10) |}.

Definition restSite : Website :=
  {| url := Js.lit "https://example.org/search?q=";
     isRestAPI := Some true;
     query := None;
     variables := None;
     selectors := None |}.

(** The first array met by a depth-first, pre-order walk over the
    properties of nested objects, in enumeration order. *)
Fixpoint firstArray (v : JsValue) : option (list JsValue) :=
  match v with
  | JArray items => Some items
  | JObject props =>
      (fix first (ps : list (Js.str * JsValue)) : option (list JsValue) :=
         match ps with
         | [] => None
         | (_, child) :: ps' =>
             match firstArray child with
             | Some a => Some a
             | None => first ps'
             end
         end) props
  | _ => None
  end.

(** Nesting depth of objects. *)
Fixpoint depth (v : JsValue) : nat :=
  match v with
  | JObject props =>
      S ((fix deepest (ps : list (Js.str * JsValue)) : nat :=
            match ps with
            | [] => 0
            | (_, child) :: ps' => Nat.max (depth child) (deepest ps')
            end) props)
  | _ => 1
  end.

(** No non-empty string and no property called [hasOwnProperty] outside
    arrays. *)
Fixpoint textFree (v : JsValue) : bool :=
  match v with
  | JString s => match s with [] => true | _ => false end
  | JObject props =>
      negb (hasKey (Js.lit "hasOwnProperty") props) &&
      (fix all (ps : list (Js.str * JsValue)) : bool :=
         match ps with
         | [] => true
         | (_, child) :: ps' => textFree child && all ps'
         end) props
  | _ => true
  end.

(** A REST response with a status field in front of the result list:
    [{"status": "ok", "results": [{"title": "Naruto"}]}]. *)
Definition statusPayload : JsValue :=
  JObject
    [ (Js.lit "status", JString (Js.lit "ok"));
      (Js.lit "results",
       JArray [JObject [(Js.lit "title", JString (Js.lit "Naruto"))]]) ].

(* ================================================================== *)
(** ** mapper.ts: [extractData], HTML mode *)
(* ================================================================== *)

From Stdlib Require Import Permutation.

(** [value.split("@")]: the first segment and the segments after it. *)
Fixpoint split (sep : N) (s : Js.str) : Js.str * list Js.str :=
  match s with
  | [] => ([], [])
  | c :: s' =>
      let (seg, segs) := split sep s' in
      if (c =? sep)%N then ([], seg :: segs) else (c :: seg, segs)
  end.

Section Cheerio.

(** The document-query library ([cheerio]) is a parameter: the elements
    [$(mainSelector)] selects in the loaded document, in the order [each]
    visits them ([mainSelector] may be [undefined]); the value of
    [$(element).find(selector).attr(attribute)], [None] for [undefined];
    and the value of [$(element).find(selector).text()]. *)
Variable Element : Type.
Variable select : JsValue -> option Js.str -> result (list Element).
Variable attr : Element -> Js.str -> Js.str -> option Js.str.
Variable text : Element -> Js.str -> Js.str.

(** The value extracted for one field: [const [selector, attribute] =
    value.split("@")], then the attribute if [attribute] is truthy, the
    trimmed text otherwise. *)
Definition extractField (element : Element) (value : Js.str) : Js.str :=
  let (selector, rest) := split 64 value in
  match rest with
  | attribute :: _ =>
      if truthy (Some attribute)
      then match attr element selector attribute with
           | Some extractedValue => extractedValue
           | None => []
           end
      else Js.trim (text element selector)
  | [] => Js.trim (text element selector)
  end.

(** The body of the loop over [Object.entries(selectors)]. *)
Definition extractInto (element : Element) (result : Obj.t Js.str)
           (entry : Js.str * Js.str) : Obj.t Js.str :=
  let (key, value) := entry in
  if negb (Js.eqb key (Js.lit "mainSelector")) && truthy (Some value)
  then Obj.set key (extractField element value) result
  else result.

(** The object [result] built for one matched element. *)
Definition extractEntry (selectors : Obj.t Js.str) (element : Element)
  : Obj.t Js.str :=
  fold_left (extractInto element) (Obj.entries selectors) [].

(** An extracted entry as a value: its properties in enumeration order. *)
Definition entryValue (result : Obj.t Js.str) : JsValue :=
  JObject (List.map (fun p => (fst p, JString (snd p))) (Obj.entries result)).

(** [website.selectors ?? { mainSelector: "body" }] *)
Definition selectorsOf (website : Website) : Obj.t Js.str :=
  match selectors website with
  | Some s => s
  | None => [(Js.lit "mainSelector", Js.lit "body")]
  end.

(** The HTML branch of [extractData]. *)
Definition scrapeHtml (data : JsValue) (website : Website)
  : result (list JsValue) :=
  elements <- select data (Obj.getOwn (Js.lit "mainSelector") (selectorsOf website)) ;;
  Ok (List.map (fun element => entryValue (extractEntry (selectorsOf website) element))
               elements).

End Cheerio.

(** The value the entry of an element holds under [key]: the extracted
    field when [key] is configured with a non-empty selector and is neither
    [mainSelector] nor [__proto__], and [undefined] otherwise. *)
Definition fieldOf {Element : Type}
           (attr : Element -> Js.str -> Js.str -> option Js.str)
           (text : Element -> Js.str -> Js.str)
           (selectors : Obj.t Js.str) (element : Element) (key : Js.str)
  : option Js.str :=
  match Obj.getOwn key selectors with
  | Some value =>
      if negb (Js.eqb key (Js.lit "mainSelector")) && truthy (Some value)
         && negb (Js.eqb key (Js.lit "__proto__"))
      then Some (extractField attr text element value)
      else None
  | None => None
  end.

(** A GraphQL response in the shape of the README's first source. *)
Definition pagePayload : JsValue :=
  JObject
    [ (Js.lit "data",
       JObject
         [ (Js.lit "Page",
            JObject
              [ (Js.lit "media",
                 JArray
                   [ JObject
                       [ (Js.lit "siteUrl", JString (Js.lit "https://anilist.co/anime/1"));
                         (Js.lit "title",
                          JObject [ (Js.lit "english", JString (Js.lit "Naruto"));
                                    (Js.lit "native", JNull) ]) ] ]) ]) ]) ].

(** A scraped source with a title and a poster field. *)
Definition scrapedSite : Website :=
  {| url := Js.lit "https://example.org/search?keyword=";
     isRestAPI := None;
     query := None;
     variables := None;
     selectors :=
       Some [ (Js.lit "mainSelector", Js.lit ".items li");
              (Js.lit "title", Js.lit "p.name");
              (Js.lit "poster", Js.lit ".img img@src") ] |}.

(* ================================================================== *)
(** ** Vocabulary of the further properties *)
(* ================================================================== *)

(** The text a regular expression can match, whatever follows it. *)
Fixpoint lang (r : Re.regex) (m : Js.str) : Prop :=
  match r with
  | Re.Chr k => exists x, m = [x] /\ Re.accepts k x = true
  | Re.Many k => Forall (fun x => Re.accepts k x = true) m
  | Re.Cat r1 r2 => exists m1 m2, m = m1 ++ m2 /\ lang r1 m1 /\ lang r2 m2
  | Re.Or r1 r2 => lang r1 m \/ lang r2 m
  | Re.Empty => m = []
  | Re.AtEnd => m = []
  end.

(** A space followed by [B] or [b] occurs in [s]. *)
Fixpoint hasSpaceB (s : Js.str) : bool :=
  match s with
  | x :: ((y :: _) as s') =>
      ((x =? 32)%N && ((y =? 66)%N || (y =? 98)%N)) || hasSpaceB s'
  | _ => false
  end.

(** The six qualifier markers, in lower case. *)
Definition qualifiers : list Js.str :=
  List.map Js.lit
    ["(dub)"; "(sub)"; "(uncensored)"; "(uncut)"; "(subbed)"; "(dubbed)"]%string.

Definition allSpaces (s : Js.str) : bool := forallb (fun c => (c =? 32)%N) s.

(** [s] without the spaces at its end. *)
Fixpoint withoutSpacesAtEnd (s : Js.str) : Js.str :=
  match s with
  | [] => []
  | c :: s' => if allSpaces s then [] else c :: withoutSpacesAtEnd s'
  end.

(** The result that stands for "no match". *)
Definition noMatch : BestMatch :=
  {| mostCommonMatch := None;
     mostCommonMatchIndex := (-1)%Z;
     similarityScore := 0%Q |}.

(** The source title has a representation that is matched against the
    candidates: a non-empty string, or an object with a non-empty
    [english], [romaji] or [native]. *)
Definition hasRepresentation (sourceTitle : option Title) : bool :=
  match sourceTitle with
  | None => false
  | Some (Plain s) => truthy (Some s)
  | Some (Multi t) =>
      truthy (english t) || truthy (romaji t) || truthy (native t)
  end.

(** [sub] is [full] with some elements left out. *)
Inductive subsequence {A : Type} : list A -> list A -> Prop :=
| subsequence_nil : subsequence [] []
| subsequence_skip (x : A) (sub full : list A) :
    subsequence sub full -> subsequence sub (x :: full)
| subsequence_keep (x : A) (sub full : list A) :
    subsequence sub full -> subsequence (x :: sub) (x :: full).

(** A title whose representations vote for ordinary targets. *)
Definition narutoOrBleach : Title :=
  Multi {| english := Some (Js.lit "Naruto");
           romaji := Some (Js.lit "Bleach");
           native := Some (Js.lit "bleach (dub)") |}.

(** A document with two matched elements, named 1 and 2; only the first
    has the attribute asked for. *)
Definition twoItems (data : JsValue) (mainSelector : option Js.str)
  : result (list nat) := Ok [1; 2].

Definition itemAttr (element : nat) (selector attribute : Js.str)
  : option Js.str :=
  if element =? 1 then Some (Js.lit "/1.png") else None.

Definition itemText (element : nat) (selector : Js.str) : Js.str :=
  Js.lit " Naruto ".

(** [" POK\u00C9MON Journeys "] *)
Definition pokemon : Js.str :=
  Js.lit " POK" ++ 0xC9%N :: Js.lit "MON Journeys ".

(* ================================================================== *)
(** * Properties *)
(* ================================================================== *)

(** ** Strings *)

Lemma eqb_eq (a b : Js.str) : Js.eqb a b = true <-> a = b.
Proof.
  revert b; induction a as [|x a IH]; intros [|y b]; simpl;
    try (split; (reflexivity || discriminate)).
  rewrite andb_true_iff, N.eqb_eq, IH.
  split; [intros [-> ->]; reflexivity | intros H; injection H; auto].
Qed.

Lemma eqb_refl (a : Js.str) : Js.eqb a a = true.
Proof. apply eqb_eq; reflexivity. Qed.

Lemma eqb_neq (a b : Js.str) : Js.eqb a b = false <-> a <> b.
Proof.
  rewrite <- eqb_eq. destruct (Js.eqb a b); split; congruence.
Qed.

Lemma eqb_sym (a b : Js.str) : Js.eqb a b = Js.eqb b a.
Proof.
  destruct (Js.eqb a b) eqn:E.
  - apply eqb_eq in E; subst; symmetry; apply eqb_refl.
  - symmetry; apply eqb_neq; apply eqb_neq in E; congruence.
Qed.

Lemma lowerUnit_idem (c : N) : Js.lowerUnit (Js.lowerUnit c) = Js.lowerUnit c.
Proof.
  unfold Js.lowerUnit.
  destruct ((65 <=? c)%N && (c <=? 90)%N) eqn:E.
  - apply andb_true_iff in E; destruct E as [E1 E2].
    apply N.leb_le in E1, E2.
    destruct ((65 <=? c + 32)%N && (c + 32 <=? 90)%N) eqn:F; [|reflexivity].
    apply andb_true_iff in F; destruct F as [_ F]; apply N.leb_le in F; lia.
  - rewrite E; reflexivity.
Qed.

(** ** Code points and lower-casing *)

Unset Implicit Arguments.

Lemma str_ind2 (P : Js.str -> Prop) :
  P [] -> (forall c, P [c]) ->
  (forall h l s, P s -> P (l :: s) -> P (h :: l :: s)) ->
  forall s, P s.
Proof.
  intros H0 H1 H2 s.
  assert (H : P s /\ forall c, P (c :: s)).
  { induction s as [|x s [IH1 IH2]]; split; auto. }
  apply H.
Qed.

Lemma points_cons_cons (h l : N) (s : Js.str) :
  Js.points (h :: l :: s) =
  if Js.isHighSurrogate h && Js.isLowSurrogate l
  then Js.Pair h l :: Js.points s
  else Js.Single h :: Js.points (l :: s).
Proof. reflexivity. Qed.

(** Reading a string as code points loses nothing. *)
Lemma unitsOf_points (s : Js.str) : flat_map Js.unitsOf (Js.points s) = s.
Proof.
  induction s as [|c|h l s IH1 IH2] using str_ind2; [reflexivity..|].
  rewrite points_cons_cons.
  destruct (Js.isHighSurrogate h && Js.isLowSurrogate l);
    cbn [flat_map Js.unitsOf app]; congruence.
Qed.

(** The code units of a surrogate pair are the encoding of its code
    point. *)
Lemma codeUnits_codePoint (h l : N) :
  Js.isHighSurrogate h = true -> Js.isLowSurrogate l = true ->
  Js.codeUnits (Js.codePoint (Js.Pair h l)) = [h; l].
Proof.
  unfold Js.isHighSurrogate, Js.isLowSurrogate, Js.codeUnits, Js.codePoint.
  intros H L.
  apply andb_true_iff in H, L. destruct H as [H1 H2], L as [L1 L2].
  apply N.leb_le in H1, H2, L1, L2.
  destruct (N.ltb_spec (65536 + (h - 55296) * 1024 + (l - 56320)) 65536);
    [lia|].
  replace (65536 + (h - 55296) * 1024 + (l - 56320) - 65536)%N
    with ((l - 56320) + (h - 55296) * 1024)%N by lia.
  rewrite N.div_add by lia. rewrite N.Div0.mod_add.
  rewrite N.div_small, N.mod_small by lia.
  f_equal; [|f_equal]; lia.
Qed.

Lemma lowerUnit_above (c : N) : (90 < c)%N -> Js.lowerUnit c = c.
Proof.
  intros H. unfold Js.lowerUnit.
  destruct (N.leb_spec c 90); [lia|]. rewrite andb_false_r. reflexivity.
Qed.

Lemma lowerUnit_ascii (c : N) : (c < 128)%N -> (Js.lowerUnit c < 128)%N.
Proof.
  intros H. unfold Js.lowerUnit.
  destruct ((65 <=? c)%N && (c <=? 90)%N) eqn:E; [|assumption].
  apply andb_true_iff in E; destruct E as [_ E]. apply N.leb_le in E. lia.
Qed.

Lemma lowerUnit_exact (x c : N) :
  Js.lowerUnit x = c -> (c < 97 \/ 122 < c)%N -> x = c.
Proof.
  unfold Js.lowerUnit.
  destruct ((65 <=? x)%N && (x <=? 90)%N) eqn:E; [|auto].
  apply andb_true_iff in E. destruct E as [E1 E2].
  apply N.leb_le in E1, E2. lia.
Qed.

Lemma lowerCaseTable_ok : forallb entryOk Js.lowerCaseTable = true.
Proof. vm_compute. reflexivity. Qed.

Lemma lowerIn_entry (table : list (N * N * N * N)) (c : N) :
  Js.lowerIn table c = c \/
  exists first last step lower,
    In (first, last, step, lower) table /\
    (first <= c <= last)%N /\
    Js.lowerIn table c = (lower + (c - first))%N.
Proof.
  induction table as [|[[[first last] step] lower] table IH];
    [left; reflexivity|].
  cbn [Js.lowerIn].
  destruct ((first <=? c)%N && (c <=? last)%N) eqn:E.
  - destruct ((c - first) mod step =? 0)%N; [|left; reflexivity].
    right. exists first, last, step, lower.
    apply andb_true_iff in E. destruct E as [E1 E2].
    apply N.leb_le in E1, E2.
    split; [left; reflexivity|]. split; [lia|reflexivity].
  - destruct IH as [IH|(f & l & st & lo & I & R & H)]; [left; exact IH|].
    right. exists f, l, st, lo. split; [right; exact I|]. auto.
Qed.

(** The lower-case form of a code point [c] above U+007F that has one: it
    lies above [b], is not U+0130, and is in the same plane as [c]. *)
Lemma lowerIn_image (c : N) :
  Js.lowerIn Js.lowerCaseTable c = c \/
  ((128 <= c)%N /\
   (98 < Js.lowerIn Js.lowerCaseTable c)%N /\
   Js.lowerIn Js.lowerCaseTable c <> 304%N /\
   ((c < 65536)%N -> (Js.lowerIn Js.lowerCaseTable c < 65536)%N) /\
   ((65536 <= c)%N -> (65536 <= Js.lowerIn Js.lowerCaseTable c)%N)).
Proof.
  destruct (lowerIn_entry Js.lowerCaseTable c)
    as [H|(first & last & step & lower & I & R & H)]; [left; exact H|].
  right. rewrite H.
  pose proof lowerCaseTable_ok as T. rewrite forallb_forall in T.
  specialize (T _ I). unfold entryOk in T.
  apply andb_true_iff in T. destruct T as [T T5].
  apply andb_true_iff in T. destruct T as [T T4].
  apply andb_true_iff in T. destruct T as [T T3].
  apply andb_true_iff in T. destruct T as [T1 T2].
  apply N.leb_le in T1, T2. apply N.ltb_lt in T3.
  apply orb_true_iff in T4. apply orb_true_iff in T5.
  assert (P4 : (lower + (last - first) < 304 \/ 304 < lower)%N).
  { destruct T4 as [T4|T4]; apply N.ltb_lt in T4; auto. }
  assert (P5 : (last < 65536 /\ lower + (last - first) < 65536)%N \/
               (65536 <= first /\ 65536 <= lower)%N).
  { destruct T5 as [T5|T5]; apply andb_true_iff in T5; destruct T5 as [A B].
    - apply N.ltb_lt in A, B. auto.
    - apply N.leb_le in A, B. auto. }
  repeat split; lia.
Qed.

(** The code units [toLowerCase] writes for one code point: a first unit,
    which is at most [b] only for an ASCII code point, and at most one
    more unit, for U+0130 and for a surrogate pair. *)
Lemma lowerPoint_block (before after : list Js.point) (p : Js.point) :
  exists x more,
    Js.lowerPoint before after p = x :: more /\
    ((x <= 98)%N ->
     exists c, p = Js.Single c /\ (c < 128)%N /\ x = Js.lowerUnit c /\
               more = []) /\
    x <> 304%N /\
    Forall (fun y => (304 < y)%N) more /\
    List.length more =
      match p with
      | Js.Single c => if (c =? 304)%N then 1 else 0
      | Js.Pair _ _ => 1
      end.
Proof.
  destruct p as [c|h l]; unfold Js.lowerPoint.
  - destruct (N.ltb_spec c 128) as [A|A].
    { exists (Js.lowerUnit c), []. split; [reflexivity|].
      pose proof (lowerUnit_ascii c A).
      split; [intros _; exists c; auto|].
      split; [lia|]. split; [constructor|].
      destruct (N.eqb_spec c 304); [lia|reflexivity]. }
    destruct (N.eqb_spec c 304) as [B|B].
    { exists 105%N, [775%N]. split; [reflexivity|].
      split; [intros X; lia|]. split; [lia|].
      split; [repeat constructor|reflexivity]. }
    destruct (N.eqb_spec c 931) as [C|C].
    { eexists _, []. split; [reflexivity|].
      split; [intros X; destruct (Js.finalSigma before after); lia|].
      split; [destruct (Js.finalSigma before after); lia|].
      split; [constructor|reflexivity]. }
    exists (Js.lowerIn Js.lowerCaseTable c), []. split; [reflexivity|].
    destruct (lowerIn_image c) as [E|(_ & I1 & I2 & _)].
    + rewrite E. split; [intros X; lia|]. split; [assumption|].
      split; [constructor|reflexivity].
    + split; [intros X; lia|]. split; [assumption|].
      split; [constructor|reflexivity].
  - set (c := Js.codePoint (Js.Pair h l)).
    assert (A : (65536 <= c)%N) by (unfold c, Js.codePoint; lia).
    assert (B : (65536 <= Js.lowerIn Js.lowerCaseTable c)%N).
    { destruct (lowerIn_image c) as [E|(_ & _ & _ & _ & I)];
        [rewrite E; exact A | exact (I A)]. }
    unfold Js.codeUnits.
    destruct (N.ltb_spec (Js.lowerIn Js.lowerCaseTable c) 65536); [lia|].
    generalize ((Js.lowerIn Js.lowerCaseTable c - 65536) / 1024)%N
               ((Js.lowerIn Js.lowerCaseTable c - 65536) mod 1024)%N.
    intros q r. exists (55296 + q)%N, [(56320 + r)%N].
    split; [reflexivity|].
    split; [intros X; lia|]. split; [lia|].
    split; [constructor; [lia|constructor] | reflexivity].
Qed.

Lemma lowerPoints_Forall (P : N -> Prop) :
  (forall before after p, Forall P (Js.lowerPoint before after p)) ->
  forall ps before, Forall P (Js.lowerPoints before ps).
Proof.
  intros H. induction ps as [|p ps IH]; intros before; [constructor|].
  cbn [Js.lowerPoints]. apply Forall_app. split; [apply H | apply IH].
Qed.

(** The result of [toLowerCase] holds no upper-case ASCII letter. *)
Lemma toLowerCase_lowered (s : Js.str) : lowered (Js.toLowerCase s).
Proof.
  unfold lowered, Js.toLowerCase. apply lowerPoints_Forall.
  intros before after p.
  destruct (lowerPoint_block before after p) as (x & more & -> & A & _ & M & _).
  constructor.
  - destruct (N.leb_spec x 98) as [L|L].
    + destruct (A L) as (c & _ & _ & -> & _). apply lowerUnit_idem.
    + apply lowerUnit_above. lia.
  - eapply Forall_impl; [|exact M].
    intros y Y. cbv beta in Y. apply lowerUnit_above. lia.
Qed.

(** Nor U+0130. *)
Lemma toLowerCase_plain (s : Js.str) :
  Forall (fun c => c <> 304%N) (Js.toLowerCase s).
Proof.
  unfold Js.toLowerCase. apply lowerPoints_Forall.
  intros before after p.
  destruct (lowerPoint_block before after p) as (x & more & -> & _ & X & M & _).
  constructor; [exact X|].
  eapply Forall_impl; [|exact M]. intros y Y. cbv beta in Y. lia.
Qed.

Lemma dottedCapitals_cons (c : N) (s : Js.str) :
  dottedCapitals (c :: s) =
  (if (c =? 304)%N then 1 else 0) + dottedCapitals s.
Proof.
  unfold dottedCapitals. cbn [List.filter].
  rewrite (N.eqb_sym 304 c). destruct (c =? 304)%N; reflexivity.
Qed.

Lemma lowerPoints_length (s : Js.str) :
  forall before,
    List.length (Js.lowerPoints before (Js.points s)) =
    List.length s + dottedCapitals s.
Proof.
  induction s as [|c|h l s IH1 IH2] using str_ind2; intros before.
  - reflexivity.
  - cbn [Js.points Js.lowerPoints]. rewrite app_nil_r.
    destruct (lowerPoint_block before [] (Js.Single c))
      as (x & more & -> & _ & _ & _ & L).
    rewrite dottedCapitals_cons. cbn [List.length]. rewrite L.
    unfold dottedCapitals. cbn. lia.
  - rewrite points_cons_cons.
    destruct (Js.isHighSurrogate h && Js.isLowSurrogate l) eqn:E.
    + cbn [Js.lowerPoints]. rewrite length_app, IH1.
      destruct (lowerPoint_block before (Js.points s) (Js.Pair h l))
        as (x & more & -> & _ & _ & _ & L).
      cbn [List.length]. rewrite L, !dottedCapitals_cons.
      apply andb_true_iff in E. destruct E as [E1 E2].
      unfold Js.isHighSurrogate in E1. unfold Js.isLowSurrogate in E2.
      apply andb_true_iff in E1, E2. destruct E1 as [E1 _], E2 as [E2 _].
      apply N.leb_le in E1, E2.
      destruct (N.eqb_spec h 304); [lia|].
      destruct (N.eqb_spec l 304); [lia|]. lia.
    + cbn [Js.lowerPoints]. rewrite length_app, IH2.
      destruct (lowerPoint_block before (Js.points (l :: s)) (Js.Single h))
        as (x & more & -> & _ & _ & _ & L).
      cbn [List.length]. rewrite L, (dottedCapitals_cons h).
      destruct (h =? 304)%N; lia.
Qed.

(** Lower-casing keeps the length, except that every U+0130 becomes two
    code units. *)
Lemma toLowerCase_length (s : Js.str) :
  List.length (Js.toLowerCase s) = List.length s + dottedCapitals s.
Proof. apply lowerPoints_length. Qed.

Lemma dottedCapitals_none (s : Js.str) :
  Forall (fun c => c <> 304%N) s -> dottedCapitals s = 0.
Proof.
  induction 1 as [|c s C _ IH]; [reflexivity|].
  rewrite dottedCapitals_cons, IH.
  destruct (N.eqb_spec c 304); [contradiction|reflexivity].
Qed.

Lemma In_points (c : N) (s : Js.str) :
  In (Js.Single c) (Js.points s) -> In c s.
Proof.
  induction s as [|x|h l s IH1 IH2] using str_ind2.
  - intros [].
  - cbn. intros [[= ->]|[]]. auto.
  - rewrite points_cons_cons.
    destruct (Js.isHighSurrogate h && Js.isLowSurrogate l).
    + intros [E|I]; [discriminate|]. right. right. auto.
    + intros [[= ->]|I]; [left; reflexivity|]. right. auto.
Qed.

Lemma In_lowerPoints (y : N) :
  forall ps before,
    In y (Js.lowerPoints before ps) ->
    exists b a p, In p ps /\ In y (Js.lowerPoint b a p).
Proof.
  induction ps as [|p ps IH]; intros before I; [destruct I|].
  cbn [Js.lowerPoints] in I. apply in_app_or in I. destruct I as [I|I].
  - exists before, ps, p. split; [left; reflexivity | exact I].
  - destruct (IH _ I) as (b & a & q & Q & H).
    exists b, a, q. split; [right; exact Q | exact H].
Qed.

(** A code unit below [a] in the result was in the string: of the ASCII
    characters lower-casing brings in lower-case letters only. *)
Lemma toLowerCase_In (y : N) (t : Js.str) :
  (y < 97)%N -> In y (Js.toLowerCase t) -> In y t.
Proof.
  intros Y I. unfold Js.toLowerCase in I.
  destruct (In_lowerPoints _ _ _ I) as (b & a & p & P & H).
  destruct (lowerPoint_block b a p) as (x & more & E & A & _ & M & _).
  rewrite E in H. destruct H as [H|H].
  - subst y. destruct A as (c & -> & _ & X & _); [lia|].
    symmetry in X. apply lowerUnit_exact in X; [|lia]. subst c.
    apply In_points. exact P.
  - rewrite Forall_forall in M. specialize (M _ H). cbv beta in M. lia.
Qed.

Lemma toLowerCase_no_parenthesis (t : Js.str) :
  ~ In 40%N t -> ~ In 40%N (Js.toLowerCase t).
Proof. intros N I. apply N. apply toLowerCase_In; [lia | exact I]. Qed.

(** *** Lower-casing on both sides of a space *)

Lemma space_is_neutral :
  Js.isCaseIgnorable 32 = false /\ Js.isCased 32 = false.
Proof. split; vm_compute; reflexivity. Qed.

Lemma casedNext_space (ps qs : list Js.point) :
  Js.casedNext (ps ++ Js.Single 32 :: qs) = Js.casedNext ps.
Proof.
  induction ps as [|p ps IH].
  - cbn [app Js.casedNext Js.codePoint].
    rewrite (proj1 space_is_neutral). apply (proj2 space_is_neutral).
  - cbn [app Js.casedNext]. rewrite IH. reflexivity.
Qed.

Lemma lowerPoint_context (b b' a a' : list Js.point) (p : Js.point) :
  Js.casedNext b = Js.casedNext b' -> Js.casedNext a = Js.casedNext a' ->
  Js.lowerPoint b a p = Js.lowerPoint b' a' p.
Proof.
  intros B A. unfold Js.lowerPoint, Js.finalSigma. rewrite B, A. reflexivity.
Qed.

Lemma lowerPoints_behind_space (qs : list Js.point) :
  forall b x,
    Js.lowerPoints (b ++ Js.Single 32 :: x) qs = Js.lowerPoints b qs.
Proof.
  induction qs as [|q qs IH]; intros b x; [reflexivity|].
  cbn [Js.lowerPoints].
  rewrite (lowerPoint_context (b ++ Js.Single 32 :: x) b qs qs q
             (casedNext_space b x) eq_refl).
  pose proof (IH (q :: b) x) as E. cbn [app] in E. rewrite E. reflexivity.
Qed.

Lemma lowerPoints_space (ps qs : list Js.point) :
  forall b,
    Js.lowerPoints b (ps ++ Js.Single 32 :: qs) =
    Js.lowerPoints b ps ++ 32%N :: Js.lowerPoints [] qs.
Proof.
  induction ps as [|p ps IH]; intros b.
  - cbn [app Js.lowerPoints].
    pose proof (lowerPoints_behind_space qs [] b) as E. cbn [app] in E.
    rewrite E. reflexivity.
  - cbn [app Js.lowerPoints].
    rewrite (lowerPoint_context b b (ps ++ Js.Single 32 :: qs) ps p
               eq_refl (casedNext_space ps qs)).
    rewrite IH, <- app_assoc. reflexivity.
Qed.

Lemma points_space (m : Js.str) :
  Js.points (32%N :: m) = Js.Single 32 :: Js.points m.
Proof. destruct m; reflexivity. Qed.

Lemma points_app_space (p m : Js.str) :
  Js.points (p ++ 32%N :: m) = Js.points p ++ Js.Single 32 :: Js.points m.
Proof.
  induction p as [|c|h l s IH1 IH2] using str_ind2.
  - apply points_space.
  - cbn [app]. rewrite points_cons_cons.
    replace (Js.isLowSurrogate 32) with false by reflexivity.
    rewrite andb_false_r, points_space. reflexivity.
  - change ((h :: l :: s) ++ 32%N :: m) with (h :: l :: (s ++ 32%N :: m)).
    rewrite !points_cons_cons.
    destruct (Js.isHighSurrogate h && Js.isLowSurrogate l).
    + rewrite IH1. reflexivity.
    + change (l :: s ++ 32%N :: m) with ((l :: s) ++ 32%N :: m).
      rewrite IH2. reflexivity.
Qed.

(** A space separates what lower-casing looks at: neither a surrogate
    pair nor the context of a sigma reaches across it. *)
Lemma toLowerCase_space (p m : Js.str) :
  Js.toLowerCase (p ++ 32%N :: m) =
  Js.toLowerCase p ++ 32%N :: Js.toLowerCase m.
Proof.
  unfold Js.toLowerCase. rewrite points_app_space. apply lowerPoints_space.
Qed.

(** On ASCII text lower-casing is [A]..[Z] to [a]..[z], unit by unit. *)
Lemma toLowerCase_ascii (s : Js.str) :
  Forall (fun c => (c < 128)%N) s ->
  Js.toLowerCase s = List.map Js.lowerUnit s.
Proof.
  unfold Js.toLowerCase. generalize (@nil Js.point).
  induction s as [|c|h l s IH1 IH2] using str_ind2; intros before A.
  - reflexivity.
  - inversion A as [|? ? C _]; subst.
    cbn [Js.points Js.lowerPoints Js.lowerPoint List.map].
    apply N.ltb_lt in C. rewrite C. reflexivity.
  - inversion A as [|? ? C A']; subst.
    rewrite points_cons_cons.
    assert (H : Js.isHighSurrogate h = false).
    { unfold Js.isHighSurrogate. destruct (N.leb_spec 55296 h); [lia|].
      reflexivity. }
    rewrite H. cbn [andb Js.lowerPoints Js.lowerPoint].
    apply N.ltb_lt in C. rewrite C.
    rewrite (IH2 _ A'). reflexivity.
Qed.

(** Sample conversions: Latin-1 and Cyrillic capitals, U+0130, U+212A, a
    sigma inside and at the end of a word, a surrogate pair (U+10400) and
    a lone surrogate, kana. *)
Lemma toLowerCase_examples :
  Js.toLowerCase (Js.lit "POK" ++ 0xC9%N :: Js.lit "MON") =
    Js.lit "pok" ++ 0xE9%N :: Js.lit "mon" /\
  Js.toLowerCase [0x0416; 0x0423; 0x041A]%N = [0x0436; 0x0443; 0x043A]%N /\
  Js.toLowerCase [0x0130]%N = [0x0069; 0x0307]%N /\
  Js.toLowerCase [0x212A]%N = Js.lit "k" /\
  Js.toLowerCase [0x039F; 0x03A3; 0x039F; 0x03A3]%N =
    [0x03BF; 0x03C3; 0x03BF; 0x03C2]%N /\
  Js.toLowerCase [0xD801; 0xDC00; 0xD801]%N = [0xD801; 0xDC28; 0xD801]%N /\
  Js.toLowerCase [0x30B9; 0x30D1; 0x30A4]%N = [0x30B9; 0x30D1; 0x30A4]%N.
Proof. repeat split; vm_compute; reflexivity. Qed.

Set Implicit Arguments.

Lemma trimStart_suffix (s : Js.str) : exists w, s = w ++ Js.trimStart s.
Proof.
  induction s as [|c s [w IH]]; simpl.
  - exists []; reflexivity.
  - destruct (Js.isWhiteSpace c).
    + exists (c :: w); simpl; congruence.
    + exists []; reflexivity.
Qed.

Lemma trimEnd_prefix (s : Js.str) : exists w, s = Js.trimEnd s ++ w.
Proof.
  unfold Js.trimEnd.
  destruct (trimStart_suffix (rev s)) as [w H].
  exists (rev w).
  rewrite <- rev_app_distr, <- H, rev_involutive; reflexivity.
Qed.

Lemma trim_factor (s : Js.str) : exists u v, s = u ++ Js.trim s ++ v.
Proof.
  unfold Js.trim.
  destruct (trimStart_suffix s) as [u Hu].
  destruct (trimEnd_prefix (Js.trimStart s)) as [v Hv].
  exists u, v. rewrite <- Hv; exact Hu.
Qed.

Lemma trim_length (s : Js.str) : List.length (Js.trim s) <= List.length s.
Proof.
  destruct (trim_factor s) as (u & v & H).
  rewrite H at 2. rewrite !length_app; lia.
Qed.

Lemma trim_same_length (s : Js.str) :
  List.length (Js.trim s) = List.length s -> Js.trim s = s.
Proof.
  intros L. destruct (trim_factor s) as (u & v & H).
  assert (E : List.length s = List.length (u ++ Js.trim s ++ v)) by congruence.
  rewrite !length_app in E.
  destruct u; [|simpl in E; lia].
  destruct v; [|simpl in E; lia].
  simpl in H. rewrite app_nil_r in H. congruence.
Qed.

Lemma trim_lowered (s : Js.str) : lowered s -> lowered (Js.trim s).
Proof.
  unfold lowered. intros H. destruct (trim_factor s) as (u & v & E).
  rewrite E in H.
  apply Forall_app in H; destruct H as [_ H].
  apply Forall_app in H; tauto.
Qed.

Lemma firstn_lowered (n : nat) (s : Js.str) : lowered s -> lowered (firstn n s).
Proof.
  unfold lowered. intros H. rewrite <- (firstn_skipn n s) in H.
  apply Forall_app in H; tauto.
Qed.

Lemma trim_Forall (P : N -> Prop) (s : Js.str) :
  Forall P s -> Forall P (Js.trim s).
Proof.
  intros H. destruct (trim_factor s) as (u & v & E).
  rewrite E in H.
  apply Forall_app in H; destruct H as [_ H].
  apply Forall_app in H; tauto.
Qed.

Lemma firstn_Forall (P : N -> Prop) (n : nat) (s : Js.str) :
  Forall P s -> Forall P (firstn n s).
Proof.
  intros H. rewrite <- (firstn_skipn n s) in H.
  apply Forall_app in H; tauto.
Qed.

(** ** Regular expressions *)

Lemma run_sound (A : Type) (r : Re.regex) :
  forall (s : Js.str) (k : Js.str -> option A) (x : A),
    Re.run r s k = Some x ->
    exists m s', s = m ++ s' /\ minlen r <= List.length m /\ k s' = Some x.
Proof.
  induction r as [c|c|r1 IH1 r2 IH2|r1 IH1 r2 IH2| |]; intros s k x H.
  - destruct s as [|y s]; simpl in H; [discriminate|].
    destruct (Re.accepts c y); [|discriminate].
    exists [y], s; simpl; auto.
  - simpl in H. induction s as [|y s IHs].
    + exists [], []; simpl; auto.
    + destruct (Re.accepts c y).
      * match type of H with
        | match ?e with _ => _ end = _ => destruct e as [a|] eqn:E
        end.
        -- destruct (IHs H) as (m & s' & -> & _ & K).
           exists (y :: m), s'; simpl; repeat split; auto; lia.
        -- exists [], (y :: s); simpl; auto.
      * exists [], (y :: s); simpl; auto.
  - simpl in H.
    destruct (IH1 _ _ _ H) as (m1 & s1 & -> & L1 & K1).
    destruct (IH2 _ _ _ K1) as (m2 & s2 & -> & L2 & K2).
    exists (m1 ++ m2), s2. rewrite <- app_assoc, length_app.
    simpl; repeat split; auto; lia.
  - simpl in H. destruct (Re.run r1 s k) as [a|] eqn:E.
    + injection H as <-.
      destruct (IH1 _ _ _ E) as (m & s' & -> & L & K).
      exists m, s'; simpl; repeat split; auto; lia.
    + destruct (IH2 _ _ _ H) as (m & s' & -> & L & K).
      exists m, s'; simpl; repeat split; auto; lia.
  - exists [], s; simpl; auto.
  - destruct s; simpl in H; [|discriminate].
    exists [], []; simpl; auto.
Qed.

Lemma search_sound (r : Re.regex) :
  forall (s before p q : Js.str),
    Re.search r before s = Some (p, q) ->
    exists m, rev before ++ s = p ++ m ++ q /\ minlen r <= List.length m.
Proof.
  induction s as [|y s IH]; intros before p q H; simpl in H.
  - destruct (Re.run r [] (fun rest => Some rest)) as [rest|] eqn:E;
      [|discriminate].
    injection H as <- <-.
    destruct (run_sound _ _ _ E) as (m & s' & E' & L & K).
    injection K as ->. exists m. rewrite <- E'. auto.
  - destruct (Re.run r (y :: s) (fun rest => Some rest)) as [rest|] eqn:E.
    + injection H as <- <-.
      destruct (run_sound _ _ _ E) as (m & s' & E' & L & K).
      injection K as ->. exists m. rewrite <- E'. auto.
    + destruct (IH _ _ _ H) as (m & E' & L).
      exists m. simpl in E'. rewrite <- app_assoc in E'. simpl in E'. auto.
Qed.

Lemma remove_unmatched (r : Re.regex) (s : Js.str) :
  Re.matches r s = false -> Re.remove r s = s.
Proof.
  unfold Re.matches, Re.remove.
  destruct (Re.search r [] s) as [[p q]|]; [discriminate | reflexivity].
Qed.

Lemma remove_length (r : Re.regex) (s : Js.str) :
  List.length (Re.remove r s) <= List.length s.
Proof.
  unfold Re.remove.
  destruct (Re.search r [] s) as [[p q]|] eqn:E; [|lia].
  destruct (search_sound _ _ _ E) as (m & H & _). simpl in H.
  rewrite H, !length_app; lia.
Qed.

Lemma remove_matched (r : Re.regex) (s : Js.str) :
  0 < minlen r -> Re.matches r s = true ->
  List.length (Re.remove r s) < List.length s.
Proof.
  unfold Re.matches, Re.remove. intros M.
  destruct (Re.search r [] s) as [[p q]|] eqn:E; [intros _|discriminate].
  destruct (search_sound _ _ _ E) as (m & H & L). simpl in H.
  rewrite H, !length_app; lia.
Qed.

Lemma remove_lowered (r : Re.regex) (s : Js.str) :
  lowered s -> lowered (Re.remove r s).
Proof.
  unfold Re.remove, lowered. intros H.
  destruct (Re.search r [] s) as [[p q]|] eqn:E; [|assumption].
  destruct (search_sound _ _ _ E) as (m & E' & _). simpl in E'.
  rewrite E' in H.
  apply Forall_app in H; destruct H as [Hp H].
  apply Forall_app in H; destruct H as [_ Hq].
  apply Forall_app; auto.
Qed.

Lemma remove_Forall (P : N -> Prop) (r : Re.regex) (s : Js.str) :
  Forall P s -> Forall P (Re.remove r s).
Proof.
  unfold Re.remove. intros H.
  destruct (Re.search r [] s) as [[p q]|] eqn:E; [|assumption].
  destruct (search_sound _ _ _ E) as (m & E' & _). simpl in E'.
  rewrite E' in H.
  apply Forall_app in H; destruct H as [Hp H].
  apply Forall_app in H; destruct H as [_ Hq].
  apply Forall_app; auto.
Qed.

(** ** [sanitizeTitle] *)

Lemma Some_inj (A : Type) (x y : A) : Some x = Some y -> x = y.
Proof. congruence. Qed.

Lemma sanitizeTitle_nonempty (t : Js.str) :
  t <> [] ->
  sanitizeTitle (Some t) =
  Some (Js.substring0 99
          (Js.trim
             (Re.remove Re.bd
                (Re.remove Re.audio
                   (Re.remove Re.qualifier (Js.toLowerCase t)))))).
Proof. destruct t; [congruence | reflexivity]. Qed.

Lemma sanitizeTitle_lowered (t s : Js.str) :
  sanitizeTitle (Some t) = Some s -> lowered s /\ List.length s <= 99.
Proof.
  destruct t as [|c t]; [discriminate|].
  rewrite sanitizeTitle_nonempty by discriminate.
  intros H; apply Some_inj in H; subst s. split.
  - unfold Js.substring0. apply firstn_lowered.
    apply trim_lowered. repeat apply remove_lowered.
    apply (toLowerCase_lowered (c :: t)).
  - unfold Js.substring0. rewrite length_firstn. lia.
Qed.

(** A string of at most 99 code units is a fixed point of [sanitizeTitle]
    exactly when it is clean.  A fixed point holds no U+0130, since
    lower-casing writes none; lower-casing therefore keeps its length, and
    a pipeline that only removes must then have removed nothing. *)
Lemma sanitizeTitle_fixed_iff (s : Js.str) :
  List.length s <= 99 ->
  (sanitizeTitle (Some s) = Some s <-> clean s).
Proof.
  intros Hn. unfold clean. split.
  - intros H. destruct s as [|c s]; [discriminate|].
    split; [discriminate|].
    rewrite sanitizeTitle_nonempty in H by discriminate.
    apply Some_inj in H. unfold Js.substring0 in H.
    set (u := c :: s) in *.
    set (w := Js.toLowerCase u) in *.
    set (a := Re.remove Re.qualifier w) in *.
    set (b := Re.remove Re.audio a) in *.
    set (d := Re.remove Re.bd b) in *.
    assert (P : Forall (fun x => x <> 304%N) (firstn 99 (Js.trim d))).
    { apply firstn_Forall, trim_Forall.
      unfold d, b, a. repeat apply remove_Forall.
      apply toLowerCase_plain. }
    rewrite H in P.
    assert (Lw : List.length w = List.length u).
    { unfold w. rewrite toLowerCase_length, (dottedCapitals_none u P). lia. }
    assert (L : List.length w <= List.length (Js.trim d)).
    { rewrite Lw. rewrite <- H at 1. rewrite length_firstn; lia. }
    pose proof (trim_length d) as Ld.
    pose proof (remove_length Re.bd b) as Lb. fold d in Lb.
    pose proof (remove_length Re.audio a) as La. fold b in La.
    pose proof (remove_length Re.qualifier w) as Lu. fold a in Lu.
    assert (Mq : Re.matches Re.qualifier w = false).
    { destruct (Re.matches Re.qualifier w) eqn:M; [|reflexivity].
      apply remove_matched in M; [fold a in M; lia | simpl; lia]. }
    assert (Ea : a = w) by (apply remove_unmatched; exact Mq).
    assert (Ma : Re.matches Re.audio w = false).
    { destruct (Re.matches Re.audio w) eqn:M; [|reflexivity].
      apply remove_matched in M; [|simpl; lia].
      rewrite <- Ea in M at 1. fold b in M. lia. }
    assert (Eb : b = w).
    { unfold b. rewrite Ea. apply remove_unmatched; exact Ma. }
    assert (Mb : Re.matches Re.bd w = false).
    { destruct (Re.matches Re.bd w) eqn:M; [|reflexivity].
      apply remove_matched in M; [|simpl; lia].
      rewrite <- Eb in M at 1. fold d in M. lia. }
    assert (Ed : d = w).
    { unfold d. rewrite Eb. apply remove_unmatched; exact Mb. }
    assert (Et : Js.trim w = w).
    { apply trim_same_length. rewrite Ed in L, Ld. lia. }
    assert (Ew : w = u).
    { rewrite Ed, Et in H. rewrite firstn_all2 in H by lia. exact H. }
    assert (El : Js.toLowerCase u = u) by exact Ew.
    rewrite Ew in Mq, Ma, Mb, Et.
    repeat split; auto.
  - intros (Hne & Hl & Mq & Ma & Mb & Ht).
    rewrite sanitizeTitle_nonempty by assumption.
    rewrite Hl.
    rewrite (remove_unmatched _ _ Mq), (remove_unmatched _ _ Ma),
      (remove_unmatched _ _ Mb), Ht.
    unfold Js.substring0. rewrite firstn_all2; auto.
Qed.

(** ** Plain objects *)

Section ObjFacts.

Variable V : Type.

Lemma getOwn_setOwn_same (k : Js.str) (v : V) (o : Obj.t V) :
  Obj.getOwn k (Obj.setOwn k v o) = Some v.
Proof.
  induction o as [|[k' v'] o IH]; simpl.
  - rewrite eqb_refl; reflexivity.
  - destruct (Js.eqb k k') eqn:E; simpl; rewrite E; auto.
Qed.

Lemma getOwn_setOwn_other (k k' : Js.str) (v : V) (o : Obj.t V) :
  k' <> k -> Obj.getOwn k' (Obj.setOwn k v o) = Obj.getOwn k' o.
Proof.
  intros D. induction o as [|[k0 v0] o IH]; simpl.
  - apply eqb_neq in D. rewrite D. reflexivity.
  - destruct (Js.eqb k k0) eqn:E; simpl.
    + apply eqb_eq in E; subst k0.
      apply eqb_neq in D. rewrite D. reflexivity.
    + rewrite IH. reflexivity.
Qed.

Lemma getOwn_set_same (k : Js.str) (v : V) (o : Obj.t V) :
  k <> Js.lit "__proto__" -> Obj.getOwn k (Obj.set k v o) = Some v.
Proof.
  intros D. unfold Obj.set. apply eqb_neq in D. rewrite D.
  apply getOwn_setOwn_same.
Qed.

Lemma getOwn_set_other (k k' : Js.str) (v : V) (o : Obj.t V) :
  k' <> k -> Obj.getOwn k' (Obj.set k v o) = Obj.getOwn k' o.
Proof.
  intros D. unfold Obj.set.
  destruct (Js.eqb k (Js.lit "__proto__")); [reflexivity|].
  apply getOwn_setOwn_other; assumption.
Qed.

Lemma getOwn_set_proto (k : Js.str) (v : V) (o : Obj.t V) :
  Obj.getOwn (Js.lit "__proto__") o = None ->
  Obj.getOwn (Js.lit "__proto__") (Obj.set k v o) = None.
Proof.
  intros H. unfold Obj.set.
  destruct (Js.eqb k (Js.lit "__proto__")) eqn:E; [assumption|].
  rewrite getOwn_setOwn_other; [assumption|].
  apply eqb_neq in E. congruence.
Qed.

Lemma getOwn_In (k : Js.str) (v : V) (o : Obj.t V) :
  Obj.getOwn k o = Some v -> In (k, v) o.
Proof.
  induction o as [|[k' v'] o IH]; simpl; [discriminate|].
  destruct (Js.eqb k k') eqn:E.
  - apply eqb_eq in E; subst. intros [= ->]. auto.
  - auto.
Qed.

Lemma keys_setOwn (k k' : Js.str) (v : V) (o : Obj.t V) :
  In k' (List.map fst (Obj.setOwn k v o)) -> k' = k \/ In k' (List.map fst o).
Proof.
  induction o as [|[k0 v0] o IH]; simpl.
  - intros [<-|[]]; auto.
  - destruct (Js.eqb k k0) eqn:E; simpl.
    + tauto.
    + intros [<-|H]; auto. destruct (IH H); auto.
Qed.

Lemma NoDup_setOwn (k : Js.str) (v : V) (o : Obj.t V) :
  NoDup (List.map fst o) -> NoDup (List.map fst (Obj.setOwn k v o)).
Proof.
  induction o as [|[k0 v0] o IH]; simpl; intros H.
  - constructor; [simpl; tauto | constructor].
  - inversion H as [|? ? N1 N2]; subst.
    destruct (Js.eqb k k0) eqn:E; simpl.
    + constructor; assumption.
    + constructor; [|auto].
      intros C. apply keys_setOwn in C. destruct C as [->|C]; [|tauto].
      rewrite eqb_refl in E; discriminate.
Qed.

Lemma NoDup_set (k : Js.str) (v : V) (o : Obj.t V) :
  NoDup (List.map fst o) -> NoDup (List.map fst (Obj.set k v o)).
Proof.
  unfold Obj.set. destruct (Js.eqb k (Js.lit "__proto__")); auto using NoDup_setOwn.
Qed.

Lemma In_getOwn (k : Js.str) (v : V) (o : Obj.t V) :
  NoDup (List.map fst o) -> In (k, v) o -> Obj.getOwn k o = Some v.
Proof.
  induction o as [|[k0 v0] o IH]; simpl; [tauto|].
  intros H. inversion H as [|? ? N1 N2]; subst.
  intros [[= -> ->]|I].
  - rewrite eqb_refl; reflexivity.
  - destruct (Js.eqb k k0) eqn:E; [|auto].
    apply eqb_eq in E; subst k0. exfalso; apply N1.
    apply (in_map fst) in I. exact I.
Qed.

Lemma In_insertIndex (i : N) (p : Js.str * V) (q : N * (Js.str * V))
      (l : list (N * (Js.str * V))) :
  In q (Obj.insertIndex i p l) <-> q = (i, p) \/ In q l.
Proof.
  induction l as [|[j r] l IH]; simpl.
  - intuition congruence.
  - destruct (i <? j)%N; simpl; [intuition congruence|].
    rewrite IH. intuition congruence.
Qed.

Lemma In_indexed (p : Js.str * V) (o : Obj.t V) :
  In p (List.map snd (Obj.indexed o)) -> In p o.
Proof.
  induction o as [|[k v] o IH]; simpl; [tauto|].
  destruct (Obj.arrayIndex k) as [i|]; [|auto].
  intros H. apply in_map_iff in H. destruct H as ([j q] & E & H).
  simpl in E; subst q.
  apply In_insertIndex in H. destruct H as [[= _ ->]|H]; auto.
  right. apply IH. apply in_map_iff. exists (j, p); auto.
Qed.

Lemma In_entries (p : Js.str * V) (o : Obj.t V) :
  In p (Obj.entries o) -> In p o.
Proof.
  unfold Obj.entries, Obj.named. intros H.
  apply in_app_or in H. destruct H as [H|H].
  - apply In_indexed; assumption.
  - apply filter_In in H; tauto.
Qed.

End ObjFacts.

Lemma proto_inherited : Obj.inherited (Js.lit "__proto__") = true.
Proof. reflexivity. Qed.

(** ** The tally of [FindBestMatchByTitles] *)

Lemma lastScore_snoc (k : Js.str) (ms : list Match) (m : Match) :
  lastScore k (ms ++ [m]) =
  if Js.eqb k (target m) then Some (score m) else lastScore k ms.
Proof. unfold lastScore. rewrite fold_left_app. reflexivity. Qed.

Lemma lastScore_split (k : Js.str) (ms : list Match) :
  In k (List.map target ms) ->
  exists before m after,
    ms = before ++ m :: after /\ target m = k /\
    (forall m', In m' after -> target m' <> k) /\
    lastScore k ms = Some (score m).
Proof.
  induction ms as [|m ms IH] using rev_ind; simpl; [tauto|].
  intros H. rewrite lastScore_snoc.
  destruct (Js.eqb k (target m)) eqn:E.
  - apply eqb_eq in E. exists ms, m, []. simpl; intuition.
  - apply eqb_neq in E.
    rewrite map_app in H. apply in_app_or in H. simpl in H.
    destruct H as [H|[H|[]]]; [|congruence].
    destruct (IH H) as (b & m0 & a & -> & T0 & A & L).
    exists b, m0, (a ++ [m]). rewrite <- app_assoc. simpl.
    repeat split; auto.
    intros m' I. apply in_app_or in I. destruct I as [I|[<-|[]]]; auto.
Qed.

Lemma tally_snoc (rt : list (option Js.str)) (ms : list Match) (m : Match) :
  tally rt (ms ++ [m]) = record rt (tally rt ms) m.
Proof. unfold tally. rewrite fold_left_app. reflexivity. Qed.

Lemma tally_tallied (rt : list (option Js.str)) (ms : list Match) :
  tallied rt ms (tally rt ms).
Proof.
  induction ms as [|m ms IH] using rev_ind.
  - constructor; simpl; try discriminate; try tauto; constructor.
  - rewrite tally_snoc. destruct IH as [K F SP SL IV IF].
    set (t := tally rt ms) in *. set (k0 := target m).
    constructor; simpl; fold k0.
    + apply NoDup_set; assumption.
    + intros k f H. rewrite map_app; simpl; fold k0.
      destruct (Js.eqb k k0) eqn:E.
      * apply eqb_eq in E; subst k. split; [apply in_or_app; simpl; auto|].
        intros Hi. unfold Obj.set in H.
        destruct (Js.eqb k0 (Js.lit "__proto__")) eqn:P.
        -- destruct (F _ _ H) as [_ F']; auto.
        -- rewrite getOwn_setOwn_same in H. injection H as <-.
           unfold Obj.get. destruct (Obj.getOwn k0 (frequencyMap t)) as [f0|] eqn:G.
           ++ destruct (F _ _ G) as [_ F']. rewrite (F' Hi). reflexivity.
           ++ rewrite Hi. reflexivity.
      * apply eqb_neq in E. rewrite getOwn_set_other in H by assumption.
        destruct (F _ _ H) as [F1 F2]. split; [apply in_or_app; auto | auto].
    + apply getOwn_set_proto; assumption.
    + intros k D. rewrite lastScore_snoc; fold k0.
      destruct (Js.eqb k k0) eqn:E.
      * apply eqb_eq in E; subst k. apply getOwn_set_same; assumption.
      * apply eqb_neq in E. rewrite getOwn_set_other by assumption. auto.
    + intros k i. unfold Obj.get.
      destruct (Obj.getOwn k0 (indexMap t)) eqn:G; [apply IV|].
      destruct (Obj.inherited k0); [apply IV|].
      destruct (Js.eqb k k0) eqn:E.
      * apply eqb_eq in E; subst k. unfold Obj.set.
        destruct (Js.eqb k0 (Js.lit "__proto__")); [apply IV|].
        rewrite getOwn_setOwn_same. congruence.
      * apply eqb_neq in E. rewrite getOwn_set_other by assumption. apply IV.
    + intros k N I. rewrite map_app in I; simpl in I; fold k0 in I.
      unfold Obj.get.
      destruct (Js.eqb k k0) eqn:E.
      * apply eqb_eq in E; subst k.
        destruct (Obj.getOwn k0 (indexMap t)) eqn:G; [congruence|].
        rewrite N. rewrite getOwn_set_same; [discriminate|].
        intros C; rewrite C in N; discriminate.
      * apply eqb_neq in E.
        assert (I' : In k (List.map target ms)).
        { apply in_app_or in I. destruct I as [I|[I|[]]]; [assumption|].
          congruence. }
        destruct (Obj.getOwn k0 (indexMap t)) eqn:G; [auto|].
        destruct (Obj.inherited k0); [auto|].
        rewrite getOwn_set_other by assumption. auto.
Qed.

(** The selection loop returns a key whose own frequency is a positive
    count, together with the score stored under that key. *)
Lemma elect_fold (scores : Obj.t Q) (all : list (Js.str * frequency)) :
  forall (es : list (Js.str * frequency)) (l0 : Leader),
    (forall p, In p es -> In p all) ->
    (forall w, leader l0 = Some w ->
               In (w, Count (maxFrequency l0)) all /\ 0 < maxFrequency l0 /\
               leaderScore l0 = scoreAt w scores) ->
    let l := fold_left (consider scores) es l0 in
    forall w, leader l = Some w ->
              In (w, Count (maxFrequency l)) all /\ 0 < maxFrequency l /\
              leaderScore l = scoreAt w scores.
Proof.
  induction es as [|[k f] es IH]; intros l0 Sub H0; simpl; [assumption|].
  apply IH; [intros p I; apply Sub; simpl; auto|].
  unfold consider. destruct (exceeds f (maxFrequency l0)) eqn:X; [|assumption].
  simpl. intros w [= <-]. destruct f as [n|]; [|discriminate].
  simpl in X. apply Nat.ltb_lt in X.
  repeat split; [apply Sub; simpl; auto | lia].
Qed.

Lemma elect_spec (rt : list (option Js.str)) (ms : list Match) (w : Js.str) :
  leader (elect (tally rt ms)) = Some w ->
  Obj.inherited w = false /\
  In w (List.map target ms) /\
  (exists n, Obj.getOwn w (frequencyMap (tally rt ms)) = Some (Count n) /\ 0 < n) /\
  Some (leaderScore (elect (tally rt ms))) = lastScore w ms /\
  indexAt w (indexMap (tally rt ms)) = indexOf w rt.
Proof.
  intros L. pose proof (tally_tallied rt ms) as [K F SP SL IV IF].
  set (t := tally rt ms) in *.
  destruct (elect_fold (scoreMap t) (Obj.entries (frequencyMap t))
              (Obj.entries (frequencyMap t))
              {| leader := None; maxFrequency := 0; leaderScore := 0%Q |}
              (fun p I => I)) with (w := w) as (I & P & S).
  - simpl; discriminate.
  - exact L.
  - fold (elect t) in I, P, S.
    apply In_entries in I. apply In_getOwn in I; [|assumption].
    destruct (F _ _ I) as [F1 F2].
    assert (N : Obj.inherited w = false).
    { destruct (Obj.inherited w); [|reflexivity].
      specialize (F2 eq_refl); discriminate. }
    assert (D : w <> Js.lit "__proto__").
    { intros C; rewrite C in N; discriminate. }
    repeat split; auto.
    + eauto.
    + rewrite S. unfold scoreAt, Obj.get. rewrite (SL _ D).
      destruct (lastScore_split _ _ F1) as (b & m & a & _ & _ & _ & E).
      rewrite E. reflexivity.
    + unfold indexAt, Obj.get.
      destruct (Obj.getOwn w (indexMap t)) as [i|] eqn:G.
      * apply IV; assumption.
      * exfalso. apply (IF w N F1). assumption.
Qed.

(** ** The vote over ordinary keys *)

Lemma existsb_eqb_In (k : Js.str) (l : list Js.str) :
  existsb (Js.eqb k) l = true <-> In k l.
Proof.
  rewrite existsb_exists. split.
  - intros (x & I & E). apply eqb_eq in E. congruence.
  - intros I. exists k. split; [assumption | apply eqb_refl].
Qed.

Lemma firsts_snoc (ms : list Match) (m : Match) :
  firsts (ms ++ [m]) =
  if existsb (Js.eqb (target m)) (firsts ms)
  then firsts ms
  else firsts ms ++ [target m].
Proof. unfold firsts. rewrite fold_left_app. reflexivity. Qed.

Lemma count_snoc (k : Js.str) (ms : list Match) (m : Match) :
  count k (ms ++ [m]) =
  count k ms + (if Js.eqb k (target m) then 1 else 0).
Proof.
  unfold count. rewrite filter_app, length_app. simpl.
  destruct (Js.eqb k (target m)); reflexivity.
Qed.

Lemma firsts_In (ms : list Match) (k : Js.str) :
  In k (firsts ms) <-> In k (List.map target ms).
Proof.
  induction ms as [|m ms IH] using rev_ind; [simpl; tauto|].
  rewrite firsts_snoc, map_app, in_app_iff. simpl.
  destruct (existsb (Js.eqb (target m)) (firsts ms)) eqn:E.
  - apply existsb_eqb_In in E. rewrite IH. intuition (subst; tauto).
  - rewrite in_app_iff. simpl. rewrite IH. tauto.
Qed.

Lemma firsts_NoDup (ms : list Match) : NoDup (firsts ms).
Proof.
  induction ms as [|m ms IH] using rev_ind; [constructor|].
  rewrite firsts_snoc.
  destruct (existsb (Js.eqb (target m)) (firsts ms)) eqn:E; [assumption|].
  apply NoDup_app; [assumption | constructor; [simpl; tauto | constructor] |].
  intros k I [<-|[]]. apply existsb_eqb_In in I. congruence.
Qed.

Lemma count_absent (k : Js.str) (ms : list Match) :
  ~ In k (List.map target ms) -> count k ms = 0.
Proof.
  unfold count. induction ms as [|m ms IH]; simpl; [reflexivity|].
  intros H. destruct (Js.eqb k (target m)) eqn:E.
  - apply eqb_eq in E. exfalso. apply H. left. congruence.
  - apply IH. tauto.
Qed.

Lemma count_present (k : Js.str) (ms : list Match) :
  In k (List.map target ms) -> 0 < count k ms.
Proof.
  unfold count. induction ms as [|m ms IH]; simpl; [tauto|].
  intros [H|H].
  - subst k. rewrite eqb_refl. simpl. lia.
  - destruct (Js.eqb k (target m)); simpl; [lia | auto].
Qed.

Section Tabulate.

Variable V : Type.

Lemma getOwn_tabulate (f : Js.str -> V) (k : Js.str) (keys : list Js.str) :
  Obj.getOwn k (List.map (fun x => (x, f x)) keys) =
  if existsb (Js.eqb k) keys then Some (f k) else None.
Proof.
  induction keys as [|x keys IH]; simpl; [reflexivity|].
  destruct (Js.eqb k x) eqn:E; simpl; [|assumption].
  apply eqb_eq in E. congruence.
Qed.

Lemma setOwn_tabulate_present (f g : Js.str -> V) (k : Js.str) :
  forall keys : list Js.str,
    NoDup keys -> In k keys ->
    (forall x, x <> k -> g x = f x) ->
    Obj.setOwn k (g k) (List.map (fun x => (x, f x)) keys) =
    List.map (fun x => (x, g x)) keys.
Proof.
  induction keys as [|x keys IH]; intros N I G; simpl in *; [tauto|].
  inversion N as [|? ? N1 N2]; subst.
  destruct (Js.eqb k x) eqn:E.
  - apply eqb_eq in E; subst x. f_equal. apply map_ext_in.
    intros y Iy. rewrite G; [reflexivity | congruence].
  - apply eqb_neq in E. destruct I as [I|I]; [congruence|].
    rewrite IH by assumption. rewrite G by congruence. reflexivity.
Qed.

Lemma setOwn_tabulate_absent (f : Js.str -> V) (k : Js.str) (v : V) :
  forall keys : list Js.str,
    ~ In k keys ->
    Obj.setOwn k v (List.map (fun x => (x, f x)) keys) =
    List.map (fun x => (x, f x)) keys ++ [(k, v)].
Proof.
  induction keys as [|x keys IH]; intros N; simpl in *; [reflexivity|].
  destruct (Js.eqb k x) eqn:E.
  - apply eqb_eq in E. subst. tauto.
  - rewrite IH by tauto. reflexivity.
Qed.

Lemma entries_ordinary (o : Obj.t V) :
  (forall p, In p o -> Obj.arrayIndex (fst p) = None) -> Obj.entries o = o.
Proof.
  unfold Obj.entries, Obj.named. intros H.
  assert (I : Obj.indexed o = []).
  { induction o as [|[k v] o IH]; [reflexivity|].
    pose proof (H (k, v) (or_introl eq_refl)) as Hk. cbn [fst] in Hk.
    cbn [Obj.indexed]. rewrite Hk.
    apply IH. intros p Ip. apply H. right. assumption. }
  rewrite I. cbn [List.map app].
  induction o as [|[k v] o IH]; [reflexivity|].
  pose proof (H (k, v) (or_introl eq_refl)) as Hk. cbn [fst] in Hk.
  cbn [List.filter fst]. rewrite Hk. f_equal.
  apply IH.
  - intros p Ip. apply H. right. assumption.
  - cbn [Obj.indexed] in I. rewrite Hk in I. assumption.
Qed.

End Tabulate.

(** With targets that are not inherited names, [frequencyMap] holds the
    distinct targets in the order of their first occurrence, each with
    its number of occurrences. *)
Lemma tally_frequencyMap (rt : list (option Js.str)) (ms : list Match) :
  (forall m, In m ms -> Obj.inherited (target m) = false) ->
  frequencyMap (tally rt ms) =
  List.map (fun k => (k, Count (count k ms))) (firsts ms).
Proof.
  induction ms as [|m ms IH] using rev_ind; intros H; [reflexivity|].
  rewrite tally_snoc. cbn [record frequencyMap].
  rewrite IH by (intros m' I; apply H; apply in_or_app; auto).
  assert (N : Obj.inherited (target m) = false)
    by (apply H; apply in_or_app; simpl; auto).
  assert (P : Js.eqb (target m) (Js.lit "__proto__") = false).
  { apply eqb_neq. intros C. rewrite C in N. discriminate. }
  unfold Obj.set, Obj.get. rewrite P, getOwn_tabulate, firsts_snoc.
  destruct (existsb (Js.eqb (target m)) (firsts ms)) eqn:E.
  - cbn [increment].
    replace (Count (count (target m) ms + 1))
      with ((fun k => Count (count k (ms ++ [m]))) (target m))
      by (cbv beta; rewrite count_snoc, eqb_refl; reflexivity).
    apply (setOwn_tabulate_present
             (fun k => Count (count k ms))
             (fun k => Count (count k (ms ++ [m])))).
    + apply firsts_NoDup.
    + apply existsb_eqb_In; assumption.
    + intros x D. rewrite count_snoc. apply eqb_neq in D. rewrite D.
      rewrite Nat.add_0_r. reflexivity.
  - rewrite N. cbn [increment].
    rewrite setOwn_tabulate_absent
      by (intros C; apply existsb_eqb_In in C; congruence).
    rewrite map_app. cbn [List.map]. f_equal.
    + apply map_ext_in. intros x I. rewrite count_snoc.
      destruct (Js.eqb x (target m)) eqn:D;
        [|rewrite Nat.add_0_r; reflexivity].
      apply eqb_eq in D. subst x. apply existsb_eqb_In in I. congruence.
    + rewrite count_snoc, eqb_refl.
      rewrite (@count_absent (target m) ms); [reflexivity|].
      rewrite <- firsts_In. intros C. apply existsb_eqb_In in C. congruence.
Qed.

(** The selection loop stops at the first entry of maximal count. *)
Lemma elect_first_max (scores : Obj.t Q) :
  forall (es : list (Js.str * frequency)) (l0 : Leader),
    let l := fold_left (consider scores) es l0 in
    (leader l = leader l0 /\ maxFrequency l = maxFrequency l0 /\
     forall k c, In (k, Count c) es -> c <= maxFrequency l0) \/
    (exists b w a,
        es = b ++ (w, Count (maxFrequency l)) :: a /\
        leader l = Some w /\
        maxFrequency l0 < maxFrequency l /\
        (forall k c, In (k, Count c) b -> c < maxFrequency l) /\
        (forall k c, In (k, Count c) a -> c <= maxFrequency l)).
Proof.
  induction es as [|[k f] es IH]; intros l0; cbn zeta.
  - left. simpl. repeat split. tauto.
  - cbn [fold_left].
    assert (Skip : consider scores l0 (k, f) = l0 ->
                   (forall c, f = Count c -> c <= maxFrequency l0) ->
                   let l := fold_left (consider scores) es
                                      (consider scores l0 (k, f)) in
                   (leader l = leader l0 /\ maxFrequency l = maxFrequency l0 /\
                    forall k' c, In (k', Count c) ((k, f) :: es) ->
                                 c <= maxFrequency l0) \/
                   (exists b w a,
                       (k, f) :: es = b ++ (w, Count (maxFrequency l)) :: a /\
                       leader l = Some w /\
                       maxFrequency l0 < maxFrequency l /\
                       (forall k' c, In (k', Count c) b -> c < maxFrequency l) /\
                       (forall k' c, In (k', Count c) a -> c <= maxFrequency l))).
    { intros -> Le. cbn zeta.
      destruct (IH l0) as [(L & M & A)|(b & w & a & E & L & M & B & A)].
      - left. repeat split; auto.
        intros k' c' [[= _ Ef]|I]; [auto | eauto].
      - right. exists ((k, f) :: b), w, a.
        rewrite E at 1. repeat split; auto.
        intros k' c' [[= _ Ef]|I]; [|eauto].
        specialize (Le _ Ef). lia. }
    destruct f as [c|].
    + destruct (maxFrequency l0 <? c) eqn:X.
      * clear Skip. apply Nat.ltb_lt in X.
        assert (St : consider scores l0 (k, Count c) =
                     {| leader := Some k; maxFrequency := c;
                        leaderScore := scoreAt k scores |}).
        { unfold consider. simpl. apply Nat.ltb_lt in X. rewrite X. reflexivity. }
        rewrite St.
        destruct (IH {| leader := Some k; maxFrequency := c;
                        leaderScore := scoreAt k scores |})
          as [(L & M & A)|(b & w & a & E & L & M & B & A)]; simpl in *.
        -- right. exists [], k, es. rewrite L, M. simpl.
           repeat split; auto. tauto.
        -- right. exists ((k, Count c) :: b), w, a.
           rewrite E at 1. repeat split; auto; [lia|].
           intros k' c' [[= <- <-]|I]; [assumption | eauto].
      * apply Skip.
        -- unfold consider. simpl. rewrite X. reflexivity.
        -- intros c' [= <-]. apply Nat.ltb_ge in X. assumption.
    + apply Skip; [reflexivity | discriminate].
Qed.

Lemma firsts_split (w : Js.str) :
  forall (ms : list Match) (kb ka : list Js.str),
    firsts ms = kb ++ w :: ka ->
    exists before m after,
      ms = before ++ m :: after /\ target m = w /\
      forall m', In m' before -> In (target m') kb.
Proof.
  induction ms as [|m ms IH] using rev_ind; intros kb ka H.
  - destruct kb; discriminate.
  - rewrite firsts_snoc in H.
    destruct (existsb (Js.eqb (target m)) (firsts ms)) eqn:E.
    + destruct (IH _ _ H) as (b & m0 & a & -> & T0 & B).
      exists b, m0, (a ++ [m]). rewrite <- app_assoc. auto.
    + destruct ka as [|x ka] using rev_ind.
      * apply app_inj_tail in H. destruct H as [H1 H2].
        exists ms, m, []. repeat split; auto.
        intros m' I. rewrite <- H1. apply firsts_In. apply in_map. assumption.
      * clear IHka.
        change (kb ++ w :: ka ++ [x]) with (kb ++ (w :: ka) ++ [x]) in H.
        rewrite app_assoc in H.
        apply app_inj_tail in H. destruct H as [H1 H2].
        destruct (IH _ _ H1) as (b & m0 & a & -> & T0 & B).
        exists b, m0, (a ++ [m]). rewrite <- app_assoc. auto.
Qed.

(** When no tallied target is an array index or a name inherited from
    [Object.prototype], the winner has the highest number of occurrences
    and every target that occurs before the winner's first occurrence has
    strictly fewer. *)
Lemma highest_count_wins_among_ordinary_keys
      (rt : list (option Js.str)) (ms : list Match) :
  ms <> [] ->
  (forall m, In m ms -> ordinary (target m) = true) ->
  exists w before m after,
    leader (elect (tally rt ms)) = Some w /\
    ms = before ++ m :: after /\
    target m = w /\
    (forall m', In m' before -> count (target m') ms < count w ms) /\
    (forall m', In m' ms -> count (target m') ms <= count w ms).
Proof.
  intros NE O.
  assert (N : forall m, In m ms -> Obj.inherited (target m) = false).
  { intros m I. specialize (O m I). unfold ordinary in O.
    apply andb_true_iff in O. destruct O as [O _].
    apply negb_true_iff in O. assumption. }
  pose proof (@tally_frequencyMap rt ms N) as F.
  unfold elect. rewrite entries_ordinary; rewrite F.
  2:{ intros [k f] I. apply in_map_iff in I. destruct I as (x & [= <- <-] & I).
      apply firsts_In in I. apply in_map_iff in I. destruct I as (m & <- & I).
      specialize (O m I). unfold ordinary in O.
      apply andb_true_iff in O. destruct O as [_ O]. simpl.
      destruct (Obj.arrayIndex (target m)); [discriminate | reflexivity]. }
  set (es := List.map (fun k => (k, Count (count k ms))) (firsts ms)).
  set (l0 := {| leader := None; maxFrequency := 0; leaderScore := 0%Q |}).
  destruct (elect_first_max (scoreMap (tally rt ms)) es l0)
    as [(_ & _ & A)|(b & w & a & E & L & _ & B & A)].
  - exfalso. destruct ms as [|m ms']; [congruence|].
    assert (I : In (target m) (firsts (m :: ms')))
      by (apply firsts_In; simpl; auto).
    assert (P : 0 < count (target m) (m :: ms'))
      by (apply count_present; simpl; auto).
    specialize (A (target m) (count (target m) (m :: ms'))).
    simpl in A. assert (X : count (target m) (m :: ms') <= 0).
    { apply A. unfold es. apply in_map_iff. eauto. }
    lia.
  - set (n := maxFrequency (fold_left (consider (scoreMap (tally rt ms))) es l0)) in *.
    unfold es in E.
    assert (S : exists kb ka, firsts ms = kb ++ w :: ka /\
                              b = List.map (fun k => (k, Count (count k ms))) kb /\
                              a = List.map (fun k => (k, Count (count k ms))) ka /\
                              n = count w ms).
    { apply map_eq_app in E. destruct E as (kb & r & E1 & E2 & E3).
      apply map_eq_cons in E3. destruct E3 as (w' & ka & -> & [= -> E4] & E5).
      exists kb, ka. auto. }
    destruct S as (kb & ka & Fs & -> & -> & En).
    destruct (@firsts_split _ _ _ _ Fs) as (before & m & after & Ems & Tm & Bf).
    exists w, before, m, after. repeat split; auto.
    + intros m' I. rewrite <- En. apply (B (target m')).
      apply in_map_iff. exists (target m'). auto.
    + intros m' I. rewrite <- En.
      assert (If : In (target m') (firsts ms))
        by (apply firsts_In; apply in_map; assumption).
      rewrite Fs in If. apply in_app_or in If. destruct If as [If|[<-|If]].
      * apply Nat.lt_le_incl. apply (B (target m')).
        apply in_map_iff. exists (target m'). auto.
      * lia.
      * apply (A (target m')). apply in_map_iff. exists (target m'). auto.
Qed.

(** ** [findBestMatch] returns one of the candidates *)

Lemma bestFrom_target (m : Js.str) :
  forall (rest : list (option Js.str)) (b b' : StringSimilarity.bestMatch),
    StringSimilarity.bestFrom m b rest = Ok b' ->
    StringSimilarity.target b' = StringSimilarity.target b \/
    In (Some (StringSimilarity.target b')) rest.
Proof.
  induction rest as [|[t|] rest IH]; intros b b' H; simpl in H.
  - injection H as <-. auto.
  - apply IH in H. destruct H as [H|H]; [|simpl; auto].
    destruct (StringSimilarity.gt _ _); simpl in H; [|auto].
    right; left; congruence.
  - discriminate.
Qed.

Lemma findBestMatch_target (m : option Js.str) (rt : list (option Js.str))
      (b : StringSimilarity.bestMatch) :
  StringSimilarity.findBestMatch m rt = Ok b ->
  In (Some (StringSimilarity.target b)) rt.
Proof.
  unfold StringSimilarity.findBestMatch.
  destruct m as [m|]; [|discriminate].
  destruct rt as [|[t|] rest]; try discriminate.
  intros H. apply bestFrom_target in H. simpl in *.
  destruct H as [->|H]; auto.
Qed.

Lemma representation_targets (rep : option Js.str) (rt : list (option Js.str))
      (ms : list Match) :
  representation rep rt = Ok ms ->
  forall m, In m ms -> In (Some (target m)) rt.
Proof.
  unfold representation. destruct (truthy rep).
  - destruct (StringSimilarity.findBestMatch (sanitizeTitle rep) rt) as [b|] eqn:E;
      cbn [bind]; [|discriminate].
    intros [= <-] m [<-|[]]. cbn [target].
    eapply findBestMatch_target; eassumption.
  - intros [= <-] m [].
Qed.

Lemma matchesOf_targets (t : Title) (rt : list (option Js.str))
      (ms : list Match) :
  matchesOf t rt = Ok ms -> forall m, In m ms -> In (Some (target m)) rt.
Proof.
  destruct t as [s|t]; unfold matchesOf.
  - destruct (StringSimilarity.findBestMatch (sanitizeTitle (Some s)) rt)
      as [b|] eqn:E; cbn [bind]; [|discriminate].
    intros [= <-] m [<-|[]]. cbn [target].
    eapply findBestMatch_target; eassumption.
  - destruct (representation (english t) rt) as [e|] eqn:E; cbn [bind];
      [|discriminate].
    destruct (representation (romaji t) rt) as [r|] eqn:R; cbn [bind];
      [|discriminate].
    destruct (representation (native t) rt) as [n|] eqn:N; cbn [bind];
      [|discriminate].
    intros [= <-] m I.
    apply in_app_or in I. destruct I as [I|I];
      [exact (representation_targets _ _ E m I)|].
    apply in_app_or in I. destruct I as [I|I];
      [exact (representation_targets _ _ R m I)
      |exact (representation_targets _ _ N m I)].
Qed.

Lemma indexOfFrom_first (x : Js.str) :
  forall (l : list (option Js.str)) (i : Z),
    In (Some x) l ->
    exists n, indexOfFrom x l i = (i + Z.of_nat n)%Z /\
              nth_error l n = Some (Some x) /\
              forall j, j < n -> nth_error l j <> Some (Some x).
Proof.
  induction l as [|[y|] l IH]; intros i H; simpl in *; [tauto| |].
  - destruct (Js.eqb x y) eqn:E.
    + apply eqb_eq in E; subst y. exists 0. simpl.
      repeat split; [lia | intros j L; lia].
    + apply eqb_neq in E. destruct H as [H|H]; [congruence|].
      destruct (IH (i + 1)%Z H) as (n & E1 & E2 & E3).
      exists (S n). simpl. repeat split; [lia | assumption |].
      intros [|j] L; simpl; [congruence | apply E3; lia].
  - destruct H as [H|H]; [discriminate|].
    destruct (IH (i + 1)%Z H) as (n & E1 & E2 & E3).
    exists (S n). simpl. repeat split; [lia | assumption |].
    intros [|j] L; simpl; [discriminate | apply E3; lia].
Qed.

(** ** [FindBestMatchByTitles] *)

Lemma FindBestMatchByTitles_winner (T : Type) (sourceTitle : option Title)
      (results : list (Input T)) (r : BestMatch) (w : Js.str) :
  FindBestMatchByTitles sourceTitle results = Ok r ->
  mostCommonMatch r = Some w ->
  exists t rt ms,
    sourceTitle = Some t /\
    resultTitlesOf results = Ok rt /\
    matchesOf t rt = Ok ms /\
    r = decide (tally rt ms).
Proof.
  unfold FindBestMatchByTitles.
  destruct sourceTitle as [t|]; [|intros [= <-]; discriminate].
  destruct (truthyTitle (Some t)); [|intros [= <-]; discriminate].
  destruct (resultTitlesOf results) as [rt|]; cbn [bind]; [|discriminate].
  destruct (matchesOf t rt) as [ms|] eqn:M; cbn [bind]; [|discriminate].
  intros [= <-] _. exists t, rt, ms. auto.
Qed.

(** For a truthy source title whose matches all have ordinary targets,
    [FindBestMatchByTitles] returns the target with the highest number of
    occurrences, the earliest one among those of equal count. *)
Lemma FindBestMatchByTitles_ordinary_keys
      (T : Type) (t : Title) (results : list (Input T))
      (rt : list (option Js.str)) (ms : list Match) :
  truthyTitle (Some t) = true ->
  resultTitlesOf results = Ok rt ->
  matchesOf t rt = Ok ms ->
  ms <> [] ->
  (forall m, In m ms -> ordinary (target m) = true) ->
  exists r w before m after,
    FindBestMatchByTitles (Some t) results = Ok r /\
    mostCommonMatch r = Some w /\
    ms = before ++ m :: after /\
    target m = w /\
    (forall m', In m' before -> count (target m') ms < count w ms) /\
    (forall m', In m' ms -> count (target m') ms <= count w ms).
Proof.
  intros Tt R M NE O.
  destruct (highest_count_wins_among_ordinary_keys rt NE O)
    as (w & b & m & a & L & E & Tm & B & A).
  exists (decide (tally rt ms)), w, b, m, a.
  repeat split; auto.
  unfold FindBestMatchByTitles. rewrite Tt, R. cbn [bind]. rewrite M.
  reflexivity.
Qed.

Lemma resultTitlesOf_all_defined (T : Type) :
  forall (results : list (Input T)) (rt : list (option Js.str)),
    resultTitlesOf results = Ok rt ->
    Forall (fun e => title e <> None) results ->
    rt = List.map sanitizedTitleOf results.
Proof.
  unfold resultTitlesOf.
  induction results as [|e results IH]; intros rt H A; simpl in *.
  - injection H as <-. reflexivity.
  - inversion A as [|? ? A1 A2]; subst.
    unfold sanitizedTitleOf at 1.
    destruct (title e) as [[s|t]|]; simpl in H; [|discriminate|congruence].
    destruct (mapM sanitizeCandidate (defined (List.map title results)))
      as [rt'|]; simpl in H; [|discriminate].
    injection H as <-. f_equal. apply IH; auto.
Qed.

(** ** Inputs of the examples *)

(** ** C1 *)

(** C1, as stated, fails: for [{english: "One Piece", romaji: "Wan Pisu"}]
    against the single candidate ["One Piece"] both representations vote
    for ["one piece"], the first with score 1 and the second with score
    2/13, and the reported score is 2/13, not the score of the first
    occurrence. *)
Lemma score_is_not_first_occurrence :
  matchesOf (Multi onePiece) [Some (Js.lit "one piece")] =
    Ok [ {| target := Js.lit "one piece"; score := 1 |};
         {| target := Js.lit "one piece"; score := 2 # 13 |} ] /\
  FindBestMatchByTitles (Some (Multi onePiece)) [titled "One Piece"] =
    Ok {| mostCommonMatch := Some (Js.lit "one piece");
          mostCommonMatchIndex := 0;
          similarityScore := 2 # 13 |} /\
  ~ (2 # 13 == 1)%Q.
Proof.
  split; [vm_compute; reflexivity|].
  split; [vm_compute; reflexivity|].
  intros H. vm_compute in H. discriminate.
Qed.

(** C1 (amended): for every multi-representation source title for which
    [FindBestMatchByTitles] reports a winner, the reported similarity score
    is the score recorded at the winner's last occurrence in the sequence
    of matches pushed for english, romaji and native: every later write to
    [scoreMap] under the same target replaces the earlier one. *)
Theorem winner_score_is_last_occurrence
        (T : Type) (t : Titles) (results : list (Input T))
        (r : BestMatch) (w : Js.str) :
  FindBestMatchByTitles (Some (Multi t)) results = Ok r ->
  mostCommonMatch r = Some w ->
  exists resultTitles matches before m after,
    resultTitlesOf results = Ok resultTitles /\
    matchesOf (Multi t) resultTitles = Ok matches /\
    matches = before ++ m :: after /\
    target m = w /\
    (forall m', In m' after -> target m' <> w) /\
    similarityScore r = score m.
Proof.
  intros H W.
  destruct (FindBestMatchByTitles_winner _ _ H W) as (t' & rt & ms & E & R & M & D).
  injection E as <-. subst r. simpl in W.
  destruct (@elect_spec _ _ _ W) as (_ & I & _ & S & _).
  destruct (lastScore_split _ _ I) as (b & m & a & Ems & Tm & A & L).
  exists rt, ms, b, m, a. repeat split; auto.
  simpl. rewrite L in S. congruence.
Qed.

Lemma winner_score_is_last_occurrence_witness :
  FindBestMatchByTitles (Some (Multi onePiece)) [titled "One Piece"] =
    Ok {| mostCommonMatch := Some (Js.lit "one piece");
          mostCommonMatchIndex := 0;
          similarityScore := 2 # 13 |} /\
  exists resultTitles matches before m after,
    resultTitlesOf [titled "One Piece"] = Ok resultTitles /\
    matchesOf (Multi onePiece) resultTitles = Ok matches /\
    matches = before ++ m :: after /\
    target m = Js.lit "one piece" /\
    (forall m', In m' after -> target m' <> Js.lit "one piece") /\
    (2 # 13)%Q = score m.
Proof.
  split; [vm_compute; reflexivity|].
  apply (@winner_score_is_last_occurrence unit onePiece [titled "One Piece"]
           {| mostCommonMatch := Some (Js.lit "one piece");
              mostCommonMatchIndex := 0;
              similarityScore := 2 # 13 |}
           (Js.lit "one piece")).
  - vm_compute; reflexivity.
  - reflexivity.
Defined.

(** ** C2 *)

(** C2, as stated, fails: the only candidate is the best match of each of
    the three representations, so it is tallied three times, and the
    score reported is the one written last, the rating 0 of the native
    representation. *)
Lemma spy_family_not_one_vote_score_one :
  ~ (votes spyTitle [titled "Spy x Family"] =
       Ok [(Js.lit "spy x family", Count 1)] /\
     exists r, FindBestMatchByTitles (Some spyTitle) [titled "Spy x Family"] = Ok r /\
               (similarityScore r == 1)%Q).
Proof.
  intros [V _]. vm_compute in V. discriminate.
Qed.

(** C2 (amended): matching [{english: "Spy x Family", romaji: "Spy Family",
    native: "スパイファミリー"}] against the single candidate
    ["Spy x Family"] returns that candidate as the winner (normalised
    title ["spy x family"], index 0) with vote count 3 and similarity
    score 0; the three recorded scores are 1, 14/17 and 0. *)
Theorem spy_family_three_votes_score_zero :
  FindBestMatchByTitles (Some spyTitle) [titled "Spy x Family"] =
    Ok {| mostCommonMatch := Some (Js.lit "spy x family");
          mostCommonMatchIndex := 0;
          similarityScore := 0 |} /\
  votes spyTitle [titled "Spy x Family"] =
    Ok [(Js.lit "spy x family", Count 3)] /\
  matchesOf spyTitle [Some (Js.lit "spy x family")] =
    Ok [ {| target := Js.lit "spy x family"; score := 1 |};
         {| target := Js.lit "spy x family"; score := 14 # 17 |};
         {| target := Js.lit "spy x family"; score := 0 |} ].
Proof.
  repeat split; vm_compute; reflexivity.
Qed.

(** ** C3 *)

(** C3, as stated, fails: each pattern is removed once, so a second pass
    strips the marker the first pass left behind. *)
Lemma sanitizeTitle_not_idempotent :
  sanitizeTitle (Some (Js.lit "a (dub) (dub)")) = Some (Js.lit "a (dub)") /\
  sanitizeTitle (Some (Js.lit "a (dub)")) = Some (Js.lit "a") /\
  sanitizeTitle (sanitizeTitle (Some (Js.lit "a (dub) (dub)"))) <>
  sanitizeTitle (Some (Js.lit "a (dub) (dub)")).
Proof.
  split; [vm_compute; reflexivity|].
  split; [vm_compute; reflexivity|].
  vm_compute. discriminate.
Qed.

(** C3 (amended): applying [sanitizeTitle] twice yields the same result as
    applying it once exactly when the first result is [undefined] or is a
    non-empty string that is its own lower-case form, in which none of the
    three patterns matches any more and which has no leading or trailing
    whitespace. *)
Theorem sanitizeTitle_idempotent_iff_clean (t : option Js.str) :
  sanitizeTitle (sanitizeTitle t) = sanitizeTitle t <->
  match sanitizeTitle t with
  | Some s => clean s
  | None => True
  end.
Proof.
  destruct (sanitizeTitle t) as [s|] eqn:E.
  - destruct t as [t|]; [|discriminate].
    destruct (sanitizeTitle_lowered _ E) as [L N].
    apply sanitizeTitle_fixed_iff; assumption.
  - simpl. tauto.
Qed.

(** The markers are removed after the lower-casing, and removing one can
    bring two surrogates together: a first result need not be its own
    lower-case form.  Here the halves of U+10400 stand on the two sides of
    a marker; the first pass joins them, the second pass lower-cases the
    pair to U+10428. *)
Lemma sanitizeTitle_joins_surrogates :
  sanitizeTitle (Some (0xD801%N :: Js.lit "(dub)" ++ [0xDC00%N])) =
    Some [0xD801%N; 0xDC00%N] /\
  sanitizeTitle (Some [0xD801%N; 0xDC00%N]) = Some [0xD801%N; 0xDC28%N] /\
  ~ clean [0xD801%N; 0xDC00%N].
Proof.
  split; [vm_compute; reflexivity|].
  split; [vm_compute; reflexivity|].
  intros (_ & L & _). vm_compute in L. discriminate L.
Qed.

(** A title without marker: one pass and two passes agree. *)
Lemma sanitizeTitle_idempotent_on_clean_title :
  sanitizeTitle (Some (Js.lit "Attack on Titan (Dub)")) =
    Some (Js.lit "attack on titan") /\
  clean (Js.lit "attack on titan") /\
  sanitizeTitle (sanitizeTitle (Some (Js.lit "Attack on Titan (Dub)"))) =
    sanitizeTitle (Some (Js.lit "Attack on Titan (Dub)")).
Proof.
  split; [vm_compute; reflexivity|].
  split; [|vm_compute; reflexivity].
  unfold clean. repeat split; try (vm_compute; reflexivity).
  vm_compute; discriminate.
Qed.

(** ** C4 *)

(** C4 at [{english: "Naruto", romaji: "86"}] against the candidates
    ["Naruto"] and ["86"]: each target is tallied once, [Object.entries]
    lists the array-index key ["86"] before ["naruto"], and the winner is
    the match of the romaji representation. *)
Theorem tie_goes_to_array_index_key :
  matchesOf narutoOr86 [Some (Js.lit "naruto"); Some (Js.lit "86")] =
    Ok [ {| target := Js.lit "naruto"; score := 1 |};
         {| target := Js.lit "86"; score := 1 |} ] /\
  votes narutoOr86 [titled "Naruto"; titled "86"] =
    Ok [(Js.lit "naruto", Count 1); (Js.lit "86", Count 1)] /\
  FindBestMatchByTitles (Some narutoOr86) [titled "Naruto"; titled "86"] =
    Ok {| mostCommonMatch := Some (Js.lit "86");
          mostCommonMatchIndex := 1;
          similarityScore := 1 |}.
Proof.
  repeat split; vm_compute; reflexivity.
Qed.

(** ** C8 *)

(** C8, as stated, fails when the winning target is the empty string: the
    only candidate, ["(dub)"], has a defined title that normalises to the empty string,
    it wins, and the guard on the winner reports index -1 although
    position 0 holds the winning target. *)
Lemma empty_winner_has_no_index :
  sanitizedTitleOf (titled "(dub)") = Some [] /\
  FindBestMatchByTitles (Some (Plain (Js.lit "x"))) [titled "(dub)"] =
    Ok {| mostCommonMatch := Some [];
          mostCommonMatchIndex := -1;
          similarityScore := 0 |}.
Proof.
  split; vm_compute; reflexivity.
Qed.

(** C8 (amended): whenever [FindBestMatchByTitles] reports a non-empty
    winning target, the returned index is the first position of that
    target in the list of normalised titles computed after the entries
    with an undefined title have been filtered out.  When every entry's
    title is defined this is the first position in the original candidate
    list whose normalised title equals the winner.  An empty winning
    target is reported with index -1.  When some titles are undefined the
    index can point at another entry of the original list: for
    [untitled; "Bleach"; "Naruto"] and the title ["Naruto"] the index is
    1, where the original list holds ["Bleach"]. *)
Theorem index_is_position_among_defined_titles :
  (forall (T : Type) (sourceTitle : option Title) (results : list (Input T))
          (r : BestMatch) (w : Js.str),
      FindBestMatchByTitles sourceTitle results = Ok r ->
      mostCommonMatch r = Some w ->
      w <> [] ->
      exists resultTitles i,
        resultTitlesOf results = Ok resultTitles /\
        mostCommonMatchIndex r = Z.of_nat i /\
        nth_error resultTitles i = Some (Some w) /\
        (forall j, j < i -> nth_error resultTitles j <> Some (Some w)) /\
        (Forall (fun e => title e <> None) results ->
         (exists e, nth_error results i = Some e /\
                    sanitizedTitleOf e = Some w) /\
         (forall j e, j < i -> nth_error results j = Some e ->
                      sanitizedTitleOf e <> Some w))) /\
  (forall (T : Type) (sourceTitle : option Title) (results : list (Input T))
          (r : BestMatch),
      FindBestMatchByTitles sourceTitle results = Ok r ->
      mostCommonMatch r = Some [] ->
      mostCommonMatchIndex r = (-1)%Z) /\
  (FindBestMatchByTitles (Some (Plain (Js.lit "Naruto")))
                         [untitled; titled "Bleach"; titled "Naruto"] =
     Ok {| mostCommonMatch := Some (Js.lit "naruto");
           mostCommonMatchIndex := 1;
           similarityScore := 1 |} /\
   nth_error [untitled; titled "Bleach"; titled "Naruto"] 1 =
     Some (titled "Bleach")).
Proof.
  split; [|split; [|split; vm_compute; reflexivity]].
  2:{ intros T sourceTitle results r H W.
      destruct (FindBestMatchByTitles_winner _ _ H W)
        as (t & rt & ms & _ & _ & _ & ->).
      simpl in *. rewrite W. reflexivity. }
  intros T sourceTitle results r w H W NE.
  destruct (FindBestMatchByTitles_winner _ _ H W) as (t & rt & ms & -> & R & M & ->).
  simpl in W.
  destruct (@elect_spec _ _ _ W) as (_ & I & _ & _ & X).
  apply in_map_iff in I. destruct I as (m & Tm & I).
  pose proof (matchesOf_targets _ _ M m I) as Irt. rewrite Tm in Irt.
  destruct (indexOfFrom_first w rt 0%Z Irt) as (i & E1 & E2 & E3).
  exists rt, i. split; [assumption|]. split.
  - simpl. rewrite W. destruct w; [congruence|]. simpl.
    rewrite X. exact E1.
  - split; [assumption|]. split; [assumption|].
    intros A. rewrite (@resultTitlesOf_all_defined _ _ _ R A) in E2, E3.
    split.
    + rewrite nth_error_map in E2.
      destruct (nth_error results i) as [e|]; [|discriminate].
      exists e. split; [reflexivity|]. simpl in E2. congruence.
    + intros j e L N C. apply (E3 j L).
      rewrite nth_error_map, N. simpl. congruence.
Qed.

Lemma index_is_position_among_defined_titles_witness :
  FindBestMatchByTitles (Some (Plain (Js.lit "Attack on Titan")))
    [titled "Naruto"; titled "Attack on Titan"; titled "attack on titan (dub)"] =
    Ok {| mostCommonMatch := Some (Js.lit "attack on titan");
          mostCommonMatchIndex := 1;
          similarityScore := 1 |} /\
  Js.lit "attack on titan" <> [] /\
  exists resultTitles i,
    resultTitlesOf
      [titled "Naruto"; titled "Attack on Titan"; titled "attack on titan (dub)"] =
      Ok resultTitles /\
    1%Z = Z.of_nat i /\
    nth_error resultTitles i = Some (Some (Js.lit "attack on titan")) /\
    (forall j, j < i ->
               nth_error resultTitles j <> Some (Some (Js.lit "attack on titan"))) /\
    (Forall (fun e => title e <> None)
            [titled "Naruto"; titled "Attack on Titan";
             titled "attack on titan (dub)"] ->
     (exists e,
         nth_error [titled "Naruto"; titled "Attack on Titan";
                    titled "attack on titan (dub)"] i = Some e /\
         sanitizedTitleOf e = Some (Js.lit "attack on titan")) /\
     (forall j e, j < i ->
                  nth_error [titled "Naruto"; titled "Attack on Titan";
                             titled "attack on titan (dub)"] j = Some e ->
                  sanitizedTitleOf e <> Some (Js.lit "attack on titan"))).
Proof.
  split; [vm_compute; reflexivity|].
  split; [vm_compute; discriminate|].
  apply (proj1 index_is_position_among_defined_titles unit
               (Some (Plain (Js.lit "Attack on Titan")))
               [titled "Naruto"; titled "Attack on Titan";
                titled "attack on titan (dub)"]
               {| mostCommonMatch := Some (Js.lit "attack on titan");
                  mostCommonMatchIndex := 1;
                  similarityScore := 1 |}
               (Js.lit "attack on titan")).
  - vm_compute; reflexivity.
  - reflexivity.
  - vm_compute; discriminate.
Defined.

(** ** [mapTitles] *)

Section MapTitlesFacts.

Variable T : Type.

Lemma eachSource_spec (baseTitle : option Title) :
  forall (others : list (list (Input T))) (i : nat)
         (matches matches' : Matches T) (low low' : JsNumber),
    eachSource baseTitle i others matches low = Ok (matches', low') ->
    exists rs,
      Forall2 (fun otherData r =>
                 FindBestMatchByTitles baseTitle otherData = Ok r)
              others rs /\
      matches' = matches ++ List.map fst (recordedFrom i others rs) /\
      low' = fold_left Math_min (List.map snd (recordedFrom i others rs)) low.
Proof.
  induction others as [|od others IH]; intros i matches matches' low low' H.
  - simpl in H. injection H as <- <-. exists []. simpl.
    rewrite app_nil_r. auto.
  - cbn [eachSource] in H.
    destruct (FindBestMatchByTitles baseTitle od) as [r|] eqn:E;
      cbn [bind] in H; [|discriminate].
    destruct (mostCommonMatchIndex r =? -1)%Z eqn:X; cbn [negb] in H;
      apply IH in H; destruct H as (rs & F & -> & ->);
      exists (r :: rs); (split; [constructor; assumption|]);
      cbn [recordedFrom]; rewrite X; [auto|].
    cbn [List.map fst snd fold_left]. rewrite <- app_assoc. auto.
Qed.

Lemma gt_lt (a b : Q) : StringSimilarity.gt a b = true <-> (b < a)%Q.
Proof.
  unfold StringSimilarity.gt. rewrite (Qgt_alt a b).
  destruct (a ?= b)%Q; split; congruence.
Qed.

Lemma fold_min_from (l : list Q) :
  forall q0, exists q,
      fold_left Math_min l (Num q0) = Num q /\
      (q = q0 \/ In q l) /\ (q <= q0)%Q /\
      forall x, In x l -> (q <= x)%Q.
Proof.
  induction l as [|x l IH]; intros q0; simpl.
  - exists q0. repeat split; auto; [apply Qle_refl | tauto].
  - destruct (StringSimilarity.gt q0 x) eqn:G.
    + apply gt_lt in G.
      destruct (IH x) as (q & E & M & L & A).
      exists q. repeat split; auto.
      * destruct M; auto.
      * apply Qle_trans with x; [assumption | apply Qlt_le_weak; assumption].
      * intros y [<-|I]; auto.
    + assert (L0 : (q0 <= x)%Q).
      { apply Qnot_lt_le. intros C. apply gt_lt in C. congruence. }
      destruct (IH q0) as (q & E & M & L & A).
      exists q. repeat split; auto.
      * destruct M; auto.
      * intros y [<-|I]; auto. apply Qle_trans with q0; assumption.
Qed.

Lemma fold_min_nonempty (l : list Q) :
  l <> [] -> exists q, fold_left Math_min l Infinity = Num q /\ minimumOf q l.
Proof.
  destruct l as [|x l]; [congruence|]. intros _. simpl.
  destruct (fold_min_from l x) as (q & E & M & L & A).
  exists q. split; [assumption|]. split.
  - simpl. destruct M; auto.
  - intros y [<-|I]; auto.
Qed.

Lemma eachBase_spec (others : list (list (Input T)))
      (mappedTitles mappedTitles' : list (MatchGroup.t T)) (baseItem : Input T) :
  eachBase others mappedTitles baseItem = Ok mappedTitles' ->
  mappedTitles' = mappedTitles \/
  exists g, mappedTitles' = mappedTitles ++ [g] /\ groupOf others baseItem g.
Proof.
  unfold eachBase.
  destruct (truthyTitle (title baseItem)) eqn:Tt; [|intros [= <-]; auto].
  destruct (eachSource (title baseItem) 1 others [(base, Some baseItem)] Infinity)
    as [[matches low]|] eqn:E; cbn [bind]; [|discriminate].
  apply eachSource_spec in E. destruct E as (rs & F & -> & ->).
  destruct (1 <? _) eqn:L; intros [= <-]; [right | auto].
  apply Nat.ltb_lt in L. rewrite length_app in L. simpl in L.
  assert (NE : recordedFrom 1 others rs <> []).
  { intros C. rewrite C in L. simpl in L. lia. }
  eexists. split; [reflexivity|].
  split; [assumption|]. exists rs. repeat split; auto.
  simpl. apply fold_min_nonempty.
  intros C. apply map_eq_nil in C. auto.
Qed.

Lemma forEach_eachBase_spec (others : list (list (Input T))) :
  forall (baseData : list (Input T)) (acc acc' : list (MatchGroup.t T)),
    forEach (eachBase others) baseData acc = Ok acc' ->
    forall g, In g acc' ->
              In g acc \/
              exists baseItem, In baseItem baseData /\ groupOf others baseItem g.
Proof.
  induction baseData as [|b baseData IH]; intros acc acc' H g I.
  - simpl in H. injection H as <-. auto.
  - cbn [forEach] in H.
    destruct (eachBase others acc b) as [acc1|] eqn:E; cbn [bind] in H;
      [|discriminate].
    destruct (IH _ _ H g I) as [I1|(b' & Ib & G)].
    + apply eachBase_spec in E. destruct E as [->|(g' & -> & G)]; [auto|].
      apply in_app_or in I1. destruct I1 as [I1|[<-|[]]]; [auto|].
      right. exists b. simpl; auto.
    + right. exists b'. simpl; auto.
Qed.

Lemma mapTitles_spec (extractedData : list (list (Input T)))
      (groups : list (MatchGroup.t T)) (g : MatchGroup.t T) :
  mapTitles extractedData = Ok groups ->
  In g groups ->
  exists baseData others baseItem,
    extractedData = baseData :: others /\
    In baseItem baseData /\
    groupOf others baseItem g.
Proof.
  unfold mapTitles. destruct extractedData as [|baseData others]; [discriminate|].
  intros H I.
  destruct (forEach_eachBase_spec _ _ _ H g I) as [[]|(b & Ib & G)].
  exists baseData, others, b. auto.
Qed.

End MapTitlesFacts.

(** ** C5 *)

(** C5: for every base entry whose group [mapTitles] emits, the group's
    score is the minimum of the similarity scores of the per-source
    matches recorded in that group: it is one of those scores and none of
    them is smaller.  (With recorded scores 0.95 and 0.70 the group reports
    0.70: see the witness.) *)
Theorem group_score_is_minimum
        (T : Type) (extractedData : list (list (Input T)))
        (groups : list (MatchGroup.t T)) (g : MatchGroup.t T) :
  mapTitles extractedData = Ok groups ->
  In g groups ->
  exists baseData others baseItem rs,
    extractedData = baseData :: others /\
    In baseItem baseData /\
    Forall2 (fun otherData r =>
               FindBestMatchByTitles (title baseItem) otherData = Ok r)
            others rs /\
    MatchGroup.data g =
      (base, Some baseItem) :: List.map fst (recordedFrom 1 others rs) /\
    exists q,
      MatchGroup.score g = Num q /\
      In q (List.map snd (recordedFrom 1 others rs)) /\
      forall x, In x (List.map snd (recordedFrom 1 others rs)) -> (q <= x)%Q.
Proof.
  intros H I.
  destruct (@mapTitles_spec _ _ _ _ H I) as (baseData & others & b & E & Ib & G).
  destruct G as (_ & rs & F & _ & D & _ & q & S & M1 & M2).
  exists baseData, others, b, rs. repeat split; auto.
  exists q. auto.
Qed.

Lemma group_score_is_minimum_witness :
  mapTitles threeSources = Ok [threeSourcesGroup] /\
  option_map similarityScore
    (match FindBestMatchByTitles (Some (Plain (Js.lit "abcdefghijklmnopqrstu")))
                                 [titled "abcdefghijklmnopqrstx"] with
     | Ok r => Some r | Throw _ => None end) = Some (19 # 20)%Q /\
  option_map similarityScore
    (match FindBestMatchByTitles (Some (Plain (Js.lit "abcdefghijklmnopqrstu")))
                                 [titled "abcdefghijklmno123456"] with
     | Ok r => Some r | Throw _ => None end) = Some (7 # 10)%Q /\
  exists baseData others baseItem rs,
    threeSources = baseData :: others /\
    In baseItem baseData /\
    Forall2 (fun otherData r =>
               FindBestMatchByTitles (title baseItem) otherData = Ok r)
            others rs /\
    MatchGroup.data threeSourcesGroup =
      (base, Some baseItem) :: List.map fst (recordedFrom 1 others rs) /\
    exists q,
      MatchGroup.score threeSourcesGroup = Num q /\
      In q (List.map snd (recordedFrom 1 others rs)) /\
      forall x, In x (List.map snd (recordedFrom 1 others rs)) -> (q <= x)%Q.
Proof.
  split; [vm_compute; reflexivity|].
  split; [vm_compute; reflexivity|].
  split; [vm_compute; reflexivity|].
  apply (@group_score_is_minimum unit threeSources [threeSourcesGroup]
                                 threeSourcesGroup).
  - vm_compute; reflexivity.
  - simpl; auto.
Defined.

(** ** C10 *)

Lemma recordedFrom_keys (T : Type) :
  forall (others : list (list (Input T))) (rs : list BestMatch) (i : nat),
    Forall (fun p => exists n, fst (fst p) = website n)
           (recordedFrom i others rs).
Proof.
  induction others as [|od others IH]; intros [|r rs] i; simpl;
    try constructor.
  destruct (mostCommonMatchIndex r =? -1)%Z; [apply IH|].
  constructor; [simpl; eauto | apply IH].
Qed.

(** C10: the score of every group [mapTitles] emits is a number, never the
    [Infinity] the running minimum starts from.  The group is emitted for a
    base entry for which at least one other source contributed a match;
    the entries recorded besides [base] are exactly the contributed
    matches, under [website] keys; the score is the running [Math.min],
    started at [Infinity], over the similarity scores of these matches, and
    so the minimum of a non-empty list of recorded scores. *)
Theorem group_score_is_never_Infinity
        (T : Type) (extractedData : list (list (Input T)))
        (groups : list (MatchGroup.t T)) (g : MatchGroup.t T) :
  mapTitles extractedData = Ok groups ->
  In g groups ->
  MatchGroup.score g <> Infinity /\
  exists baseData others baseItem rs,
    extractedData = baseData :: others /\
    In baseItem baseData /\
    Forall2 (fun otherData r =>
               FindBestMatchByTitles (title baseItem) otherData = Ok r)
            others rs /\
    recordedFrom 1 others rs <> [] /\
    Forall (fun p => exists n, fst (fst p) = website n)
           (recordedFrom 1 others rs) /\
    MatchGroup.data g =
      (base, Some baseItem) :: List.map fst (recordedFrom 1 others rs) /\
    MatchGroup.score g =
      fold_left Math_min (List.map snd (recordedFrom 1 others rs)) Infinity /\
    exists q,
      MatchGroup.score g = Num q /\
      minimumOf q (List.map snd (recordedFrom 1 others rs)).
Proof.
  intros H I.
  destruct (@mapTitles_spec _ _ _ _ H I) as (baseData & others & b & E & Ib & G).
  destruct G as (_ & rs & F & NE & D & Fo & q & S & M).
  split; [rewrite S; discriminate|].
  exists baseData, others, b, rs.
  repeat split; auto using recordedFrom_keys.
  exists q. auto.
Qed.

Lemma group_score_is_never_Infinity_witness :
  mapTitles [ [titled "Naruto"; untitled]; [titled "naruto (dub)"; titled "Bleach"] ] =
    Ok [ {| MatchGroup.data :=
              [ (base, Some (titled "Naruto"));
                (website 2, Some (titled "naruto (dub)")) ];
            MatchGroup.score := Num 1 |} ] /\
  Num 1 <> Infinity /\
  exists baseData others baseItem rs,
    [ [titled "Naruto"; untitled]; [titled "naruto (dub)"; titled "Bleach"] ] =
      baseData :: others /\
    In baseItem baseData /\
    Forall2 (fun otherData r =>
               FindBestMatchByTitles (title baseItem) otherData = Ok r)
            others rs /\
    recordedFrom 1 others rs <> [] /\
    Forall (fun p => exists n, fst (fst p) = website n)
           (recordedFrom 1 others rs) /\
    [ (base, Some (titled "Naruto"));
      (website 2, Some (titled "naruto (dub)")) ] =
      (base, Some baseItem) :: List.map fst (recordedFrom 1 others rs) /\
    Num 1 =
      fold_left Math_min (List.map snd (recordedFrom 1 others rs)) Infinity /\
    exists q, Num 1 = Num q /\ minimumOf q (List.map snd (recordedFrom 1 others rs)).
Proof.
  split; [vm_compute; reflexivity|].
  apply (@group_score_is_never_Infinity unit
           [ [titled "Naruto"; untitled];
             [titled "naruto (dub)"; titled "Bleach"] ]
           [ {| MatchGroup.data :=
                  [ (base, Some (titled "Naruto"));
                    (website 2, Some (titled "naruto (dub)")) ];
                MatchGroup.score := Num 1 |} ]
           {| MatchGroup.data :=
                [ (base, Some (titled "Naruto"));
                  (website 2, Some (titled "naruto (dub)")) ];
              MatchGroup.score := Num 1 |}).
  - vm_compute; reflexivity.
  - simpl; auto.
Defined.

(** ** C7 *)

(** C7: constructing with fewer than two website configurations raises the
    configuration error, and constructing with two or more succeeds with
    the configurations stored; in both cases the constructor issues no
    request: the network log is returned as it was. *)
Theorem constructor_needs_two_websites (ws : list Website) (net : Network) :
  (List.length ws < 2 -> constructor ws net = (Throw ErrTwoWebsites, net)) /\
  (2 <= List.length ws -> constructor ws net = (Ok {| websites := ws |}, net)).
Proof.
  unfold constructor. split; intros H.
  - apply Nat.ltb_lt in H. rewrite H. reflexivity.
  - apply Nat.ltb_ge in H. rewrite H. reflexivity.
Qed.

Lemma constructor_needs_two_websites_witness :
  (List.length [restSite] < 2 /\
   constructor [restSite] [] = (Throw ErrTwoWebsites, [])) /\
  (2 <= List.length [restSite; restSite] /\
   constructor [restSite; restSite] [] =
     (Ok {| websites := [restSite; restSite] |}, [])).
Proof.
  split; split.
  - simpl; lia.
  - apply (proj1 (constructor_needs_two_websites [restSite] [])). simpl; lia.
  - simpl; lia.
  - apply (proj2 (constructor_needs_two_websites [restSite; restSite] [])).
    simpl; lia.
Defined.

(** ** C6 *)

Lemma findArray_frame (stack : nat) (obj : JsValue) :
  findArray (S stack) obj =
  match obj with
  | JArray items => Ok (Some items)
  | JObject props =>
      if hasKey (Js.lit "hasOwnProperty") props
      then Throw TypeError
      else forIn (findArray stack) (List.map snd props)
  | JString s => forIn (findArray stack) (List.map (fun c => JString [c]) s)
  | JNull | JBool _ | JNumber _ => Ok None
  end.
Proof. reflexivity. Qed.

(** On a non-empty string the recursion never returns: whatever room the
    stack has, it is used up. *)
Lemma findArray_string (c : N) (s : Js.str) (stack : nat) :
  findArray stack (JString (c :: s)) = Throw RangeError.
Proof.
  revert c s. induction stack as [|stack IH]; intros c s; [reflexivity|].
  rewrite findArray_frame. cbn [List.map forIn]. rewrite IH. reflexivity.
Qed.

(** Where no string or [hasOwnProperty] property stands in the way and the
    stack is deep enough, [findArray] returns the first array of the
    depth-first, pre-order walk. *)
Lemma findArray_textFree (stack : nat) :
  forall obj, textFree obj = true -> depth obj <= stack ->
              findArray stack obj = Ok (firstArray obj).
Proof.
  induction stack as [|stack IH]; intros obj P D.
  - destruct obj; simpl in D; lia.
  - rewrite findArray_frame. destruct obj as [| | |s|items|props]; try reflexivity.
    + destruct s; [reflexivity | discriminate].
    + cbn [textFree] in P. apply andb_true_iff in P. destruct P as [P1 P2].
      apply negb_true_iff in P1. rewrite P1.
      cbn [depth] in D. apply le_S_n in D. cbn [firstArray].
      induction props as [|[k child] props IHp]; [reflexivity|].
      apply andb_true_iff in P2. destruct P2 as [Pc Pr].
      cbn [List.map snd forIn]. rewrite IH; [|assumption|lia].
      cbn [bind]. destruct (firstArray child); [reflexivity|].
      apply IHp; [|assumption|lia].
      simpl in P1. apply orb_false_iff in P1. tauto.
Qed.

(** C6 at [{"status": "ok", "results": [{"title": "Naruto"}]}]: the walk
    reaches the string ["ok"] before the array, [for ... in] enumerates the
    indices of the string, the one-character string ["o"] is its own first
    character, and the recursion ends in the engine's stack overflow for
    every stack size; the elements of the array are not returned. *)
Theorem extractData_overflows_on_string_before_array
        (scrape : JsValue -> Website -> result (list JsValue)) (stack : nat) :
  firstArray statusPayload =
    Some [JObject [(Js.lit "title", JString (Js.lit "Naruto"))]] /\
  extractData scrape stack statusPayload restSite = Throw RangeError.
Proof.
  split; [reflexivity|].
  unfold extractData. change (apiMode restSite) with true. cbv iota.
  destruct stack as [|stack]; [reflexivity|].
  rewrite findArray_frame. unfold statusPayload.
  change (hasKey (Js.lit "hasOwnProperty")
            [(Js.lit "status", JString (Js.lit "ok"));
             (Js.lit "results",
              JArray [JObject [(Js.lit "title", JString (Js.lit "Naruto"))]])])
    with false.
  cbv iota. cbn [List.map snd forIn].
  change (Js.lit "ok") with [111%N; 107%N].
  rewrite findArray_string. reflexivity.
Qed.

(** ** C9 *)

Lemma mapM_checkItem_ok :
  forall (items out : list JsValue),
    mapM checkItem items = Ok out -> out = items.
Proof.
  induction items as [|item items IH]; intros out H; simpl in H.
  - congruence.
  - unfold checkItem at 1 in H.
    destruct (titleOf item) as [t|]; cbn [bind] in H; [|discriminate].
    destruct (truthyValue t); cbn [negb bind] in H; [|discriminate].
    destruct (mapM checkItem items) as [out'|]; cbn [bind] in H; [|discriminate].
    injection H as <-. f_equal. apply IH. reflexivity.
Qed.

(** On a payload without text in front of the first array, and with room
    on the stack, [extractData] checks the elements of the first array of
    the walk and returns them unchanged, or raises the array error when
    the walk finds none. *)
Lemma extractData_textFree
      (scrape : JsValue -> Website -> result (list JsValue))
      (stack : nat) (data : JsValue) (site : Website) :
  apiMode site = true ->
  textFree data = true ->
  depth data <= stack ->
  extractData scrape stack data site =
    match firstArray data with
    | None => Throw ErrNoArray
    | Some items => mapM checkItem items
    end /\
  forall out, extractData scrape stack data site = Ok out ->
              firstArray data = Some out.
Proof.
  intros A P D. unfold extractData.
  rewrite A, (@findArray_textFree stack data P D). cbn [bind].
  split; [reflexivity|].
  destruct (firstArray data) as [items|]; [|discriminate].
  intros out H. apply mapM_checkItem_ok in H. congruence.
Qed.

Lemma checkItem_error (item : JsValue) :
  checkItem item = Throw ErrNoTitle <->
  exists t, titleOf item = Ok t /\ truthyValue t = false.
Proof.
  unfold checkItem. destruct (titleOf item) as [t|e] eqn:E; cbn [bind].
  - destruct (truthyValue t) eqn:V; cbn [negb]; split.
    + discriminate.
    + intros (t' & [= <-] & C). congruence.
    + eauto.
    + reflexivity.
  - split.
    + intros [= ->]. destruct item; simpl in E; discriminate.
    + intros (t & C & _). discriminate.
Qed.

Lemma mapM_checkItem_error :
  forall (items : list JsValue),
    mapM checkItem items = Throw ErrNoTitle <->
    exists before item after,
      items = before ++ item :: after /\
      Forall (fun i => checkItem i = Ok i) before /\
      checkItem item = Throw ErrNoTitle.
Proof.
  induction items as [|item items IH]; simpl.
  - split; [discriminate|].
    intros (b & i & a & E & _). destruct b; discriminate.
  - destruct (checkItem item) as [o|e] eqn:C; cbn [bind].
    + assert (O : o = item).
      { unfold checkItem in C. destruct (titleOf item); [|discriminate].
        simpl in C. destruct (negb _); congruence. }
      subst o. split.
      * destruct (mapM checkItem items) as [out|e] eqn:M; cbn [bind];
          [discriminate|].
        intros [= ->]. destruct (proj1 IH eq_refl) as (b & i & a & -> & F & X).
        exists (item :: b), i, a. repeat split; auto.
      * intros ([|b0 b] & i & a & E & F & X); simpl in E; injection E as <- ->.
        -- congruence.
        -- inversion F; subst.
           assert (M : mapM checkItem (b ++ i :: a) = Throw ErrNoTitle).
           { apply IH. exists b, i, a. auto. }
           rewrite M. reflexivity.
    + split.
      * intros [= ->]. exists [], item, items. auto.
      * intros ([|b0 b] & i & a & E & F & X); simpl in E; injection E as <- ->.
        -- congruence.
        -- inversion F; subst. congruence.
Qed.

(** C9: in API mode the callback applied to each array element raises the
    title error exactly when reading [item.title] yields a falsy value:
    [undefined] for a missing field, but also the empty string, [null],
    [0] or [false] for a field that is present; [extractData] raises that
    error exactly when some element has a falsy title and every element
    before it passed the check. *)
Theorem title_error_iff_title_falsy :
  (forall item : JsValue,
      checkItem item = Throw ErrNoTitle <->
      exists t, titleOf item = Ok t /\ truthyValue t = false) /\
  (forall props : list (Js.str * JsValue),
      In (getOwnProp (Js.lit "title") props)
         [None; Some (JString []); Some JNull; Some (JNumber 0); Some (JBool false)] ->
      checkItem (JObject props) = Throw ErrNoTitle) /\
  (forall (scrape : JsValue -> Website -> result (list JsValue)) (stack : nat)
          (data : JsValue) (site : Website) (items : list JsValue),
      apiMode site = true ->
      findArray stack data = Ok (Some items) ->
      (extractData scrape stack data site = Throw ErrNoTitle <->
       exists before item after t,
         items = before ++ item :: after /\
         Forall (fun i => checkItem i = Ok i) before /\
         titleOf item = Ok t /\ truthyValue t = false)).
Proof.
  split; [exact checkItem_error|]. split.
  - intros props H. apply checkItem_error. simpl titleOf.
    eexists; split; [reflexivity|].
    simpl in H. decompose [or] H; try tauto;
      match goal with E : _ = getOwnProp _ _ |- _ => rewrite <- E end;
      reflexivity.
  - intros scrape stack data site items A F.
    unfold extractData. rewrite A, F. cbn [bind].
    rewrite mapM_checkItem_error. split.
    + intros (b & i & a & E & Fb & X).
      apply checkItem_error in X. destruct X as (t & X1 & X2).
      exists b, i, a, t. auto.
    + intros (b & i & a & t & E & Fb & X1 & X2).
      exists b, i, a. repeat split; auto.
      apply checkItem_error. eauto.
Qed.

Lemma title_error_iff_title_falsy_witness :
  apiMode restSite = true /\
  findArray 8
    (JObject [(Js.lit "results",
               JArray [JObject [(Js.lit "title", JString (Js.lit "Naruto"))];
                       JObject [(Js.lit "title", JString [])]])]) =
    Ok (Some [JObject [(Js.lit "title", JString (Js.lit "Naruto"))];
              JObject [(Js.lit "title", JString [])]]) /\
  (extractData (fun _ _ => Ok []) 8
     (JObject [(Js.lit "results",
                JArray [JObject [(Js.lit "title", JString (Js.lit "Naruto"))];
                        JObject [(Js.lit "title", JString [])]])])
     restSite = Throw ErrNoTitle <->
   exists before item after t,
     [JObject [(Js.lit "title", JString (Js.lit "Naruto"))];
      JObject [(Js.lit "title", JString [])]] = before ++ item :: after /\
     Forall (fun i => checkItem i = Ok i) before /\
     titleOf item = Ok t /\ truthyValue t = false).
Proof.
  split; [reflexivity|]. split; [reflexivity|].
  apply (proj2 (proj2 title_error_iff_title_falsy)); reflexivity.
Defined.

(* ================================================================== *)
(** * Further properties *)
(* ================================================================== *)

Unset Implicit Arguments.

(** ** [sanitizeTitle]: shape of the result *)

Lemma trimStart_clean (s : Js.str) :
  match Js.trimStart s with
  | c :: _ => Js.isWhiteSpace c = false
  | [] => True
  end.
Proof.
  induction s as [|c s IH]; simpl; [exact I|].
  destruct (Js.isWhiteSpace c) eqn:E; [assumption | exact E].
Qed.

Lemma trimStart_fixed (s : Js.str) :
  match s with
  | c :: _ => Js.isWhiteSpace c = false
  | [] => True
  end -> Js.trimStart s = s.
Proof.
  destruct s as [|c s]; simpl; [reflexivity|]. intros ->. reflexivity.
Qed.

Lemma trimStart_whitespace (w s : Js.str) :
  forallb Js.isWhiteSpace w = true -> Js.trimStart (w ++ s) = Js.trimStart s.
Proof.
  induction w as [|c w IH]; simpl; [reflexivity|].
  intros H. apply andb_true_iff in H. destruct H as [-> H]. auto.
Qed.

Lemma trimEnd_whitespace (s w : Js.str) :
  forallb Js.isWhiteSpace w = true -> Js.trimEnd (s ++ w) = Js.trimEnd s.
Proof.
  intros H. unfold Js.trimEnd. rewrite rev_app_distr.
  rewrite trimStart_whitespace; [reflexivity|].
  rewrite forallb_forall in *. intros x I. apply H. apply in_rev. assumption.
Qed.

Lemma trimEnd_head (s : Js.str) :
  match s with
  | c :: _ => Js.isWhiteSpace c = false
  | [] => True
  end ->
  match Js.trimEnd s with
  | c :: _ => Js.isWhiteSpace c = false
  | [] => True
  end.
Proof.
  destruct (trimEnd_prefix s) as [w E]. intros H.
  destruct (Js.trimEnd s) as [|c t]; [exact I|].
  rewrite E in H. exact H.
Qed.

Lemma trim_start_fixed (s : Js.str) : Js.trimStart (Js.trim s) = Js.trim s.
Proof.
  apply trimStart_fixed. unfold Js.trim. apply trimEnd_head.
  apply trimStart_clean.
Qed.

Lemma trimEnd_fixed (s : Js.str) : Js.trimEnd (Js.trimEnd s) = Js.trimEnd s.
Proof.
  unfold Js.trimEnd. rewrite rev_involutive. f_equal.
  apply trimStart_fixed. apply trimStart_clean.
Qed.

Lemma trim_fixed (s : Js.str) : Js.trim (Js.trim s) = Js.trim s.
Proof.
  unfold Js.trim at 1. rewrite trim_start_fixed. unfold Js.trim.
  apply trimEnd_fixed.
Qed.

(** X1: for every non-empty title [sanitizeTitle] returns a string; it has
    at most 99 code units and is not longer than the title, one code unit
    for each U+0130 of the title apart (its lower-case form takes two);
    it holds no upper-case ASCII letter, never begins with whitespace, and
    ends with whitespace only if the truncation to 99 code units cut it
    there. *)
Theorem sanitizeTitle_result_shape (t : Js.str) :
  t <> [] ->
  exists s,
    sanitizeTitle (Some t) = Some s /\
    List.length s <= 99 /\
    List.length s <= List.length t + dottedCapitals t /\
    lowered s /\
    Js.trimStart s = s /\
    (List.length s < 99 -> Js.trim s = s).
Proof.
  intros NE. rewrite sanitizeTitle_nonempty by assumption.
  eexists. split; [reflexivity|].
  set (u := Re.remove Re.bd
              (Re.remove Re.audio (Re.remove Re.qualifier (Js.toLowerCase t)))).
  assert (Lu : List.length u <= List.length t + dottedCapitals t).
  { unfold u. rewrite <- (toLowerCase_length t).
    eapply Nat.le_trans; [apply remove_length|].
    eapply Nat.le_trans; [apply remove_length|]. apply remove_length. }
  pose proof (trim_length u) as Lt.
  unfold Js.substring0.
  assert (Lf : List.length (firstn 99 (Js.trim u)) <= List.length (Js.trim u))
    by (rewrite length_firstn; lia).
  repeat split.
  - rewrite length_firstn. lia.
  - lia.
  - apply firstn_lowered, trim_lowered. unfold u.
    repeat apply remove_lowered. apply toLowerCase_lowered.
  - apply trimStart_fixed.
    pose proof (trimStart_clean (Js.trim u)) as C.
    rewrite trim_start_fixed in C.
    destruct (Js.trim u) as [|c r]; [rewrite firstn_nil; exact I|].
    exact C.
  - intros L. rewrite length_firstn in L.
    rewrite firstn_all2 by lia. apply trim_fixed.
Qed.

Lemma sanitizeTitle_result_shape_witness :
  Js.lit "  Naruto BD " <> [] /\
  exists s,
    sanitizeTitle (Some (Js.lit "  Naruto BD ")) = Some s /\
    List.length s <= 99 /\
    List.length s <= List.length (Js.lit "  Naruto BD ") +
                     dottedCapitals (Js.lit "  Naruto BD ") /\
    lowered s /\
    Js.trimStart s = s /\
    (List.length s < 99 -> Js.trim s = s).
Proof.
  split; [vm_compute; discriminate|].
  apply (sanitizeTitle_result_shape (Js.lit "  Naruto BD ")).
  vm_compute; discriminate.
Defined.

(** ** [sanitizeTitle]: titles without markers, and a trailing qualifier *)

Lemma run_lang (A : Type) (r : Re.regex) :
  forall (s : Js.str) (k : Js.str -> option A) (x : A),
    Re.run r s k = Some x ->
    exists m s', s = m ++ s' /\ lang r m /\ k s' = Some x.
Proof.
  induction r as [c|c|r1 IH1 r2 IH2|r1 IH1 r2 IH2| |]; intros s k x H.
  - destruct s as [|y s]; simpl in H; [discriminate|].
    destruct (Re.accepts c y) eqn:E; [|discriminate].
    exists [y], s. simpl. eauto.
  - simpl in H. induction s as [|y s IHs].
    + exists [], []. simpl. auto.
    + destruct (Re.accepts c y) eqn:E.
      * match type of H with
        | match ?e with _ => _ end = _ => destruct e as [a|] eqn:F
        end.
        -- destruct (IHs H) as (m & s' & -> & L & K).
           exists (y :: m), s'. simpl. repeat split; auto.
        -- exists [], (y :: s). simpl. auto.
      * exists [], (y :: s). simpl. auto.
  - simpl in H.
    destruct (IH1 _ _ _ H) as (m1 & s1 & -> & L1 & K1).
    destruct (IH2 _ _ _ K1) as (m2 & s2 & -> & L2 & K2).
    exists (m1 ++ m2), s2. rewrite <- app_assoc. simpl. eauto 7.
  - simpl in H. destruct (Re.run r1 s k) as [a|] eqn:E.
    + injection H as <-.
      destruct (IH1 _ _ _ E) as (m & s' & -> & L & K).
      exists m, s'. simpl. auto.
    + destruct (IH2 _ _ _ H) as (m & s' & -> & L & K).
      exists m, s'. simpl. auto.
  - exists [], s. simpl. auto.
  - destruct s; simpl in H; [|discriminate].
    exists [], []. simpl. auto.
Qed.

Lemma search_lang (r : Re.regex) :
  forall (s before p q : Js.str),
    Re.search r before s = Some (p, q) ->
    exists m, rev before ++ s = p ++ m ++ q /\ lang r m.
Proof.
  induction s as [|y s IH]; intros before p q H; simpl in H.
  - destruct (Re.run r [] (fun rest => Some rest)) as [rest|] eqn:E;
      [|discriminate].
    injection H as <- <-.
    destruct (run_lang _ _ _ _ _ E) as (m & s' & E' & L & K).
    injection K as ->. exists m. rewrite <- E'. auto.
  - destruct (Re.run r (y :: s) (fun rest => Some rest)) as [rest|] eqn:E.
    + injection H as <- <-.
      destruct (run_lang _ _ _ _ _ E) as (m & s' & E' & L & K).
      injection K as ->. exists m. rewrite <- E'. auto.
    + destruct (IH _ _ _ H) as (m & E' & L).
      exists m. simpl in E'. rewrite <- app_assoc in E'. simpl in E'. auto.
Qed.

(** A code unit that canonicalises to one outside [A]..[Z] is that code
    unit. *)
Lemma canonicalize_exact (x c : N) :
  Re.canonicalize x = c -> (c < 65 \/ 90 < c)%N -> x = c.
Proof.
  unfold Re.canonicalize.
  destruct ((97 <=? x)%N && (x <=? 122)%N) eqn:E; [|auto].
  apply andb_true_iff in E. destruct E as [E1 E2].
  apply N.leb_le in E1, E2. lia.
Qed.

Lemma accepts_exact (c x : N) :
  (c < 65 \/ 90 < c)%N -> (c < 97 \/ 122 < c)%N ->
  Re.accepts (Re.Is c) x = true -> x = c.
Proof.
  intros H1 H2 A. simpl in A. apply N.eqb_eq in A.
  apply canonicalize_exact; [|assumption].
  rewrite A. unfold Re.canonicalize.
  destruct ((97 <=? c)%N && (c <=? 122)%N) eqn:E; [|reflexivity].
  apply andb_true_iff in E. destruct E as [E1 E2].
  apply N.leb_le in E1, E2. lia.
Qed.

Lemma lang_spaces (m : Js.str) : lang Re.spaces m -> allSpaces m = true.
Proof.
  unfold Re.spaces, allSpaces. simpl. intros H.
  apply forallb_forall. intros x I. rewrite Forall_forall in H.
  apply N.eqb_eq. apply (accepts_exact 32 x); [lia | lia | exact (H x I)].
Qed.

Lemma lang_word_head (c : N) (w m : Js.str) :
  lang (Re.word (c :: w)) m ->
  exists x m', m = x :: m' /\ Re.accepts (Re.Is c) x = true.
Proof.
  simpl. intros (m1 & m2 & -> & (x & -> & A) & _). simpl. eauto.
Qed.

(** Whatever the qualifier pattern or the audio pattern matches is a run
    of spaces followed by an opening parenthesis. *)
Lemma lang_qualifier (m : Js.str) :
  lang Re.qualifier m ->
  exists sp rest, m = sp ++ 40%N :: rest /\ allSpaces sp = true.
Proof.
  unfold Re.qualifier. cbn [lang].
  intros (sp & w & -> & S & W). apply lang_spaces in S.
  assert (H : exists x m', w = x :: m' /\ Re.accepts (Re.Is 40) x = true).
  { decompose [or] W;
      match goal with
      | L : lang (Re.word _) w |- _ =>
          exact (lang_word_head 40 _ w L)
      end. }
  destruct H as (x & m' & -> & A).
  apply accepts_exact in A; [|lia|lia]. subst x. eauto.
Qed.

Lemma lang_audio (m : Js.str) :
  lang Re.audio m ->
  exists sp rest, m = sp ++ 40%N :: rest /\ allSpaces sp = true.
Proof.
  unfold Re.audio. cbn [lang].
  intros (sp & w & -> & S & (m1 & m2 & -> & (x & -> & A) & _)).
  apply lang_spaces in S.
  apply accepts_exact in A; [|lia|lia]. subst x. simpl. eauto.
Qed.

Lemma lang_bd (m : Js.str) :
  lang Re.bd m ->
  exists c rest, m = 32%N :: c :: rest /\ (c = 66 \/ c = 98)%N.
Proof.
  unfold Re.bd. cbn [lang Re.word Js.lit List.map list_ascii_of_string].
  intros (w & e & -> & (m1 & m2 & -> & (x & -> & A) & (m3 & m4 & -> & (y & -> & B) & _)) & _).
  apply accepts_exact in A; [|vm_compute; auto|vm_compute; auto].
  simpl in B. apply N.eqb_eq in B.
  exists y. eexists. split; [rewrite A; reflexivity|].
  unfold Re.canonicalize in B.
  replace (if (97 <=? 66)%N && (66 <=? 122)%N then (66 - 32)%N else 66%N)
    with 66%N in B by reflexivity.
  destruct ((97 <=? y)%N && (y <=? 122)%N); lia.
Qed.

Lemma hasSpaceB_found (p rest : Js.str) (c : N) :
  (c = 66 \/ c = 98)%N -> hasSpaceB (p ++ 32%N :: c :: rest) = true.
Proof.
  intros C. induction p as [|x p IH].
  - simpl. destruct C as [-> | ->]; reflexivity.
  - change ((x :: p) ++ 32%N :: c :: rest)
      with (x :: (p ++ 32%N :: c :: rest)).
    destruct (p ++ 32%N :: c :: rest) eqn:E; [destruct p; discriminate|].
    simpl. simpl in IH. rewrite IH. apply orb_true_r.
Qed.

Lemma no_parenthesis_no_qualifier (s : Js.str) :
  ~ In 40%N s ->
  Re.matches Re.qualifier s = false /\ Re.matches Re.audio s = false.
Proof.
  intros N. unfold Re.matches. split.
  - destruct (Re.search Re.qualifier [] s) as [[p q]|] eqn:E; [|reflexivity].
    destruct (search_lang _ _ _ _ _ E) as (m & H & L).
    destruct (lang_qualifier _ L) as (sp & rest & -> & _).
    exfalso. apply N. simpl in H. rewrite H.
    apply in_or_app. right. apply in_or_app. left.
    apply in_or_app. right. simpl. auto.
  - destruct (Re.search Re.audio [] s) as [[p q]|] eqn:E; [|reflexivity].
    destruct (search_lang _ _ _ _ _ E) as (m & H & L).
    destruct (lang_audio _ L) as (sp & rest & -> & _).
    exfalso. apply N. simpl in H. rewrite H.
    apply in_or_app. right. apply in_or_app. left.
    apply in_or_app. right. simpl. auto.
Qed.

Lemma no_spaceB_no_bd (s : Js.str) :
  hasSpaceB s = false -> Re.matches Re.bd s = false.
Proof.
  intros N. unfold Re.matches.
  destruct (Re.search Re.bd [] s) as [[p q]|] eqn:E; [|reflexivity].
  destruct (search_lang _ _ _ _ _ E) as (m & H & L).
  destruct (lang_bd _ L) as (c & rest & -> & C).
  simpl in H. rewrite H in N.
  change (p ++ (32%N :: c :: rest) ++ q) with (p ++ 32%N :: c :: rest ++ q) in N.
  rewrite hasSpaceB_found in N by assumption. discriminate.
Qed.

Lemma hasSpaceB_cons (x : N) (s : Js.str) :
  hasSpaceB (x :: s) =
  ((x =? 32)%N &&
   match s with
   | y :: _ => (y =? 66)%N || (y =? 98)%N
   | [] => false
   end) || hasSpaceB s.
Proof.
  destruct s; [|reflexivity].
  cbn [hasSpaceB]. rewrite andb_false_r. reflexivity.
Qed.

Lemma hasSpaceB_suffix (a b : Js.str) :
  hasSpaceB (a ++ b) = false -> hasSpaceB b = false.
Proof.
  induction a as [|x a IH]; [auto|].
  cbn [app]. rewrite hasSpaceB_cons. intros H.
  apply orb_false_iff in H. tauto.
Qed.

Lemma hasSpaceB_high (m s : Js.str) :
  Forall (fun y => (304 < y)%N) m -> hasSpaceB (m ++ s) = hasSpaceB s.
Proof.
  induction 1 as [|y m Y _ IH]; [reflexivity|].
  cbn [app]. rewrite hasSpaceB_cons, IH.
  destruct (N.eqb_spec y 32); [lia|]. reflexivity.
Qed.

(** The first code unit of a lower-cased text is [B] or [b] only if the
    text begins with [B] or [b]. *)
Lemma lowerPoints_head (before ps : list Js.point) :
  match Js.lowerPoints before ps with
  | y :: _ => (y =? 66)%N || (y =? 98)%N
  | [] => false
  end = true ->
  exists c rest, flat_map Js.unitsOf ps = c :: rest /\ (c = 66 \/ c = 98)%N.
Proof.
  destruct ps as [|q ps]; [discriminate|].
  cbn [Js.lowerPoints].
  destruct (lowerPoint_block before ps q) as (x & more & -> & A & _).
  cbn [app]. intros H. apply orb_true_iff in H.
  assert (X : (x <= 98)%N)
    by (destruct H as [H|H]; apply N.eqb_eq in H; lia).
  destruct (A X) as (c & -> & _ & E & _).
  exists c. eexists. split; [reflexivity|].
  destruct H as [H|H]; apply N.eqb_eq in H; rewrite H in E; clear H.
  - assert (C : c = 66%N)
      by (symmetry in E; apply lowerUnit_exact in E; [exact E|lia]).
    subst c. vm_compute in E. discriminate E.
  - unfold Js.lowerUnit in E.
    destruct ((65 <=? c)%N && (c <=? 90)%N); [left; lia | right; auto].
Qed.

Lemma lowerPoints_no_spaceB (ps : list Js.point) :
  forall before,
    hasSpaceB (flat_map Js.unitsOf ps) = false ->
    hasSpaceB (Js.lowerPoints before ps) = false.
Proof.
  induction ps as [|p ps IH]; intros before H; [reflexivity|].
  cbn [flat_map] in H.
  pose proof (IH (p :: before) (hasSpaceB_suffix _ _ H)) as Hrest.
  cbn [Js.lowerPoints].
  destruct (lowerPoint_block before ps p) as (x & more & -> & A & _ & M & _).
  destruct more as [|y more].
  - cbn [app]. rewrite hasSpaceB_cons, Hrest, orb_false_r.
    destruct (N.eqb_spec x 32) as [X|X]; [|reflexivity].
    cbn [andb].
    destruct (match Js.lowerPoints (p :: before) ps with
              | y :: _ => (y =? 66)%N || (y =? 98)%N
              | [] => false
              end) eqn:Hd; [|reflexivity].
    exfalso.
    destruct (lowerPoints_head _ _ Hd) as (c & rest & E & C).
    destruct A as (c0 & -> & _ & E0 & _); [lia|].
    rewrite X in E0. symmetry in E0. apply lowerUnit_exact in E0; [|lia].
    subst c0. cbn [Js.unitsOf app] in H. rewrite E in H.
    pose proof (hasSpaceB_found [] rest c C) as F. cbn [app] in F.
    rewrite F in H. discriminate H.
  - change ((x :: y :: more) ++ Js.lowerPoints (p :: before) ps)
      with (x :: (y :: more) ++ Js.lowerPoints (p :: before) ps).
    rewrite hasSpaceB_cons, (hasSpaceB_high _ _ M), Hrest, orb_false_r.
    cbn [app]. inversion M as [|? ? Y _]; subst.
    destruct (N.eqb_spec y 66); [lia|].
    destruct (N.eqb_spec y 98); [lia|].
    apply andb_false_r.
Qed.

(** Lower-casing brings in no space followed by [b]: a space comes from a
    space only, and a [b] from [B] or [b] only. *)
Lemma toLowerCase_no_spaceB (t : Js.str) :
  hasSpaceB t = false -> hasSpaceB (Js.toLowerCase t) = false.
Proof.
  intros H. unfold Js.toLowerCase. apply lowerPoints_no_spaceB.
  rewrite unitsOf_points. exact H.
Qed.

Lemma sanitizeTitle_plain (t : Js.str) :
  t <> [] -> ~ In 40%N t -> hasSpaceB t = false ->
  sanitizeTitle (Some t) =
  Some (Js.substring0 99 (Js.trim (Js.toLowerCase t))).
Proof.
  intros NE P B. rewrite sanitizeTitle_nonempty by assumption.
  apply toLowerCase_no_parenthesis in P. apply toLowerCase_no_spaceB in B.
  destruct (no_parenthesis_no_qualifier _ P) as [Q A].
  rewrite (remove_unmatched _ _ Q), (remove_unmatched _ _ A),
    (remove_unmatched _ _ (no_spaceB_no_bd _ B)).
  reflexivity.
Qed.

(** X2: a non-empty title that contains no opening parenthesis and no
    space followed by [b] or [B] holds none of the markers: it is
    lower-cased, trimmed and truncated to 99 code units, and nothing else
    is removed from it. *)
Theorem sanitizeTitle_without_markers (t : Js.str) :
  t <> [] -> ~ In 40%N t -> hasSpaceB t = false ->
  sanitizeTitle (Some t) =
  Some (Js.substring0 99 (Js.trim (Js.toLowerCase t))).
Proof. exact (sanitizeTitle_plain t). Qed.

Lemma sanitizeTitle_without_markers_witness :
  pokemon <> [] /\
  ~ In 40%N pokemon /\
  hasSpaceB pokemon = false /\
  sanitizeTitle (Some pokemon) =
    Some (Js.lit "pok" ++ 0xE9%N :: Js.lit "mon journeys") /\
  sanitizeTitle (Some pokemon) =
    Some (Js.substring0 99 (Js.trim (Js.toLowerCase pokemon))).
Proof.
  assert (P : ~ In 40%N pokemon).
  { vm_compute. intros H. decompose [or] H; try discriminate; assumption. }
  split; [vm_compute; discriminate|].
  split; [exact P|].
  split; [reflexivity|].
  split; [vm_compute; reflexivity|].
  apply (sanitizeTitle_without_markers pokemon);
    [vm_compute; discriminate | exact P | reflexivity].
Defined.

Lemma run_many_cons (A : Type) (c : Re.cclass) (y : N) (t : Js.str)
      (k : Js.str -> option A) :
  Re.run (Re.Many c) (y :: t) k =
  if Re.accepts c y
  then match Re.run (Re.Many c) t k with
       | Some a => Some a
       | None => k (y :: t)
       end
  else k (y :: t).
Proof. reflexivity. Qed.

Lemma search_unfold (r : Re.regex) (before s : Js.str) :
  Re.search r before s =
  match Re.run r s (fun rest => Some rest) with
  | Some rest => Some (rev before, rest)
  | None =>
      match s with
      | [] => None
      | x :: s' => Re.search r (x :: before) s'
      end
  end.
Proof. destruct s; reflexivity. Qed.

Lemma many_spaces (A : Type) (k : Js.str -> option A) (rest : Js.str) (a : A) :
  Re.run Re.spaces rest k = Some a ->
  forall sp, allSpaces sp = true -> Re.run Re.spaces (sp ++ rest) k = Some a.
Proof.
  intros H. induction sp as [|c sp IH]; intros S; [exact H|].
  simpl in S. apply andb_true_iff in S. destruct S as [C S].
  apply N.eqb_eq in C. subst c.
  change ((32%N :: sp) ++ rest) with (32%N :: (sp ++ rest)).
  unfold Re.spaces in *. rewrite run_many_cons.
  change (Re.accepts (Re.Is 32) 32%N) with true. cbv iota.
  rewrite (IH S). reflexivity.
Qed.

Lemma withoutSpacesAtEnd_spec (s : Js.str) :
  exists sp, s = withoutSpacesAtEnd s ++ sp /\ allSpaces sp = true.
Proof.
  induction s as [|c s (sp & E & S)].
  - exists []. auto.
  - cbn [withoutSpacesAtEnd]. destruct (allSpaces (c :: s)) eqn:A.
    + exists (c :: s). auto.
    + exists sp. simpl. rewrite <- E. auto.
Qed.

Lemma spaces_then_parenthesis (u : Js.str) :
  forall (rest sp z : Js.str),
    allSpaces sp = true -> ~ In 40%N u ->
    u ++ rest = sp ++ 40%N :: z -> allSpaces u = true.
Proof.
  induction u as [|c u IH]; intros rest sp z S N E; [reflexivity|].
  destruct sp as [|x sp]; simpl in E; injection E as -> E.
  - exfalso. apply N. simpl. auto.
  - simpl in S. apply andb_true_iff in S. destruct S as [X S].
    simpl. rewrite X. simpl.
    apply (IH rest sp z S); [|assumption].
    intros I. apply N. simpl. auto.
Qed.

Lemma run_qualifier_fails (u rest : Js.str) :
  allSpaces u = false -> ~ In 40%N u ->
  Re.run Re.qualifier (u ++ rest) (fun r => Some r) = None.
Proof.
  intros A N.
  destruct (Re.run Re.qualifier (u ++ rest) (fun r => Some r)) as [x|] eqn:E;
    [|reflexivity].
  destruct (run_lang _ _ _ _ _ E) as (m & s' & H & L & _).
  destruct (lang_qualifier _ L) as (sp & z & -> & S).
  rewrite <- app_assoc in H. simpl in H.
  rewrite (spaces_then_parenthesis u rest sp (z ++ s') S N H) in A.
  discriminate.
Qed.

Lemma run_qualifier_marker (w : Js.str) :
  In w qualifiers ->
  Re.run Re.qualifier (32%N :: w) (fun r => Some r) = Some [].
Proof.
  intros I. unfold qualifiers in I. simpl in I.
  decompose [or] I; try tauto; subst w; vm_compute; reflexivity.
Qed.

Lemma run_qualifier_spaces (u w : Js.str) :
  allSpaces u = true -> In w qualifiers ->
  Re.run Re.qualifier (u ++ 32%N :: w) (fun r => Some r) = Some [].
Proof.
  intros A I. pose proof (run_qualifier_marker w I) as M.
  unfold Re.qualifier in *. cbn [Re.run] in *.
  apply many_spaces; assumption.
Qed.

Lemma search_qualifier_tail (w : Js.str) :
  In w qualifiers ->
  forall (u before : Js.str),
    ~ In 40%N u ->
    Re.search Re.qualifier before (u ++ 32%N :: w) =
    Some (rev before ++ withoutSpacesAtEnd u, []).
Proof.
  intros I. induction u as [|c u IH]; intros before N.
  - rewrite search_unfold. simpl app.
    rewrite (run_qualifier_marker w I). rewrite app_nil_r. reflexivity.
  - rewrite search_unfold. cbn [withoutSpacesAtEnd].
    destruct (allSpaces (c :: u)) eqn:A.
    + rewrite (run_qualifier_spaces (c :: u) w A I).
      rewrite app_nil_r. reflexivity.
    + rewrite (run_qualifier_fails (c :: u) (32%N :: w) A N).
      change ((c :: u) ++ 32%N :: w) with (c :: (u ++ 32%N :: w)). cbv iota.
      rewrite IH by (intros J; apply N; simpl; auto).
      simpl. rewrite <- app_assoc. reflexivity.
Qed.

Lemma hasSpaceB_prefix (a b : Js.str) :
  hasSpaceB (a ++ b) = false -> hasSpaceB a = false.
Proof.
  induction a as [|x a IH]; [reflexivity|].
  destruct a as [|y a]; [reflexivity|].
  change (hasSpaceB ((x :: y :: a) ++ b))
    with (((x =? 32)%N && ((y =? 66)%N || (y =? 98)%N))
          || hasSpaceB ((y :: a) ++ b)).
  change (hasSpaceB (x :: y :: a))
    with (((x =? 32)%N && ((y =? 66)%N || (y =? 98)%N))
          || hasSpaceB (y :: a)).
  intros H. apply orb_false_iff in H. destruct H as [-> H].
  rewrite (IH H). reflexivity.
Qed.

Lemma trim_whitespace_end (x sp : Js.str) :
  forallb Js.isWhiteSpace sp = true -> Js.trim (x ++ sp) = Js.trim x.
Proof.
  intros W. unfold Js.trim. induction x as [|c x IH].
  - simpl app. rewrite <- (app_nil_r sp), (trimStart_whitespace sp [] W).
    reflexivity.
  - change ((c :: x) ++ sp) with (c :: (x ++ sp)). simpl Js.trimStart.
    destruct (Js.isWhiteSpace c); [exact IH|].
    change (c :: x ++ sp) with ((c :: x) ++ sp).
    apply trimEnd_whitespace. assumption.
Qed.

Lemma allSpaces_whitespace (sp : Js.str) :
  allSpaces sp = true -> forallb Js.isWhiteSpace sp = true.
Proof.
  unfold allSpaces. rewrite !forallb_forall. intros H x I.
  specialize (H x I). apply N.eqb_eq in H. subst x. reflexivity.
Qed.

(** X3: a qualifier marker at the end of a title is removed together with
    the spaces in front of it.  For a non-empty title [p] without opening
    parenthesis and without a space followed by [b] or [B], and for any
    spelling of [(dub)], [(sub)], [(uncensored)], [(uncut)], [(subbed)] or
    [(dubbed)] in upper or lower case, [p], a space and the marker
    normalise to what [p] alone normalises to. *)
Theorem trailing_qualifier_is_removed (p marker : Js.str) :
  p <> [] -> ~ In 40%N p -> hasSpaceB p = false ->
  In (Js.toLowerCase marker) qualifiers ->
  sanitizeTitle (Some (p ++ 32%N :: marker)) = sanitizeTitle (Some p).
Proof.
  intros NE P B Q.
  rewrite (sanitizeTitle_plain p NE P B).
  rewrite sanitizeTitle_nonempty by (destruct p; discriminate).
  assert (L : Js.toLowerCase (p ++ 32%N :: marker) =
              Js.toLowerCase p ++ 32%N :: Js.toLowerCase marker).
  { apply toLowerCase_space. }
  rewrite L. clear L.
  apply toLowerCase_no_parenthesis in P. apply toLowerCase_no_spaceB in B.
  set (u := Js.toLowerCase p) in *.
  assert (R : Re.remove Re.qualifier (u ++ 32%N :: Js.toLowerCase marker) =
              withoutSpacesAtEnd u).
  { unfold Re.remove.
    rewrite (search_qualifier_tail _ Q u [] P). simpl.
    apply app_nil_r. }
  rewrite R. clear R.
  destruct (withoutSpacesAtEnd_spec u) as (sp & E & S).
  set (v := withoutSpacesAtEnd u) in *.
  assert (Pv : ~ In 40%N v).
  { intros I. apply P. rewrite E. apply in_or_app. auto. }
  assert (Bv : hasSpaceB v = false).
  { apply (hasSpaceB_prefix v sp). rewrite <- E. exact B. }
  destruct (no_parenthesis_no_qualifier _ Pv) as [_ A].
  rewrite (remove_unmatched _ _ A),
    (remove_unmatched _ _ (no_spaceB_no_bd _ Bv)).
  rewrite E.
  rewrite (trim_whitespace_end v sp (allSpaces_whitespace sp S)).
  reflexivity.
Qed.

Lemma trailing_qualifier_is_removed_witness :
  pokemon <> [] /\
  ~ In 40%N pokemon /\
  hasSpaceB pokemon = false /\
  In (Js.toLowerCase (Js.lit "(Dub)")) qualifiers /\
  sanitizeTitle (Some (pokemon ++ 32%N :: Js.lit "(Dub)")) =
    Some (Js.lit "pok" ++ 0xE9%N :: Js.lit "mon journeys") /\
  sanitizeTitle (Some (pokemon ++ 32%N :: Js.lit "(Dub)")) =
  sanitizeTitle (Some pokemon).
Proof.
  assert (P : ~ In 40%N pokemon).
  { vm_compute. intros H. decompose [or] H; try discriminate; assumption. }
  assert (Q : In (Js.toLowerCase (Js.lit "(Dub)")) qualifiers).
  { vm_compute. auto. }
  split; [vm_compute; discriminate|].
  split; [exact P|].
  split; [reflexivity|].
  split; [exact Q|].
  split; [vm_compute; reflexivity|].
  apply (trailing_qualifier_is_removed pokemon (Js.lit "(Dub)"));
    [vm_compute; discriminate | exact P | reflexivity | exact Q].
Defined.

(** ** [FindBestMatchByTitles]: edge cases and shape of the result *)

Lemma findBestMatch_no_candidates (m : option Js.str) :
  StringSimilarity.findBestMatch m [] = Throw ErrBadArguments.
Proof. destruct m; reflexivity. Qed.

Lemma representation_no_candidates (rep : option Js.str) :
  representation rep [] =
  if truthy rep then Throw ErrBadArguments else Ok [].
Proof.
  unfold representation. destruct (truthy rep); [|reflexivity].
  rewrite findBestMatch_no_candidates. reflexivity.
Qed.

Lemma no_candidates (T : Type) (sourceTitle : option Title)
      (results : list (Input T)) :
  defined (List.map title results) = [] ->
  FindBestMatchByTitles sourceTitle results =
  if hasRepresentation sourceTitle then Throw ErrBadArguments else Ok noMatch.
Proof.
  intros D. unfold FindBestMatchByTitles, resultTitlesOf. rewrite D.
  cbn [mapM bind].
  destruct sourceTitle as [[s|t]|]; [| |reflexivity].
  - cbn [truthyTitle hasRepresentation].
    destruct (truthy (Some s)); [|reflexivity].
    cbn [matchesOf]. rewrite findBestMatch_no_candidates. reflexivity.
  - cbn [truthyTitle hasRepresentation matchesOf].
    rewrite !representation_no_candidates.
    destruct (truthy (english t)); [reflexivity|].
    destruct (truthy (romaji t)); [reflexivity|].
    destruct (truthy (native t)); reflexivity.
Qed.

(** X4: when no candidate entry has a defined title (in particular when
    the candidate list is empty), [FindBestMatchByTitles] does not report
    "no match": it throws the [Bad arguments] error of [findBestMatch] as
    soon as the source title has a representation to match, and returns
    the no-match result only for a source title that has none. *)
Theorem no_candidates_is_an_error (T : Type) (sourceTitle : option Title)
        (results : list (Input T)) :
  defined (List.map title results) = [] ->
  FindBestMatchByTitles sourceTitle results =
  if hasRepresentation sourceTitle then Throw ErrBadArguments else Ok noMatch.
Proof. exact (no_candidates T sourceTitle results). Qed.

Lemma no_candidates_is_an_error_witness :
  defined (List.map title [untitled; untitled]) = [] /\
  FindBestMatchByTitles (Some (Plain (Js.lit "Naruto"))) [untitled; untitled] =
    Throw ErrBadArguments /\
  FindBestMatchByTitles (Some (Plain [])) [untitled; untitled] = Ok noMatch.
Proof.
  split; [reflexivity|]. split.
  - apply (no_candidates_is_an_error unit (Some (Plain (Js.lit "Naruto")))
             [untitled; untitled]).
    reflexivity.
  - apply (no_candidates_is_an_error unit (Some (Plain [])) [untitled; untitled]).
    reflexivity.
Defined.

Lemma mapM_length (A B : Type) (f : A -> result B) :
  forall (l : list A) (out : list B),
    mapM f l = Ok out -> List.length out = List.length l.
Proof.
  induction l as [|a l IH]; intros out H; simpl in H.
  - injection H as <-. reflexivity.
  - destruct (f a) as [b|]; cbn [bind] in H; [|discriminate].
    destruct (mapM f l) as [bs|]; cbn [bind] in H; [|discriminate].
    injection H as <-. simpl. f_equal. apply IH. reflexivity.
Qed.

Lemma defined_length (A : Type) (l : list (option A)) :
  List.length (defined l) <= List.length l.
Proof.
  induction l as [|[a|] l IH]; simpl; lia.
Qed.

Lemma resultTitlesOf_length (T : Type) (results : list (Input T))
      (rt : list (option Js.str)) :
  resultTitlesOf results = Ok rt -> List.length rt <= List.length results.
Proof.
  unfold resultTitlesOf. intros H. apply mapM_length in H. rewrite H.
  eapply Nat.le_trans; [apply defined_length|]. rewrite length_map. lia.
Qed.

Lemma resultTitlesOf_In (T : Type) :
  forall (results : list (Input T)) (rt : list (option Js.str))
         (x : option Js.str),
    resultTitlesOf results = Ok rt -> In x rt ->
    exists e s, In e results /\ title e = Some (Plain s) /\
                x = sanitizeTitle (Some s).
Proof.
  unfold resultTitlesOf.
  induction results as [|e results IH]; intros rt x H I; simpl in H.
  - injection H as <-. destruct I.
  - destruct (title e) as [[s|t]|] eqn:E; simpl in H.
    + destruct (mapM sanitizeCandidate (defined (List.map title results)))
        as [rt'|] eqn:M; cbn [bind] in H; [|discriminate].
      injection H as <-. destruct I as [<-|I].
      * exists e, s. simpl. auto.
      * destruct (IH rt' x eq_refl I) as (e' & s' & I' & E' & X).
        exists e', s'. simpl. auto.
    + discriminate.
    + destruct (IH rt x H I) as (e' & s' & I' & E' & X).
      exists e', s'. simpl. auto.
Qed.

Lemma elect_fold_none (scores : Obj.t Q) :
  forall (es : list (Js.str * frequency)) (l0 : Leader),
    leader (fold_left (consider scores) es l0) = None ->
    fold_left (consider scores) es l0 = l0.
Proof.
  induction es as [|[k f] es IH]; intros l0 H; [reflexivity|].
  cbn [fold_left] in *.
  pose proof (IH _ H) as E. rewrite E in H |- *.
  unfold consider in *. destruct (exceeds f (maxFrequency l0)).
  - simpl in H. discriminate.
  - reflexivity.
Qed.

Lemma decide_shape (T : Type) (results : list (Input T))
      (t : Title) (rt : list (option Js.str)) (ms : list Match) :
  resultTitlesOf results = Ok rt ->
  matchesOf t rt = Ok ms ->
  match mostCommonMatch (decide (tally rt ms)) with
  | None =>
      mostCommonMatchIndex (decide (tally rt ms)) = (-1)%Z /\
      similarityScore (decide (tally rt ms)) = 0%Q
  | Some w =>
      Obj.inherited w = false /\
      (exists e, In e results /\ sanitizedTitleOf e = Some w) /\
      (w = [] -> mostCommonMatchIndex (decide (tally rt ms)) = (-1)%Z) /\
      (w <> [] ->
       (0 <= mostCommonMatchIndex (decide (tally rt ms))
        < Z.of_nat (List.length results))%Z)
  end.
Proof.
  intros R M. cbn [decide mostCommonMatch mostCommonMatchIndex similarityScore].
  destruct (leader (elect (tally rt ms))) as [w|] eqn:L.
  - destruct (@elect_spec rt ms w L) as (N & I & _ & _ & X).
    apply in_map_iff in I. destruct I as (m & Tm & I).
    pose proof (matchesOf_targets _ _ M m I) as Irt. rewrite Tm in Irt.
    split; [assumption|]. split.
    + destruct (resultTitlesOf_In T results rt (Some w) R Irt)
        as (e & s & Ie & Te & Se).
      exists e. split; [assumption|]. unfold sanitizedTitleOf. rewrite Te.
      congruence.
    + split.
      * intros ->. reflexivity.
      * intros NE. destruct w as [|c w]; [congruence|]. cbn [truthy].
        rewrite X.
        destruct (indexOfFrom_first (c :: w) rt 0%Z Irt) as (i & E1 & E2 & _).
        unfold indexOf. rewrite E1.
        assert (Li : i < List.length rt)
          by (apply nth_error_Some; congruence).
        pose proof (resultTitlesOf_length T results rt R). lia.
  - split; [reflexivity|].
    unfold elect in *. rewrite (elect_fold_none _ _ _ L). reflexivity.
Qed.

Lemma FindBestMatchByTitles_cases (T : Type) (sourceTitle : option Title)
      (results : list (Input T)) (r : BestMatch) :
  FindBestMatchByTitles sourceTitle results = Ok r ->
  r = noMatch \/
  exists t rt ms,
    sourceTitle = Some t /\ resultTitlesOf results = Ok rt /\
    matchesOf t rt = Ok ms /\ r = decide (tally rt ms).
Proof.
  unfold FindBestMatchByTitles.
  destruct sourceTitle as [t|]; [|intros [= <-]; auto].
  destruct (truthyTitle (Some t)); [|intros [= <-]; auto].
  destruct (resultTitlesOf results) as [rt|]; cbn [bind]; [|discriminate].
  destruct (matchesOf t rt) as [ms|] eqn:M; cbn [bind]; [|discriminate].
  intros [= <-]. right. exists t, rt, ms. auto.
Qed.

Lemma FindBestMatchByTitles_shape (T : Type) (sourceTitle : option Title)
      (results : list (Input T)) (r : BestMatch) :
  FindBestMatchByTitles sourceTitle results = Ok r ->
  match mostCommonMatch r with
  | None => mostCommonMatchIndex r = (-1)%Z /\ similarityScore r = 0%Q
  | Some w =>
      Obj.inherited w = false /\
      (exists e, In e results /\ sanitizedTitleOf e = Some w) /\
      (w = [] -> mostCommonMatchIndex r = (-1)%Z) /\
      (w <> [] ->
       (0 <= mostCommonMatchIndex r < Z.of_nat (List.length results))%Z)
  end.
Proof.
  intros H. apply FindBestMatchByTitles_cases in H.
  destruct H as [->|(t & rt & ms & _ & R & M & ->)].
  - simpl. auto.
  - exact (decide_shape T results t rt ms R M).
Qed.

(** X5: every result [FindBestMatchByTitles] returns is well formed.
    Without a winner the index is -1 and the score is 0.  A winner is the
    normalised title of one of the candidate entries and never the name of
    a member of [Object.prototype]; its index is -1 when it is the empty
    string, and otherwise a position inside the candidate list. *)
Theorem result_is_well_formed (T : Type) (sourceTitle : option Title)
        (results : list (Input T)) (r : BestMatch) :
  FindBestMatchByTitles sourceTitle results = Ok r ->
  match mostCommonMatch r with
  | None => mostCommonMatchIndex r = (-1)%Z /\ similarityScore r = 0%Q
  | Some w =>
      Obj.inherited w = false /\
      (exists e, In e results /\ sanitizedTitleOf e = Some w) /\
      (w = [] -> mostCommonMatchIndex r = (-1)%Z) /\
      (w <> [] ->
       (0 <= mostCommonMatchIndex r < Z.of_nat (List.length results))%Z)
  end.
Proof. exact (FindBestMatchByTitles_shape T sourceTitle results r). Qed.

Lemma result_is_well_formed_witness :
  FindBestMatchByTitles (Some spyTitle) [titled "Bleach"; titled "Spy x Family"] =
    Ok {| mostCommonMatch := Some (Js.lit "spy x family");
          mostCommonMatchIndex := 1;
          similarityScore := 14 # 17 |} /\
  Obj.inherited (Js.lit "spy x family") = false /\
  (exists e, In e [titled "Bleach"; titled "Spy x Family"] /\
             sanitizedTitleOf e = Some (Js.lit "spy x family")) /\
  (Js.lit "spy x family" = [] -> 1%Z = (-1)%Z) /\
  (Js.lit "spy x family" <> [] ->
   (0 <= 1 < Z.of_nat (List.length [titled "Bleach"; titled "Spy x Family"]))%Z).
Proof.
  split; [vm_compute; reflexivity|].
  apply (result_is_well_formed unit (Some spyTitle)
           [titled "Bleach"; titled "Spy x Family"]
           {| mostCommonMatch := Some (Js.lit "spy x family");
              mostCommonMatchIndex := 1;
              similarityScore := 14 # 17 |}).
  vm_compute; reflexivity.
Defined.

(** ** [FindBestMatchByTitles]: a plain string title *)







(** ** [FindBestMatchByTitles]: the vote over ordinary targets *)

(** X7: when the source title is truthy and no target that received a
    vote is an array index or the name of a member of [Object.prototype],
    the winner is a target of maximal vote count, and every target voted
    for before the winner's first vote has strictly fewer votes: ties go
    to the earliest representation. *)
Theorem ordinary_targets_highest_count_earliest_wins
        (T : Type) (t : Title) (results : list (Input T))
        (rt : list (option Js.str)) (ms : list Match) :
  truthyTitle (Some t) = true ->
  resultTitlesOf results = Ok rt ->
  matchesOf t rt = Ok ms ->
  ms <> [] ->
  (forall m, In m ms -> ordinary (target m) = true) ->
  exists r w before m after,
    FindBestMatchByTitles (Some t) results = Ok r /\
    mostCommonMatch r = Some w /\
    ms = before ++ m :: after /\
    target m = w /\
    (forall m', In m' before -> count (target m') ms < count w ms) /\
    (forall m', In m' ms -> count (target m') ms <= count w ms).
Proof.
  intros Tt R M NE O.
  destruct (@highest_count_wins_among_ordinary_keys rt ms NE O)
    as (w & b & m & a & L & E & Tm & B & A).
  exists (decide (tally rt ms)), w, b, m, a.
  repeat split; auto.
  unfold FindBestMatchByTitles. rewrite Tt, R. cbn [bind]. rewrite M.
  reflexivity.
Qed.


Lemma ordinary_targets_highest_count_earliest_wins_witness :
  truthyTitle (Some narutoOrBleach) = true /\
  resultTitlesOf [titled "Naruto"; titled "Bleach"] =
    Ok [Some (Js.lit "naruto"); Some (Js.lit "bleach")] /\
  matchesOf narutoOrBleach [Some (Js.lit "naruto"); Some (Js.lit "bleach")] =
    Ok [ {| target := Js.lit "naruto"; score := 1 |};
         {| target := Js.lit "bleach"; score := 1 |};
         {| target := Js.lit "bleach"; score := 1 |} ] /\
  exists r w before m after,
    FindBestMatchByTitles (Some narutoOrBleach)
                          [titled "Naruto"; titled "Bleach"] = Ok r /\
    mostCommonMatch r = Some w /\
    [ {| target := Js.lit "naruto"; score := 1 |};
      {| target := Js.lit "bleach"; score := 1 |};
      {| target := Js.lit "bleach"; score := 1 |} ] = before ++ m :: after /\
    target m = w /\
    (forall m', In m' before ->
                count (target m')
                      [ {| target := Js.lit "naruto"; score := 1 |};
                        {| target := Js.lit "bleach"; score := 1 |};
                        {| target := Js.lit "bleach"; score := 1 |} ]
                < count w
                        [ {| target := Js.lit "naruto"; score := 1 |};
                          {| target := Js.lit "bleach"; score := 1 |};
                          {| target := Js.lit "bleach"; score := 1 |} ]) /\
    (forall m', In m' [ {| target := Js.lit "naruto"; score := 1 |};
                        {| target := Js.lit "bleach"; score := 1 |};
                        {| target := Js.lit "bleach"; score := 1 |} ] ->
                count (target m')
                      [ {| target := Js.lit "naruto"; score := 1 |};
                        {| target := Js.lit "bleach"; score := 1 |};
                        {| target := Js.lit "bleach"; score := 1 |} ]
                <= count w
                         [ {| target := Js.lit "naruto"; score := 1 |};
                           {| target := Js.lit "bleach"; score := 1 |};
                           {| target := Js.lit "bleach"; score := 1 |} ]).
Proof.
  split; [reflexivity|].
  split; [vm_compute; reflexivity|].
  split; [vm_compute; reflexivity|].
  apply (ordinary_targets_highest_count_earliest_wins unit narutoOrBleach
           [titled "Naruto"; titled "Bleach"]
           [Some (Js.lit "naruto"); Some (Js.lit "bleach")]).
  - reflexivity.
  - vm_compute; reflexivity.
  - vm_compute; reflexivity.
  - discriminate.
  - intros m I. simpl in I. decompose [or] I; try tauto; subst m;
      vm_compute; reflexivity.
Defined.

(** ** [mapTitles]: what a group holds, order of the groups, failures *)

Lemma index_names_an_entry (T : Type) (sourceTitle : option Title)
      (results : list (Input T)) (r : BestMatch) :
  FindBestMatchByTitles sourceTitle results = Ok r ->
  mostCommonMatchIndex r <> (-1)%Z ->
  exists e, nth_error results (Z.to_nat (mostCommonMatchIndex r)) = Some e.
Proof.
  intros H N. apply FindBestMatchByTitles_shape in H.
  destruct (mostCommonMatch r) as [w|]; [|tauto].
  destruct H as (_ & _ & E & B).
  destruct w as [|c w]; [exfalso; auto|].
  assert (L : (0 <= mostCommonMatchIndex r < Z.of_nat (List.length results))%Z)
    by (apply B; discriminate).
  destruct (nth_error results (Z.to_nat (mostCommonMatchIndex r))) as [e|] eqn:X;
    [eauto|].
  apply nth_error_None in X. lia.
Qed.

Lemma recordedFrom_entries (T : Type) (baseTitle : option Title) :
  forall (others : list (list (Input T))) (rs : list BestMatch),
    Forall2 (fun otherData r =>
               FindBestMatchByTitles baseTitle otherData = Ok r) others rs ->
    forall i,
      Forall (fun p => exists n otherData e,
                  fst p = (website n, Some e) /\
                  i < n <= i + List.length others /\
                  nth_error others (n - i - 1) = Some otherData /\
                  In e otherData)
             (recordedFrom i others rs).
Proof.
  induction 1 as [|od r others rs H F IH]; intros i; [constructor|].
  cbn [recordedFrom].
  assert (Tail : Forall (fun p => exists n otherData e,
                            fst p = (website n, Some e) /\
                            i < n <= i + List.length (od :: others) /\
                            nth_error (od :: others) (n - i - 1) = Some otherData /\
                            In e otherData)
                        (recordedFrom (i + 1) others rs)).
  { eapply Forall_impl; [|apply (IH (i + 1))].
    intros p (n & od' & e & E1 & E2 & E3 & E4).
    exists n, od', e. simpl List.length. repeat split; auto; try lia.
    replace (n - i - 1) with (S (n - (i + 1) - 1)) by lia. exact E3. }
  destruct (mostCommonMatchIndex r =? -1)%Z eqn:X; [exact Tail|].
  constructor; [|exact Tail].
  apply Z.eqb_neq in X.
  destruct (index_names_an_entry T baseTitle od r H X) as (e & E).
  exists (i + 1), od, e. cbn [fst]. rewrite E. simpl List.length.
  repeat split; try lia.
  - replace (i + 1 - i - 1) with 0 by lia. reflexivity.
  - eapply nth_error_In. exact E.
Qed.

Lemma recordedFrom_above (T : Type) :
  forall (others : list (list (Input T))) (rs : list BestMatch) (i : nat),
    Forall (fun p => exists n, fst (fst p) = website n /\ i < n)
           (recordedFrom i others rs).
Proof.
  induction others as [|od others IH]; intros [|r rs] i; cbn [recordedFrom];
    try constructor.
  assert (Tail : Forall (fun p => exists n, fst (fst p) = website n /\ i < n)
                        (recordedFrom (i + 1) others rs)).
  { eapply Forall_impl; [|apply (IH rs (i + 1))].
    intros p (n & E & L). exists n. split; [assumption | lia]. }
  destruct (mostCommonMatchIndex r =? -1)%Z; [exact Tail|].
  constructor; [|exact Tail].
  exists (i + 1). split; [reflexivity | lia].
Qed.

Lemma recordedFrom_distinct (T : Type) :
  forall (others : list (list (Input T))) (rs : list BestMatch) (i : nat),
    NoDup (List.map (fun p => fst (fst p)) (recordedFrom i others rs)).
Proof.
  induction others as [|od others IH]; intros [|r rs] i; cbn [recordedFrom];
    try constructor.
  destruct (mostCommonMatchIndex r =? -1)%Z; [apply IH|].
  cbn [List.map fst]. constructor; [|apply IH].
  intros I. apply in_map_iff in I. destruct I as (p & E & I).
  pose proof (recordedFrom_above T others rs (i + 1)) as A.
  rewrite Forall_forall in A. destruct (A p I) as (n & E' & L).
  rewrite E in E'. injection E' as <-. lia.
Qed.

(** X8: in every group [mapTitles] emits the keys are distinct; the entry
    under [base] is an entry of the base source with a truthy title; and
    every other key is [website n] for a source number [n] between 2 and
    the number of sources, bound to an entry of that source, never to
    [undefined]. *)
Theorem group_entries_come_from_their_sources
        (T : Type) (extractedData : list (list (Input T)))
        (groups : list (MatchGroup.t T)) (g : MatchGroup.t T) :
  mapTitles extractedData = Ok groups ->
  In g groups ->
  NoDup (List.map fst (MatchGroup.data g)) /\
  forall key v,
    In (key, v) (MatchGroup.data g) ->
    match key with
    | base =>
        exists b, v = Some b /\ In b (hd [] extractedData) /\
                  truthyTitle (title b) = true
    | website n =>
        2 <= n <= List.length extractedData /\
        exists e, v = Some e /\ In e (nth (n - 1) extractedData [])
    end.
Proof.
  intros H I.
  destruct (@mapTitles_spec _ _ _ _ H I) as (baseData & others & b & -> & Ib & G).
  destruct G as (Tt & rs & F & _ & D & _).
  rewrite D. split.
  - cbn [List.map fst]. constructor.
    + intros C. rewrite map_map in C. apply in_map_iff in C.
      destruct C as (p & E & Ip).
      pose proof (recordedFrom_above T others rs 1) as A.
      rewrite Forall_forall in A. destruct (A p Ip) as (n & E' & _).
      rewrite E' in E. discriminate.
    + rewrite map_map. apply recordedFrom_distinct.
  - intros key v [[= <- <-]|Iv].
    + exists b. simpl. auto.
    + apply in_map_iff in Iv. destruct Iv as (p & E & Ip).
      pose proof (recordedFrom_entries T (title b) others rs F 1) as A.
      rewrite Forall_forall in A.
      destruct (A p Ip) as (n & od & e & E1 & E2 & E3 & E4).
      rewrite E1 in E. injection E as <- <-.
      simpl List.length. split; [lia|].
      exists e. split; [reflexivity|].
      destruct n as [|[|n]]; try lia.
      replace (S (S n) - 1) with (S n) by lia. cbn [nth].
      replace (S (S n) - 1 - 1) with n in E3 by lia.
      rewrite (nth_error_nth _ _ [] E3). exact E4.
Qed.

Lemma group_entries_come_from_their_sources_witness :
  mapTitles threeSources = Ok [threeSourcesGroup] /\
  NoDup (List.map fst (MatchGroup.data threeSourcesGroup)) /\
  forall key v,
    In (key, v) (MatchGroup.data threeSourcesGroup) ->
    match key with
    | base =>
        exists b, v = Some b /\ In b (hd [] threeSources) /\
                  truthyTitle (title b) = true
    | website n =>
        2 <= n <= List.length threeSources /\
        exists e, v = Some e /\ In e (nth (n - 1) threeSources [])
    end.
Proof.
  split; [vm_compute; reflexivity|].
  apply (group_entries_come_from_their_sources unit threeSources
           [threeSourcesGroup] threeSourcesGroup).
  - vm_compute; reflexivity.
  - simpl; auto.
Defined.

Lemma forEach_eachBase_order (T : Type) (others : list (list (Input T))) :
  forall (baseData : list (Input T)) (acc acc' : list (MatchGroup.t T)),
    forEach (eachBase others) baseData acc = Ok acc' ->
    exists new,
      acc' = acc ++ new /\
      subsequence (List.map (fun g => hd_error (MatchGroup.data g)) new)
                  (List.map (fun b => Some (base, Some b)) baseData).
Proof.
  induction baseData as [|b baseData IH]; intros acc acc' H.
  - simpl in H. injection H as <-. exists []. rewrite app_nil_r.
    split; [reflexivity | constructor].
  - cbn [forEach] in H.
    destruct (eachBase others acc b) as [acc1|] eqn:E; cbn [bind] in H;
      [|discriminate H].
    destruct (IH _ _ H) as (new & -> & S).
    apply eachBase_spec in E. destruct E as [->|(g & -> & G)].
    + exists new. split; [reflexivity|]. cbn [List.map].
      apply subsequence_skip. exact S.
    + exists (g :: new). rewrite <- app_assoc. split; [reflexivity|].
      destruct G as (_ & rs & _ & _ & D & _).
      cbn [List.map]. rewrite D. cbn [hd_error].
      apply subsequence_keep. exact S.
Qed.

(** X9: [mapTitles] emits the groups in the order of the base entries and
    at most one group per base entry: the sequence of the groups' [base]
    entries is the sequence of the base source's entries with some
    entries left out. *)
Theorem groups_follow_the_base_order
        (T : Type) (baseData : list (Input T)) (others : list (list (Input T)))
        (groups : list (MatchGroup.t T)) :
  mapTitles (baseData :: others) = Ok groups ->
  subsequence (List.map (fun g => hd_error (MatchGroup.data g)) groups)
              (List.map (fun b => Some (base, Some b)) baseData).
Proof.
  unfold mapTitles. intros H.
  destruct (forEach_eachBase_order T others baseData [] groups H)
    as (new & -> & S).
  exact S.
Qed.

Lemma groups_follow_the_base_order_witness :
  mapTitles [ [titled "Naruto"; untitled; titled "Bleach"];
              [titled "bleach"; titled "naruto (dub)"] ] =
    Ok [ {| MatchGroup.data :=
              [ (base, Some (titled "Naruto"));
                (website 2, Some (titled "naruto (dub)")) ];
            MatchGroup.score := Num 1 |};
         {| MatchGroup.data :=
              [ (base, Some (titled "Bleach"));
                (website 2, Some (titled "bleach")) ];
            MatchGroup.score := Num 1 |} ] /\
  subsequence
    [ Some (base, Some (titled "Naruto")); Some (base, Some (titled "Bleach")) ]
    (List.map (fun b => Some (base, Some b))
              [titled "Naruto"; untitled; titled "Bleach"]).
Proof.
  split; [vm_compute; reflexivity|].
  apply (groups_follow_the_base_order unit
           [titled "Naruto"; untitled; titled "Bleach"]
           [ [titled "bleach"; titled "naruto (dub)"] ]
           [ {| MatchGroup.data :=
                  [ (base, Some (titled "Naruto"));
                    (website 2, Some (titled "naruto (dub)")) ];
                MatchGroup.score := Num 1 |};
             {| MatchGroup.data :=
                  [ (base, Some (titled "Bleach"));
                    (website 2, Some (titled "bleach")) ];
                MatchGroup.score := Num 1 |} ]).
  vm_compute; reflexivity.
Defined.

Lemma eachSource_throws (T : Type) (baseTitle : option Title)
      (otherData : list (Input T)) (e0 : error) :
  FindBestMatchByTitles baseTitle otherData = Throw e0 ->
  forall (others : list (list (Input T))),
    In otherData others ->
    forall (i : nat) (matches : Matches T) (low : JsNumber),
    exists e, eachSource baseTitle i others matches low = Throw e.
Proof.
  intros H. induction others as [|od others IH]; intros I i matches low;
    [destruct I|].
  cbn [eachSource].
  destruct (FindBestMatchByTitles baseTitle od) as [r|e] eqn:E; cbn [bind];
    [|eauto].
  destruct I as [->|I]; [congruence|].
  destruct (negb (mostCommonMatchIndex r =? -1)%Z); apply IH; assumption.
Qed.

Lemma forEach_throws (T : Type) (others : list (list (Input T)))
      (b : Input T) :
  (forall acc, exists e, eachBase others acc b = Throw e) ->
  forall (baseData : list (Input T)),
    In b baseData ->
    forall acc, exists e, forEach (eachBase others) baseData acc = Throw e.
Proof.
  intros H. induction baseData as [|b' baseData IH]; intros I acc;
    [destruct I|].
  cbn [forEach].
  destruct (eachBase others acc b') as [acc1|e] eqn:E; cbn [bind]; [|eauto].
  destruct I as [->|I].
  - destruct (H acc) as (e & C). congruence.
  - apply IH. assumption.
Qed.

(** X10: one source without usable candidates makes the whole mapping
    fail.  If some entry of the base source has a title with a
    representation to match, and some other source has no entry with a
    defined title (for instance because its entry list is empty),
    [mapTitles] throws; it returns no groups, not even for the sources that
    do have entries. *)
Theorem empty_source_makes_mapTitles_throw
        (T : Type) (baseData : list (Input T)) (others : list (list (Input T)))
        (b : Input T) (otherData : list (Input T)) :
  In b baseData ->
  hasRepresentation (title b) = true ->
  In otherData others ->
  defined (List.map title otherData) = [] ->
  exists e, mapTitles (baseData :: others) = Throw e.
Proof.
  intros Ib R Io D. unfold mapTitles.
  apply (forEach_throws T others b); [|assumption].
  intros acc. unfold eachBase.
  assert (Tt : truthyTitle (title b) = true).
  { destruct (title b) as [[s|t]|]; simpl in *; auto. }
  rewrite Tt.
  pose proof (no_candidates T (title b) otherData D) as F. rewrite R in F.
  destruct (eachSource_throws T (title b) otherData ErrBadArguments F others Io
              1 [(base, Some b)] Infinity) as (e & E).
  rewrite E. cbn [bind]. eauto.
Qed.

Lemma empty_source_makes_mapTitles_throw_witness :
  In (titled "Naruto") [titled "Naruto"] /\
  hasRepresentation (title (titled "Naruto")) = true /\
  In [] [ [titled "naruto (dub)"]; [] ] /\
  defined (List.map (@title unit) []) = [] /\
  mapTitles [ [titled "Naruto"]; [titled "naruto (dub)"]; [] ] =
    Throw ErrBadArguments /\
  exists e, mapTitles ([titled "Naruto"] :: [ [titled "naruto (dub)"]; [] ]) =
            Throw e.
Proof.
  split; [simpl; auto|].
  split; [reflexivity|].
  split; [simpl; auto|].
  split; [reflexivity|].
  split; [vm_compute; reflexivity|].
  apply (empty_source_makes_mapTitles_throw unit [titled "Naruto"]
           [ [titled "naruto (dub)"]; [] ] (titled "Naruto") []).
  - simpl; auto.
  - reflexivity.
  - simpl; auto.
  - reflexivity.
Defined.
(** ** [fetchData]: the request it issues *)

Lemma mapM_encodePoint_error (ps : list Js.point) (e : error) :
  mapM Js.encodePoint ps = Throw e -> e = URIError.
Proof.
  induction ps as [|p ps IH]; [discriminate|].
  cbn [mapM]. destruct (Js.encodePoint p) as [piece|e'] eqn:E; cbn [bind].
  - destruct (mapM Js.encodePoint ps) as [pieces|e'']; cbn [bind];
      [discriminate|].
    intros [= <-]. apply IH. reflexivity.
  - intros [= <-]. destruct p as [c|h l]; cbn [Js.encodePoint] in E.
    + destruct (Js.isUnreserved c); [discriminate|].
      destruct (Js.isHighSurrogate c || Js.isLowSurrogate c);
        [congruence | discriminate].
    + discriminate.
Qed.

(** The one error of [encodeURIComponent] is the [URIError]. *)
Lemma encodeURIComponent_error (text : option Js.str) (e : error) :
  Js.encodeURIComponent text = Throw e -> e = URIError.
Proof.
  unfold Js.encodeURIComponent.
  destruct (mapM Js.encodePoint _) as [pieces|e'] eqn:E; cbn [bind];
    [discriminate|].
  intros [= <-]. exact (mapM_encodePoint_error _ _ E).
Qed.

Lemma mapM_encodePoint_lone (c : N) (ps : list Js.point) :
  Js.isHighSurrogate c || Js.isLowSurrogate c = true ->
  In (Js.Single c) ps ->
  mapM Js.encodePoint ps = Throw URIError.
Proof.
  intros S. induction ps as [|p ps IH]; intros I; [destruct I|].
  cbn [mapM]. destruct I as [->|I].
  - cbn [Js.encodePoint].
    assert (U : Js.isUnreserved c = false).
    { apply orb_true_iff in S.
      unfold Js.isHighSurrogate, Js.isLowSurrogate in S.
      assert (55296 <= c)%N.
      { destruct S as [S|S]; apply andb_true_iff in S; destruct S as [S _];
          apply N.leb_le in S; lia. }
      unfold Js.isUnreserved.
      repeat match goal with
             | |- context [(?a <=? ?b)%N] => destruct (N.leb_spec a b); try lia
             | |- context [(?a =? ?b)%N] => destruct (N.eqb_spec a b); try lia
             end;
        try reflexivity. }
    rewrite U, S. reflexivity.
  - destruct (Js.encodePoint p) as [piece|e] eqn:E; cbn [bind].
    + rewrite (IH I). reflexivity.
    + rewrite (mapM_encodePoint_error [p] e); [reflexivity|].
      cbn [mapM]. rewrite E. reflexivity.
Qed.

(** A search text with a surrogate that is not part of a pair cannot be
    encoded. *)
Lemma encodeURIComponent_lone_surrogate (text : Js.str) (c : N) :
  Js.isHighSurrogate c || Js.isLowSurrogate c = true ->
  In (Js.Single c) (Js.points text) ->
  Js.encodeURIComponent (Some text) = Throw URIError.
Proof.
  intros S I. unfold Js.encodeURIComponent.
  rewrite (mapM_encodePoint_lone c _ S I). reflexivity.
Qed.

(** Sample encodings: unreserved characters are kept, a space, [&] and
    non-ASCII text are escaped octet by octet, [undefined] is encoded as
    its name. *)
Lemma encodeURIComponent_examples :
  Js.encodeURIComponent (Some (Js.lit "one piece & (dub)!")) =
    Ok (Js.lit "one%20piece%20%26%20(dub)!") /\
  Js.encodeURIComponent (Some [0x70; 0xE9; 0x30B9; 0xD83D; 0xDE00]%N) =
    Ok (Js.lit "p%C3%A9%E3%82%B9%F0%9F%98%80") /\
  Js.encodeURIComponent (Some [0x61; 0xDE00]%N) = Throw URIError /\
  Js.encodeURIComponent None = Ok (Js.lit "undefined").
Proof. repeat split; vm_compute; reflexivity. Qed.

(** X11: [fetchData] issues at most one request and appends it to the
    network log.  With a query and variables it is a POST of both to the
    source URL itself, to which the search text is not appended.  With
    neither it is a GET of the source URL followed by the encoded search
    text; when the search text cannot be encoded, the [URIError] of
    [encodeURIComponent] leaves the method and no request is issued.  With
    only one of query and variables it issues no request and raises the
    error naming the missing field.  Where a request is issued, the result
    is the answer of the HTTP client. *)
Theorem fetchData_issues_at_most_one_request
        (http : Request -> result JsValue)
        (site : Website) (search : option Js.str) (net : Network) :
  exists requests,
    snd (fetchData http site search net) = net ++ requests /\
    match requests with
    | [] =>
        (truthy (query site) <> truthy (variables site) /\
         fst (fetchData http site search net) =
         Throw (if truthy (query site)
                then ErrNeedsVariables else ErrNeedsQuery)) \/
        (truthy (query site) = false /\ truthy (variables site) = false /\
         Js.encodeURIComponent search = Throw URIError /\
         fst (fetchData http site search net) = Throw URIError)
    | [request] =>
        fst (fetchData http site search net) = http request /\
        ((exists q v, query site = Some q /\ variables site = Some v /\
                      truthy (Some q) = true /\ truthy (Some v) = true /\
                      request = POST (url site) q v) \/
         (truthy (query site) = false /\ truthy (variables site) = false /\
          exists text,
            Js.encodeURIComponent search = Ok text /\
            request = GET (url site ++ text)))
    | _ :: _ :: _ => False
    end.
Proof.
  assert (Get :
    forall q v,
      truthy q = false -> truthy v = false ->
      match q, v with
      | Some (_ :: _), _ | _, Some (_ :: _) => False
      | _, _ => True
      end ->
      forall out,
      out = match Js.encodeURIComponent search with
            | Ok text => (http (GET (url site ++ text)),
                          net ++ [GET (url site ++ text)])
            | Throw e => (Throw e, net)
            end ->
      exists requests,
        snd out = net ++ requests /\
        match requests with
        | [] =>
            (truthy q <> truthy v /\
             fst out = Throw (if truthy q
                              then ErrNeedsVariables else ErrNeedsQuery)) \/
            (truthy q = false /\ truthy v = false /\
             Js.encodeURIComponent search = Throw URIError /\
             fst out = Throw URIError)
        | [request] =>
            fst out = http request /\
            ((exists q' v', q = Some q' /\ v = Some v' /\
                            truthy (Some q') = true /\ truthy (Some v') = true /\
                            request = POST (url site) q' v') \/
             (truthy q = false /\ truthy v = false /\
              exists text,
                Js.encodeURIComponent search = Ok text /\
                request = GET (url site ++ text)))
        | _ :: _ :: _ => False
        end).
  { intros q v Tq Tv _ out ->.
    destruct (Js.encodeURIComponent search) as [text|e] eqn:E.
    - eexists. split; [reflexivity|]. cbv iota.
      split; [reflexivity|]. right. split; [exact Tq|]. split; [exact Tv|].
      exists text. split; reflexivity.
    - rewrite (encodeURIComponent_error _ _ E). exists [].
      rewrite app_nil_r. split; [reflexivity|]. right. auto. }
  unfold fetchData.
  destruct (query site) as [[|c q]|] eqn:Q;
    destruct (variables site) as [[|d v]|] eqn:V;
    cbn [truthy orb].
  - apply (Get (Some []) (Some [])); auto.
    destruct (Js.encodeURIComponent search); reflexivity.
  - exists []. rewrite app_nil_r.
    split; [reflexivity|]. left. split; [discriminate | reflexivity].
  - apply (Get (Some []) None); auto.
    destruct (Js.encodeURIComponent search); reflexivity.
  - exists []. rewrite app_nil_r.
    split; [reflexivity|]. left. split; [discriminate | reflexivity].
  - eexists. split; [reflexivity|]. cbv iota.
    split; [reflexivity|]. left. exists (c :: q), (d :: v). repeat split.
  - exists []. rewrite app_nil_r.
    split; [reflexivity|]. left. split; [discriminate | reflexivity].
  - apply (Get None (Some [])); auto.
    destruct (Js.encodeURIComponent search); reflexivity.
  - exists []. rewrite app_nil_r.
    split; [reflexivity|]. left. split; [discriminate | reflexivity].
  - apply (Get None None); auto.
    destruct (Js.encodeURIComponent search); reflexivity.
Qed.

(** ** [extractData]: API mode *)

Lemma mapM_checkItem_truthy :
  forall (items out : list JsValue),
    mapM checkItem items = Ok out ->
    Forall (fun item => exists t, titleOf item = Ok t /\ truthyValue t = true)
           items.
Proof.
  induction items as [|item items IH]; intros out H; [constructor|].
  simpl in H. unfold checkItem at 1 in H.
  destruct (titleOf item) as [t|] eqn:E; cbn [bind] in H; [|discriminate H].
  destruct (truthyValue t) eqn:V; cbn [negb bind] in H; [|discriminate H].
  destruct (mapM checkItem items) as [out'|] eqn:M; cbn [bind] in H;
    [|discriminate H].
  constructor; [eauto | eapply IH; reflexivity].
Qed.

(** X12: when API-mode extraction succeeds, the result is the array
    [findArray] found, with the same elements in the same order, and
    reading [title] on each element yields a truthy value. *)
Theorem api_extraction_returns_the_found_array
        (scrape : JsValue -> Website -> result (list JsValue))
        (stack : nat) (data : JsValue) (site : Website) (out : list JsValue) :
  apiMode site = true ->
  extractData scrape stack data site = Ok out ->
  findArray stack data = Ok (Some out) /\
  Forall (fun item => exists t, titleOf item = Ok t /\ truthyValue t = true) out.
Proof.
  intros A. unfold extractData. rewrite A.
  destruct (findArray stack data) as [[items|]|]; cbn [bind];
    try discriminate.
  intros H. pose proof (mapM_checkItem_truthy items out H) as F.
  apply mapM_checkItem_ok in H. subst out. auto.
Qed.

Lemma api_extraction_returns_the_found_array_witness :
  apiMode restSite = true /\
  extractData (fun _ _ => Ok []) 8 pagePayload restSite =
    Ok [ JObject
           [ (Js.lit "siteUrl", JString (Js.lit "https://anilist.co/anime/1"));
             (Js.lit "title",
              JObject [ (Js.lit "english", JString (Js.lit "Naruto"));
                        (Js.lit "native", JNull) ]) ] ] /\
  findArray 8 pagePayload =
    Ok (Some [ JObject
                 [ (Js.lit "siteUrl", JString (Js.lit "https://anilist.co/anime/1"));
                   (Js.lit "title",
                    JObject [ (Js.lit "english", JString (Js.lit "Naruto"));
                              (Js.lit "native", JNull) ]) ] ]) /\
  Forall (fun item => exists t, titleOf item = Ok t /\ truthyValue t = true)
         [ JObject
             [ (Js.lit "siteUrl", JString (Js.lit "https://anilist.co/anime/1"));
               (Js.lit "title",
                JObject [ (Js.lit "english", JString (Js.lit "Naruto"));
                          (Js.lit "native", JNull) ]) ] ].
Proof.
  split; [reflexivity|].
  split; [reflexivity|].
  apply (api_extraction_returns_the_found_array (fun _ _ => Ok []) 8
           pagePayload restSite); reflexivity.
Defined.

(** X13: on a payload that has no non-empty string and no property named
    [hasOwnProperty] outside its arrays, and whose objects are nested less
    deeply than the stack allows, API-mode extraction is the depth-first,
    pre-order search: it checks and returns the elements of the first
    array of the walk (also when that array is empty), and raises the
    array error when the payload holds no array. *)
Theorem api_extraction_on_text_free_payload
        (scrape : JsValue -> Website -> result (list JsValue))
        (stack : nat) (data : JsValue) (site : Website) :
  apiMode site = true ->
  textFree data = true ->
  depth data <= stack ->
  extractData scrape stack data site =
    match firstArray data with
    | None => Throw ErrNoArray
    | Some items => mapM checkItem items
    end.
Proof.
  intros A P D. unfold extractData.
  rewrite A, (@findArray_textFree stack data P D). reflexivity.
Qed.

Lemma api_extraction_on_text_free_payload_witness :
  apiMode restSite = true /\
  textFree pagePayload = true /\
  depth pagePayload <= 8 /\
  extractData (fun _ _ => Ok []) 8 pagePayload restSite =
    match firstArray pagePayload with
    | None => Throw ErrNoArray
    | Some items => mapM checkItem items
    end.
Proof.
  split; [reflexivity|].
  split; [reflexivity|].
  split; [vm_compute; lia|].
  apply (api_extraction_on_text_free_payload (fun _ _ => Ok []) 8
           pagePayload restSite);
    [reflexivity | reflexivity | vm_compute; lia].
Defined.

(** ** [extractData]: HTML mode *)

Lemma split_without (sep : N) (s : Js.str) :
  ~ In sep s -> split sep s = (s, []).
Proof.
  induction s as [|c s IH]; intros N; [reflexivity|].
  cbn [split]. rewrite IH by (intros I; apply N; simpl; auto).
  destruct (c =? sep)%N eqn:E; [|reflexivity].
  apply N.eqb_eq in E. exfalso. apply N. simpl. auto.
Qed.

Lemma split_at_first (sep : N) (s rest : Js.str) :
  ~ In sep s ->
  split sep (s ++ sep :: rest) =
  (s, fst (split sep rest) :: snd (split sep rest)).
Proof.
  induction s as [|c s IH]; intros N.
  - cbn [app split]. rewrite N.eqb_refl.
    destruct (split sep rest); reflexivity.
  - change ((c :: s) ++ sep :: rest) with (c :: (s ++ sep :: rest)).
    cbn [split]. rewrite IH by (intros I; apply N; simpl; auto).
    destruct (c =? sep)%N eqn:E; [|reflexivity].
    apply N.eqb_eq in E. exfalso. apply N. simpl. auto.
Qed.

(** X14: the [selector@attribute] convention of a field.  A value without
    [@] yields the trimmed text of the descendants the whole value
    selects.  A value [selector@attribute...] with a non-empty attribute
    name yields that attribute of the selected descendants, or the empty
    string when there is none; only the text between the first and the
    second [@] is the attribute name.  A value that ends in [@] (an empty
    attribute name) yields the trimmed text. *)
Theorem field_selector_attribute_convention
        (Element : Type)
        (attr : Element -> Js.str -> Js.str -> option Js.str)
        (text : Element -> Js.str -> Js.str)
        (element : Element) (selector attribute more : Js.str) :
  ~ In 64%N selector ->
  ~ In 64%N attribute ->
  extractField attr text element selector = Js.trim (text element selector) /\
  extractField attr text element (selector ++ [64%N]) =
    Js.trim (text element selector) /\
  (attribute <> [] ->
   extractField attr text element (selector ++ 64%N :: attribute) =
     match attr element selector attribute with
     | Some v => v
     | None => []
     end /\
   extractField attr text element
                (selector ++ 64%N :: attribute ++ 64%N :: more) =
     match attr element selector attribute with
     | Some v => v
     | None => []
     end).
Proof.
  intros S A. unfold extractField. split; [|split].
  - rewrite split_without by assumption. reflexivity.
  - rewrite split_at_first by assumption. reflexivity.
  - intros NE. split.
    + rewrite split_at_first by assumption.
      rewrite split_without by assumption. cbn [fst snd].
      destruct attribute; [congruence | reflexivity].
    + rewrite split_at_first by assumption.
      rewrite split_at_first by assumption. cbn [fst snd].
      destruct attribute; [congruence | reflexivity].
Qed.

Lemma field_selector_attribute_convention_witness :
  ~ In 64%N (Js.lit ".img img") /\
  ~ In 64%N (Js.lit "src") /\
  Js.lit "src" <> [] /\
  extractField (fun (_ : unit) sel a =>
                  if Js.eqb a (Js.lit "src") then Some (Js.lit "/n.png") else None)
               (fun _ _ => Js.lit " Naruto ")
               tt (Js.lit ".img img" ++ 64%N :: Js.lit "src") =
    Js.lit "/n.png".
Proof.
  assert (S : ~ In 64%N (Js.lit ".img img")).
  { vm_compute. intros H. decompose [or] H; try discriminate; assumption. }
  assert (A : ~ In 64%N (Js.lit "src")).
  { vm_compute. intros H. decompose [or] H; try discriminate; assumption. }
  assert (NE : Js.lit "src" <> []) by (vm_compute; discriminate).
  split; [exact S|]. split; [exact A|]. split; [exact NE|].
  rewrite (proj1 (proj2 (proj2
             (field_selector_attribute_convention unit
                (fun (_ : unit) sel a =>
                   if Js.eqb a (Js.lit "src") then Some (Js.lit "/n.png") else None)
                (fun _ _ => Js.lit " Naruto ")
                tt (Js.lit ".img img") (Js.lit "src") [] S A)) NE)).
  reflexivity.
Defined.

Section EntryFacts.

Variable V : Type.

Lemma insertIndex_permutation (i : N) (p : Js.str * V)
      (l : list (N * (Js.str * V))) :
  Permutation (Obj.insertIndex i p l) ((i, p) :: l).
Proof.
  induction l as [|[j q] l IH]; simpl; [apply Permutation_refl|].
  destruct (i <? j)%N; [apply Permutation_refl|].
  eapply Permutation_trans; [apply perm_skip; exact IH | apply perm_swap].
Qed.

Lemma entries_permutation (o : Obj.t V) : Permutation (Obj.entries o) o.
Proof.
  unfold Obj.entries, Obj.named.
  induction o as [|[k v] o IH]; [apply Permutation_refl|].
  cbn [Obj.indexed List.filter fst].
  destruct (Obj.arrayIndex k) as [i|].
  - eapply Permutation_trans.
    + apply Permutation_app_tail. apply Permutation_map.
      apply insertIndex_permutation.
    + cbn [List.map snd app]. apply perm_skip. exact IH.
  - eapply Permutation_trans; [apply Permutation_sym, Permutation_middle|].
    apply perm_skip. exact IH.
Qed.

Lemma getOwn_permutation (k : Js.str) (o o' : Obj.t V) :
  NoDup (List.map fst o) -> Permutation o' o ->
  Obj.getOwn k o' = Obj.getOwn k o.
Proof.
  intros N P.
  assert (N' : NoDup (List.map fst o')).
  { eapply Permutation_NoDup; [|exact N].
    apply Permutation_map. apply Permutation_sym. exact P. }
  destruct (Obj.getOwn k o) as [v|] eqn:E.
  - apply getOwn_In in E. apply In_getOwn; [exact N'|].
    eapply Permutation_in; [apply Permutation_sym; exact P | exact E].
  - destruct (Obj.getOwn k o') as [v|] eqn:E'; [|reflexivity].
    apply getOwn_In in E'.
    assert (I : In (k, v) o) by (eapply Permutation_in; eauto).
    apply In_getOwn in I; [|exact N]. congruence.
Qed.

Lemma getOwn_entries (k : Js.str) (o : Obj.t V) :
  NoDup (List.map fst o) -> Obj.getOwn k (Obj.entries o) = Obj.getOwn k o.
Proof.
  intros N. apply getOwn_permutation; [exact N | apply entries_permutation].
Qed.

Lemma getOwn_absent (k : Js.str) (o : Obj.t V) :
  ~ In k (List.map fst o) -> Obj.getOwn k o = None.
Proof.
  intros N. destruct (Obj.getOwn k o) as [v|] eqn:E; [|reflexivity].
  apply getOwn_In in E. exfalso. apply N.
  apply (in_map fst) in E. exact E.
Qed.

End EntryFacts.

Section HtmlFacts.

Variable Element : Type.
Variable select : JsValue -> option Js.str -> result (list Element).
Variable attr : Element -> Js.str -> Js.str -> option Js.str.
Variable text : Element -> Js.str -> Js.str.

Lemma extractInto_keys (element : Element) :
  forall (es : list (Js.str * Js.str)) (acc : Obj.t Js.str),
    NoDup (List.map fst acc) ->
    NoDup (List.map fst (fold_left (extractInto attr text element) es acc)).
Proof.
  induction es as [|[k v] es IH]; intros acc N; [exact N|].
  cbn [fold_left]. apply IH. unfold extractInto.
  destruct (negb (Js.eqb k (Js.lit "mainSelector")) && truthy (Some v));
    [apply NoDup_set|]; exact N.
Qed.

Lemma extractInto_fold (element : Element) (key : Js.str) :
  forall (es : list (Js.str * Js.str)) (acc : Obj.t Js.str),
    NoDup (List.map fst es) ->
    Obj.getOwn key (fold_left (extractInto attr text element) es acc) =
    match Obj.getOwn key es with
    | Some value =>
        if negb (Js.eqb key (Js.lit "mainSelector")) && truthy (Some value)
           && negb (Js.eqb key (Js.lit "__proto__"))
        then Some (extractField attr text element value)
        else Obj.getOwn key acc
    | None => Obj.getOwn key acc
    end.
Proof.
  induction es as [|[k v] es IH]; intros acc N; [reflexivity|].
  cbn [fold_left]. inversion N as [|? ? N1 N2]; subst.
  rewrite (IH _ N2). cbn [Obj.getOwn].
  destruct (Js.eqb key k) eqn:E.
  - apply eqb_eq in E. subst k.
    rewrite (getOwn_absent _ key es N1).
    unfold extractInto.
    destruct (negb (Js.eqb key (Js.lit "mainSelector")) && truthy (Some v));
      cbn [andb]; [|reflexivity].
    unfold Obj.set.
    destruct (Js.eqb key (Js.lit "__proto__")); cbn [negb]; [reflexivity|].
    apply getOwn_setOwn_same.
  - apply eqb_neq in E.
    assert (A : Obj.getOwn key (extractInto attr text element acc (k, v)) =
                Obj.getOwn key acc).
    { unfold extractInto.
      destruct (negb (Js.eqb k (Js.lit "mainSelector")) && truthy (Some v));
        [|reflexivity].
      apply getOwn_set_other. exact E. }
    rewrite A. reflexivity.
Qed.

Lemma extractEntry_field (selectors : Obj.t Js.str) (element : Element)
      (key : Js.str) :
  NoDup (List.map fst selectors) ->
  Obj.getOwn key (extractEntry attr text selectors element) =
  fieldOf attr text selectors element key.
Proof.
  intros N. unfold extractEntry, fieldOf.
  rewrite extractInto_fold.
  - rewrite (getOwn_entries _ key selectors N).
    destruct (Obj.getOwn key selectors) as [value|]; [|reflexivity].
    destruct (_ && _ && _); reflexivity.
  - eapply Permutation_NoDup; [|exact N].
    apply Permutation_map. apply Permutation_sym. apply entries_permutation.
Qed.

Lemma getOwnProp_entryValue (key : Js.str) (o : list (Js.str * Js.str)) :
  getOwnProp key (List.map (fun p => (fst p, JString (snd p))) o) =
  option_map JString (Obj.getOwn key o).
Proof.
  induction o as [|[k v] o IH]; [reflexivity|].
  cbn [List.map fst snd getOwnProp Obj.getOwn].
  destruct (Js.eqb key k); [reflexivity | exact IH].
Qed.

(** X15: HTML-mode extraction emits one entry per element the main
    selector matches, in the order of the elements.  With distinct keys in
    the selector set, the entry of an element has a property for exactly
    the configured fields whose selector is non-empty, [mainSelector] and
    [__proto__] apart, and its value is the string extracted for that
    field from that element. *)
Theorem html_entries_hold_the_configured_fields
        (stack : nat) (data : JsValue) (site : Website)
        (sel : Obj.t Js.str) (elements : list Element) :
  apiMode site = false ->
  selectors site = Some sel ->
  NoDup (List.map fst sel) ->
  select data (Obj.getOwn (Js.lit "mainSelector") sel) = Ok elements ->
  exists out,
    extractData (scrapeHtml select attr text) stack data site = Ok out /\
    List.length out = List.length elements /\
    forall i element,
      nth_error elements i = Some element ->
      exists props,
        nth_error out i = Some (JObject props) /\
        forall key,
          getOwnProp key props =
          option_map JString (fieldOf attr text sel element key).
Proof.
  intros A S N E. unfold extractData, scrapeHtml, selectorsOf.
  rewrite A, S, E. cbn [bind]. eexists. split; [reflexivity|].
  split; [apply length_map|].
  intros i element I. eexists. split.
  - rewrite nth_error_map, I. reflexivity.
  - intros key. rewrite getOwnProp_entryValue.
    rewrite getOwn_entries.
    + rewrite (extractEntry_field sel element key N). reflexivity.
    + unfold extractEntry. apply extractInto_keys. constructor.
Qed.

End HtmlFacts.

Lemma html_entries_hold_the_configured_fields_witness :
  apiMode scrapedSite = false /\
  extractData (scrapeHtml twoItems itemAttr itemText) 8 JNull scrapedSite =
    Ok [ JObject [ (Js.lit "title", JString (Js.lit "Naruto"));
                   (Js.lit "poster", JString (Js.lit "/1.png")) ];
         JObject [ (Js.lit "title", JString (Js.lit "Naruto"));
                   (Js.lit "poster", JString []) ] ] /\
  exists out,
    extractData (scrapeHtml twoItems itemAttr itemText) 8 JNull scrapedSite =
      Ok out /\
    List.length out = List.length [1; 2] /\
    forall i element,
      nth_error [1; 2] i = Some element ->
      exists props,
        nth_error out i = Some (JObject props) /\
        forall key,
          getOwnProp key props =
          option_map JString
            (fieldOf itemAttr itemText
                     [ (Js.lit "mainSelector", Js.lit ".items li");
                       (Js.lit "title", Js.lit "p.name");
                       (Js.lit "poster", Js.lit ".img img@src") ]
                     element key).
Proof.
  split; [reflexivity|].
  split; [vm_compute; reflexivity|].
  apply (html_entries_hold_the_configured_fields nat twoItems itemAttr itemText
           8 JNull scrapedSite
           [ (Js.lit "mainSelector", Js.lit ".items li");
             (Js.lit "title", Js.lit "p.name");
             (Js.lit "poster", Js.lit ".img img@src") ]
           [1; 2]).
  - reflexivity.
  - reflexivity.
  - vm_compute. repeat constructor; simpl; intros H;
      decompose [or] H; try discriminate; assumption.
  - reflexivity.
Defined.

(** ** [sanitizeTitle]: the BD marker *)

Lemma hasSpaceB_tail (c : N) (s : Js.str) :
  hasSpaceB (c :: s) = false -> hasSpaceB s = false.
Proof.
  destruct s as [|y s]; [reflexivity|].
  intros H.
  assert (E : hasSpaceB (c :: y :: s) =
              ((c =? 32)%N && ((y =? 66)%N || (y =? 98)%N))
              || hasSpaceB (y :: s)) by reflexivity.
  rewrite E in H. apply orb_false_iff in H. tauto.
Qed.

Lemma run_bd_fails (c : N) (u rest : Js.str) :
  hasSpaceB (c :: u) = false ->
  Re.run Re.bd (c :: u ++ 32%N :: rest) (fun r => Some r) = None.
Proof.
  intros B.
  destruct (Re.run Re.bd (c :: u ++ 32%N :: rest) (fun r => Some r))
    as [x|] eqn:E; [|reflexivity].
  destruct (run_lang _ _ _ _ _ E) as (m & s' & H & L & _).
  destruct (lang_bd _ L) as (c1 & more & -> & C).
  simpl in H. injection H as -> H.
  destruct u as [|y u]; simpl in H; injection H as <- _.
  - destruct C; discriminate.
  - exfalso.
    assert (X : hasSpaceB (32%N :: y :: u) = true)
      by (apply (hasSpaceB_found [] u y C)).
    congruence.
Qed.

Lemma search_bd_tail (tail tail' : Js.str) :
  Re.run Re.bd (32%N :: 98%N :: 100%N :: tail) (fun r => Some r) = Some tail' ->
  forall (u before : Js.str),
    hasSpaceB u = false ->
    Re.search Re.bd before (u ++ 32%N :: 98%N :: 100%N :: tail) =
    Some (rev before ++ u, tail').
Proof.
  intros R. induction u as [|c u IH]; intros before B.
  - rewrite search_unfold. cbn [app]. rewrite R, app_nil_r. reflexivity.
  - rewrite search_unfold.
    change ((c :: u) ++ 32%N :: 98%N :: 100%N :: tail)
      with (c :: u ++ 32%N :: 98%N :: 100%N :: tail).
    rewrite (run_bd_fails c u _ B).
    rewrite (IH (c :: before) (hasSpaceB_tail c u B)).
    simpl. rewrite <- app_assoc. reflexivity.
Qed.

(** X16: the BD marker.  For a title part [p] without opening parenthesis
    and without a space followed by [b] or [B], a part [q] without opening
    parenthesis, and any spelling of [BD] in upper or lower case:
    [p BD] at the end of the title normalises to what [p] normalises to;
    in [p BD q] the marker is removed together with the space on each
    side of it, so that the result is the lower-case form of [p]
    immediately followed by that of [q], trimmed and truncated. *)
Theorem bd_marker_is_removed (p marker q : Js.str) :
  ~ In 40%N p -> hasSpaceB p = false -> ~ In 40%N q ->
  Js.toLowerCase marker = Js.lit "bd" ->
  sanitizeTitle (Some (p ++ 32%N :: marker ++ 32%N :: q)) =
    Some (Js.substring0 99
            (Js.trim (Js.toLowerCase p ++ Js.toLowerCase q))) /\
  (p <> [] ->
   sanitizeTitle (Some (p ++ 32%N :: marker)) = sanitizeTitle (Some p)).
Proof.
  intros P B Q M.
  pose proof (toLowerCase_no_parenthesis p P) as Pu.
  pose proof (toLowerCase_no_parenthesis q Q) as Qu.
  pose proof (toLowerCase_no_spaceB p B) as Bu.
  split.
  - rewrite sanitizeTitle_nonempty by (destruct p; discriminate).
    assert (L : Js.toLowerCase (p ++ 32%N :: marker ++ 32%N :: q) =
                Js.toLowerCase p ++ 32%N :: 98%N :: 100%N
                                 :: 32%N :: Js.toLowerCase q).
    { rewrite !toLowerCase_space, M. reflexivity. }
    rewrite L. clear L.
    set (u := Js.toLowerCase p) in *. set (v := Js.toLowerCase q) in *.
    assert (N : ~ In 40%N (u ++ 32%N :: 98%N :: 100%N :: 32%N :: v)).
    { intros I. apply in_app_or in I. destruct I as [I|I]; [auto|].
      simpl in I. decompose [or] I; try discriminate. auto. }
    destruct (no_parenthesis_no_qualifier _ N) as [Hq Ha].
    rewrite (remove_unmatched _ _ Hq), (remove_unmatched _ _ Ha).
    unfold Re.remove.
    rewrite (search_bd_tail (32%N :: v) v) by (reflexivity || assumption).
    reflexivity.
  - intros NE. rewrite (sanitizeTitle_plain p NE P B).
    rewrite sanitizeTitle_nonempty by (destruct p; discriminate).
    assert (L : Js.toLowerCase (p ++ 32%N :: marker) =
                Js.toLowerCase p ++ 32%N :: 98%N :: 100%N :: []).
    { rewrite toLowerCase_space, M. reflexivity. }
    rewrite L. clear L.
    set (u := Js.toLowerCase p) in *.
    assert (N : ~ In 40%N (u ++ 32%N :: 98%N :: 100%N :: [])).
    { intros I. apply in_app_or in I. destruct I as [I|I]; [auto|].
      simpl in I. decompose [or] I; try discriminate. auto. }
    destruct (no_parenthesis_no_qualifier _ N) as [Hq Ha].
    rewrite (remove_unmatched _ _ Hq), (remove_unmatched _ _ Ha).
    unfold Re.remove.
    rewrite (search_bd_tail [] []) by (reflexivity || assumption).
    simpl. rewrite app_nil_r. reflexivity.
Qed.

Lemma bd_marker_is_removed_witness :
  ~ In 40%N pokemon /\
  hasSpaceB pokemon = false /\
  ~ In 40%N (Js.lit "Box") /\
  Js.toLowerCase (Js.lit "BD") = Js.lit "bd" /\
  sanitizeTitle (Some (pokemon ++ 32%N :: Js.lit "BD" ++ 32%N :: Js.lit "Box")) =
    Some (Js.lit "pok" ++ 0xE9%N :: Js.lit "mon journeys box") /\
  sanitizeTitle (Some (pokemon ++ 32%N :: Js.lit "BD" ++ 32%N :: Js.lit "Box")) =
    Some (Js.substring0 99
            (Js.trim (Js.toLowerCase pokemon ++
                      Js.toLowerCase (Js.lit "Box")))).
Proof.
  assert (P : ~ In 40%N pokemon).
  { vm_compute. intros H. decompose [or] H; try discriminate; assumption. }
  assert (Q : ~ In 40%N (Js.lit "Box")).
  { vm_compute. intros H. decompose [or] H; try discriminate; assumption. }
  split; [exact P|]. split; [reflexivity|]. split; [exact Q|].
  split; [reflexivity|]. split; [vm_compute; reflexivity|].
  apply (proj1 (bd_marker_is_removed pokemon (Js.lit "BD") (Js.lit "Box")
                  P eq_refl Q eq_refl)).
Defined.

(** ** [findArray]: a string in front of the array *)

Lemma forIn_none (find : JsValue -> result (option (list JsValue))) :
  forall (before rest : list JsValue),
    Forall (fun v => find v = Ok None) before ->
    forIn find (before ++ rest) = forIn find rest.
Proof.
  induction before as [|v before IH]; intros rest F; [reflexivity|].
  inversion F as [|? ? F1 F2]; subst.
  cbn [app forIn]. rewrite F1. cbn [bind]. apply IH. assumption.
Qed.

(** X17: a non-empty string value in front of the first array makes the
    search fail for every stack size.  If an object has no property named
    [hasOwnProperty], and a property whose value is a non-empty string is
    preceded only by properties under which the walk finds no array (no
    text, no array, nesting within the stack), [findArray] ends in the
    stack overflow, whatever follows that property. *)
Theorem string_before_array_overflows
        (stack : nat) (before after : list (Js.str * JsValue))
        (key : Js.str) (c : N) (s : Js.str) :
  hasKey (Js.lit "hasOwnProperty")
         (before ++ (key, JString (c :: s)) :: after) = false ->
  Forall (fun p => textFree (snd p) = true /\ firstArray (snd p) = None /\
                   S (depth (snd p)) <= stack) before ->
  findArray stack (JObject (before ++ (key, JString (c :: s)) :: after)) =
  Throw RangeError.
Proof.
  intros K F. destruct stack as [|stack]; [reflexivity|].
  rewrite findArray_frame, K, map_app. cbn [List.map snd].
  rewrite forIn_none.
  - cbn [forIn]. rewrite findArray_string. reflexivity.
  - rewrite Forall_map. eapply Forall_impl; [|exact F].
    intros [k v] (T1 & T2 & T3). cbn [snd] in *.
    rewrite (@findArray_textFree stack v T1) by lia. congruence.
Qed.

Lemma string_before_array_overflows_witness :
  hasKey (Js.lit "hasOwnProperty")
         ([(Js.lit "page", JNumber 1)] ++
          (Js.lit "status", JString (Js.lit "ok")) ::
          [(Js.lit "results", JArray [])]) = false /\
  Forall (fun p => textFree (snd p) = true /\ firstArray (snd p) = None /\
                   S (depth (snd p)) <= 1000)
         [(Js.lit "page", JNumber 1)] /\
  findArray 1000
    (JObject ([(Js.lit "page", JNumber 1)] ++
              (Js.lit "status", JString (Js.lit "ok")) ::
              [(Js.lit "results", JArray [])])) = Throw RangeError.
Proof.
  assert (F : Forall (fun p => textFree (snd p) = true /\
                               firstArray (snd p) = None /\
                               S (depth (snd p)) <= 1000)
                     [(Js.lit "page", JNumber 1)]).
  { constructor; [|constructor]. simpl. repeat split. lia. }
  split; [reflexivity|]. split; [exact F|].
  apply (string_before_array_overflows 1000 [(Js.lit "page", JNumber 1)]
           [(Js.lit "results", JArray [])] (Js.lit "status") 111%N [107%N]).
  - reflexivity.
  - exact F.
Defined.

(** ** [FindBestMatchByTitles]: candidates it cannot rate *)

Lemma mapM_sanitizeCandidate_object (t : Titles) :
  forall titles : list Title,
    In (Multi t) titles -> mapM sanitizeCandidate titles = Throw TypeError.
Proof.
  induction titles as [|x titles IH]; intros I; [destruct I|].
  cbn [mapM]. destruct x as [s|t'].
  - cbn [sanitizeCandidate bind]. destruct I as [I|I]; [discriminate|].
    rewrite (IH I). reflexivity.
  - reflexivity.
Qed.

Lemma defined_In (A : Type) (a : A) (l : list (option A)) :
  In (Some a) l -> In a (defined l).
Proof.
  induction l as [|[x|] l IH]; simpl; [tauto| |].
  - intros [[= ->]|I]; auto.
  - intros [C|I]; [discriminate | auto].
Qed.

Lemma mapM_In (A B : Type) (f : A -> result B) :
  forall (l : list A) (out : list B) (a : A) (b : B),
    mapM f l = Ok out -> In a l -> f a = Ok b -> In b out.
Proof.
  induction l as [|x l IH]; intros out a b H I E; [destruct I|].
  cbn [mapM] in H. destruct (f x) as [y|] eqn:X; cbn [bind] in H;
    [|discriminate H].
  destruct (mapM f l) as [ys|] eqn:M; cbn [bind] in H; [|discriminate H].
  injection H as <-. destruct I as [->|I].
  - left. congruence.
  - right. eapply IH; eauto.
Qed.

Lemma bestFrom_undefined (m : Js.str) :
  forall (rest : list (option Js.str)) (best : StringSimilarity.bestMatch),
    In None rest -> StringSimilarity.bestFrom m best rest = Throw TypeError.
Proof.
  induction rest as [|[t|] rest IH]; intros best I; [destruct I| |reflexivity].
  cbn [StringSimilarity.bestFrom]. destruct I as [I|I]; [discriminate|].
  apply IH. assumption.
Qed.

Lemma findBestMatch_undefined (m : option Js.str) (rt : list (option Js.str)) :
  In None rt -> exists e, StringSimilarity.findBestMatch m rt = Throw e.
Proof.
  intros I. unfold StringSimilarity.findBestMatch.
  destruct m as [m|]; [|eauto].
  destruct rt as [|[t|] rest]; [destruct I| |eauto].
  destruct I as [I|I]; [discriminate|].
  rewrite bestFrom_undefined by assumption. eauto.
Qed.

Lemma representation_undefined (rep : option Js.str)
      (rt : list (option Js.str)) :
  In None rt ->
  (truthy rep = true /\ exists e, representation rep rt = Throw e) \/
  (truthy rep = false /\ representation rep rt = Ok []).
Proof.
  intros I. unfold representation. destruct (truthy rep); [left | right; auto].
  split; [reflexivity|].
  destruct (findBestMatch_undefined (sanitizeTitle rep) rt I) as (e & E).
  rewrite E. cbn [bind]. eauto.
Qed.

Lemma matchesOf_undefined (t : Title) (rt : list (option Js.str)) :
  hasRepresentation (Some t) = true -> In None rt ->
  exists e, matchesOf t rt = Throw e.
Proof.
  intros R I. destruct t as [s|t]; cbn [matchesOf hasRepresentation] in *.
  - destruct (findBestMatch_undefined (sanitizeTitle (Some s)) rt I) as (e & E).
    match goal with
    | |- context [StringSimilarity.findBestMatch ?a ?l] =>
        replace (StringSimilarity.findBestMatch a l) with (@Throw StringSimilarity.bestMatch e)
    end.
    cbn [bind]. eauto.
  - destruct (representation_undefined (english t) rt I) as [(T1 & e & E)|(T1 & E)];
      rewrite E; cbn [bind]; [eauto|].
    destruct (representation_undefined (romaji t) rt I) as [(T2 & e & E2)|(T2 & E2)];
      rewrite E2; cbn [bind]; [eauto|].
    destruct (representation_undefined (native t) rt I) as [(T3 & e & E3)|(T3 & E3)];
      rewrite E3; cbn [bind]; [eauto|].
    rewrite T1, T2, T3 in R. discriminate.
Qed.

(** X18: candidates that cannot be rated make matching throw.  For a
    source title with a representation to match, [FindBestMatchByTitles]
    throws as soon as one candidate entry has a title that is a
    multi-representation object (a [TypeError]: it has no [toLowerCase]),
    or a title that is the empty string (it normalises to [undefined],
    which [findBestMatch] cannot rate). *)
Theorem unratable_candidate_makes_matching_throw
        (T : Type) (sourceTitle : option Title) (results : list (Input T))
        (e : Input T) :
  hasRepresentation sourceTitle = true ->
  In e results ->
  ((exists t, title e = Some (Multi t)) ->
   FindBestMatchByTitles sourceTitle results = Throw TypeError) /\
  (title e = Some (Plain []) ->
   exists err, FindBestMatchByTitles sourceTitle results = Throw err).
Proof.
  intros R I.
  assert (Tt : truthyTitle sourceTitle = true).
  { destruct sourceTitle as [[s|t]|]; simpl in *; auto. }
  destruct sourceTitle as [st|]; [|discriminate].
  unfold FindBestMatchByTitles. rewrite Tt. split.
  - intros (t & E). unfold resultTitlesOf.
    rewrite (mapM_sanitizeCandidate_object t); [reflexivity|].
    apply defined_In. rewrite <- E. apply in_map. assumption.
  - intros E. destruct (resultTitlesOf results) as [rt|err] eqn:Rt;
      cbn [bind]; [|eauto].
    assert (In None rt).
    { unfold resultTitlesOf in Rt.
      apply (mapM_In _ _ sanitizeCandidate _ rt (Plain []) None Rt);
        [|reflexivity].
      apply defined_In. rewrite <- E. apply in_map. assumption. }
    destruct (matchesOf_undefined st rt R H) as (err & M).
    rewrite M. cbn [bind]. eauto.
Qed.

Lemma unratable_candidate_makes_matching_throw_witness :
  hasRepresentation (Some (Plain (Js.lit "Naruto"))) = true /\
  In {| title := Some (Plain []); fields := tt |}
     [titled "Naruto"; {| title := Some (Plain []); fields := tt |}] /\
  FindBestMatchByTitles (Some (Plain (Js.lit "Naruto")))
    [titled "Naruto"; {| title := Some (Plain []); fields := tt |}] =
    Throw TypeError /\
  exists err,
    FindBestMatchByTitles (Some (Plain (Js.lit "Naruto")))
      [titled "Naruto"; {| title := Some (Plain []); fields := tt |}] =
    Throw err.
Proof.
  split; [reflexivity|].
  split; [simpl; auto|].
  split; [vm_compute; reflexivity|].
  apply (proj2 (unratable_candidate_makes_matching_throw unit
                  (Some (Plain (Js.lit "Naruto")))
                  [titled "Naruto"; {| title := Some (Plain []); fields := tt |}]
                  {| title := Some (Plain []); fields := tt |}
                  eq_refl (or_intror (or_introl eq_refl)))).
  reflexivity.
Defined.
